(** * Dye League stat tracker: aggregation and registry reconciliation

    A shallow embedding of [utils/merge_stats.py] and [utils/registry.py]
    together with the properties of their specification, and of the parts of
    [models/series.py], [models/game.py], [utils/report_generator.py] and
    [ui.py] that produce or consume what the two modules handle.

    Conventions of the embedding
    - a Python [dict] with string keys is an insertion-ordered association
      list (module [PyDict]); [json.dump] / [json.load] keep that order;
    - a stat value is a Python [int], embedded as [Z]; [int(v)] on an [int]
      is the identity;
    - an exception is a value of [exn] carried by [result];
    - the registry files and the series directory are explicit stores that
      are passed in and returned; module [OnDisk] has the registry files
      that may not parse, module [Traced] the log of the paths a batch run
      opens for writing. *)

From Stdlib Require Import ZArith List String Ascii Bool Lia Permutation Sorted.
From Stdlib Require Import DecimalString DecimalPos DecimalZ.
Import ListNotations.

Local Open Scope string_scope.
Local Open Scope list_scope.
Local Open Scope Z_scope.

Set Implicit Arguments.

(* ------------------------------------------------------------------ *)
(** ** Exceptions *)

Inductive exn : Type :=
| ValueError (msg : string)
| JSONDecodeError (msg : string).


Inductive result (A : Type) : Type :=
| Ok (a : A)
| Raise (e : exn).

Arguments Ok {A} a.
Arguments Raise {A} e.


(* ------------------------------------------------------------------ *)
(** ** Python dictionaries with string keys *)

Module PyDict.

Definition dict (V : Type) : Type := list (string * V).

Section Ops.
Variable V : Type.

(** [d.get(k)] *)
Fixpoint get (d : dict V) (k : string) : option V :=
  match d with
  | [] => None
  | (k', v) :: r => if String.eqb k k' then Some v else get r k
  end.

(** [d.get(k, dflt)] *)
Definition get_or (d : dict V) (k : string) (dflt : V) : V :=
  match get d k with
  | Some v => v
  | None => dflt
  end.

(** [k in d] *)
Definition contains (k : string) (d : dict V) : bool :=
  match get d k with
  | Some _ => true
  | None => false
  end.

(** [d[k] = v]: an existing key keeps its position, a new key goes last. *)
Fixpoint setitem (k : string) (v : V) (d : dict V) : dict V :=
  match d with
  | [] => [(k, v)]
  | (k', v') :: r =>
      if String.eqb k k' then (k', v) :: r else (k', v') :: setitem k v r
  end.

(** In-place mutation of the object stored under [k], as in
    [d[k][j] = x]: the dictionary keeps holding the same, now changed,
    object.  Python raises [KeyError] when [k] is absent; every use below
    indexes a key whose presence the source has just ensured, where this
    function and Python agree. *)
Fixpoint mutate (k : string) (f : V -> V) (d : dict V) : dict V :=
  match d with
  | [] => []
  | (k', v) :: r =>
      if String.eqb k k' then (k', f v) :: r else (k', v) :: mutate k f r
  end.

(** [collections.defaultdict(factory)]: [d[k]] inserts [factory()] under a
    missing key before handing out the stored object, which the caller
    then mutates in place by [f]. *)
Fixpoint dd_mutate (factory : V) (k : string) (f : V -> V) (d : dict V)
  : dict V :=
  match d with
  | [] => [(k, f factory)]
  | (k', v) :: r =>
      if String.eqb k k' then (k', f v) :: r
      else (k', v) :: dd_mutate factory k f r
  end.

(** [d.keys()], in insertion order. *)
Definition keys (d : dict V) : list string := map fst d.

End Ops.

Arguments get {V} d k.
Arguments get_or {V} d k dflt.
Arguments contains {V} k d.
Arguments setitem {V} k v d.
Arguments mutate {V} k f d.
Arguments dd_mutate {V} factory k f d.
Arguments keys {V} d.

End PyDict.

Import PyDict.

(* ------------------------------------------------------------------ *)
(** ** The stat schema ([merge_stats.py], [registry.py]) *)

Definition StatMap : Type := dict Z.

(** [int(v)] for a value that already is an [int]. *)
Definition int (v : Z) : Z := v.

Definition PLAYER_STAT_KEYS : list string :=
  [ "points"; "throws"; "table_hits"; "catches"; "missed_catches";
    "sinks"; "rim_hits"; "rounds_won"; "series_won" ].

Definition TEAM_STAT_KEYS : list string :=
  [ "total_points"; "total_throws"; "total_table_hits"; "total_catches";
    "total_missed_catches"; "total_sinks"; "total_rim_hits";
    "total_rounds_won"; "total_series_won" ].

(** [{k: 0 for k in keys}] *)
Definition zeroed (ks : list string) : StatMap := map (fun k => (k, 0)) ks.

Definition _default_player_stats : StatMap :=
  [ ("points", 0); ("throws", 0); ("table_hits", 0); ("catches", 0);
    ("missed_catches", 0); ("sinks", 0); ("rim_hits", 0);
    ("rounds_won", 0); ("series_won", 0) ].

Definition _default_team_stats : StatMap :=
  [ ("total_points", 0); ("total_throws", 0); ("total_table_hits", 0);
    ("total_catches", 0); ("total_missed_catches", 0); ("total_sinks", 0);
    ("total_rim_hits", 0); ("total_rounds_won", 0); ("total_series_won", 0) ].

(** [_add_stats(dst, src, keys)]:
    [for k in keys: dst[k] = dst.get(k, 0) + int(src.get(k, 0))] *)
Definition _add_stats (dst src : StatMap) (ks : list string) : StatMap :=
  fold_left
    (fun dst k => setitem k (get_or dst k 0 + int (get_or src k 0)) dst)
    ks dst.

(* ------------------------------------------------------------------ *)
(** ** Dates: [datetime.fromisoformat] and [isocalendar]

    Both belong to Python's standard library.  They are embedded the way
    CPython's [Lib/_pydatetime.py] computes them, on proleptic Gregorian
    ordinals (day 1 is 0001-01-01, a Monday). *)

Definition MINYEAR : Z := 1.
Definition MAXYEAR : Z := 9999.

Definition _is_leap (year : Z) : bool :=
  (year mod 4 =? 0) && (negb (year mod 100 =? 0) || (year mod 400 =? 0)).

Definition _days_before_year (year : Z) : Z :=
  let y := year - 1 in
  y * 365 + y / 4 - y / 100 + y / 400.

Definition _DAYS_IN_MONTH : list Z :=
  [-1; 31; 28; 31; 30; 31; 30; 31; 31; 30; 31; 30; 31].

Definition _DAYS_BEFORE_MONTH : list Z :=
  [-1; 0; 31; 59; 90; 120; 151; 181; 212; 243; 273; 304; 334].

Definition _days_in_month (year month : Z) : Z :=
  if (month =? 2) && _is_leap year then 29
  else nth (Z.to_nat month) _DAYS_IN_MONTH (-1).

Definition _days_before_month (year month : Z) : Z :=
  nth (Z.to_nat month) _DAYS_BEFORE_MONTH (-1)
  + (if (month >? 2) && _is_leap year then 1 else 0).

Definition _ymd2ord (year month day : Z) : Z :=
  _days_before_year year + _days_before_month year month + day.

(** Ordinal of the Monday that starts ISO week 1 of [year]. *)
Definition _isoweek1monday (year : Z) : Z :=
  let THURSDAY := 3 in
  let firstday := _ymd2ord year 1 1 in
  let firstweekday := (firstday + 6) mod 7 in
  let week1monday := firstday - firstweekday in
  if firstweekday >? THURSDAY then week1monday + 7 else week1monday.

(** [date.isocalendar()]: ISO year, ISO week number, ISO weekday. *)
Definition isocalendar (year month day : Z) : Z * Z * Z :=
  let week1monday := _isoweek1monday year in
  let today := _ymd2ord year month day in
  let week := (today - week1monday) / 7 in
  let wday := (today - week1monday) mod 7 in
  if week <? 0 then
    let year := year - 1 in
    let week1monday := _isoweek1monday year in
    let week := (today - week1monday) / 7 in
    let wday := (today - week1monday) mod 7 in
    (year, week + 1, wday + 1)
  else if (week >=? 52) && (today >=? _isoweek1monday (year + 1)) then
    (year + 1, 0 + 1, wday + 1)
  else
    (year, week + 1, wday + 1).

(** An ASCII decimal digit. *)
Definition digit_of (c : ascii) : option Z :=
  let n := Z.of_nat (nat_of_ascii c) in
  if (48 <=? n) && (n <=? 57) then Some (n - 48) else None.

(** The calendar date of [datetime.fromisoformat(date_str)] for the date-only
    form 'YYYY-MM-DD', the form [Series.date] is written in.  The longer
    forms that carry a time of day are not part of this embedding and are
    reported as malformed here.  Every failure is a [ValueError], as in the
    library; its message text is abridged. *)
Definition fromisoformat (date_str : string) : result (Z * Z * Z) :=
  let bad := Raise (ValueError "Invalid isoformat string") in
  match list_ascii_of_string date_str with
  | [y1; y2; y3; y4; s1; m1; m2; s2; d1; d2] =>
      match digit_of y1, digit_of y2, digit_of y3, digit_of y4,
            digit_of m1, digit_of m2, digit_of d1, digit_of d2 with
      | Some a, Some b, Some c, Some d, Some e, Some f, Some g, Some h =>
          let year := 1000 * a + 100 * b + 10 * c + d in
          let month := 10 * e + f in
          let day := 10 * g + h in
          if negb (Ascii.eqb s1 "-" && Ascii.eqb s2 "-") then bad
          else if negb ((MINYEAR <=? year) && (year <=? MAXYEAR)) then
            Raise (ValueError "year is out of range")
          else if negb ((1 <=? month) && (month <=? 12)) then
            Raise (ValueError "month must be in 1..12")
          else if negb ((1 <=? day) && (day <=? _days_in_month year month)) then
            Raise (ValueError "day is out of range for month")
          else Ok (year, month, day)
      | _, _, _, _, _, _, _, _ => bad
      end
  | _ => bad
  end.

(** [str(n)] / [f"{n}"] for an [int]. *)
Definition str (n : Z) : string := NilZero.string_of_int (Z.to_int n).

(** [f"{n:02d}"]: zero padding up to width 2. *)
Definition format_02d (n : Z) : string :=
  let s := str n in
  if (String.length s <? 2)%nat then ("0" ++ s)%string else s.

(** [_iso_week_key(date_str)]: ISO week key 'YYYY-Www' of 'YYYY-MM-DD'. *)
Definition _iso_week_key (date_str : string) : result string :=
  match fromisoformat date_str with
  | Raise e => Raise e
  | Ok (y, m, d) =>
      let '(year, week, _) := isocalendar y m d in
      Ok (str year ++ "-W" ++ format_02d week)%string
  end.

(* ------------------------------------------------------------------ *)
(** ** Series summaries on disk ([merge_stats.py]) *)

(** The JSON object of a [series_summary.json].  A field is [None] when the
    object has no such key; [others] lists the remaining keys ("series_id",
    "team1", "team2", "games_played", "series_score", "winner"), whose values
    the aggregation never reads. *)
Module Summary.
Record t : Type := mk {
  date : option string;
  players : option (dict StatMap);
  teams : option (dict StatMap);
  others : list string
}.

(** Truth value of the object: a [dict] is false exactly when empty. *)
Definition truthy (s : t) : bool :=
  match date s, players s, teams s, others s with
  | None, None, None, [] => false
  | _, _, _, _ => true
  end.
End Summary.

(** What a [series_summary.json] holds: bytes that do not parse, or an
    object of the shape [save_summary] writes (a string date, stat maps of
    integers).  Other JSON values are outside this embedding. *)
Inductive FileContent : Type :=
| Garbage
| Json (s : Summary.t).

(** An entry of the series root: a plain file, or a directory together with
    its [series_summary.json] when that file exists. *)
Inductive DirEntry : Type :=
| PlainFile
| Directory (summary : option FileContent).

(** The series root: [None] when it is not a directory, else its listing in
    the order [os.listdir] returns it. *)
Definition SeriesRoot : Type := option (list (string * DirEntry)).

(** [_safe_read_json(path)]: the parsed object, [None] on any exception. *)
Definition _safe_read_json (file : option FileContent) : option Summary.t :=
  match file with
  | Some (Json s) => Some s
  | Some Garbage => None
  | None => None
  end.

Definition _scan_series_summaries (root : SeriesRoot) : list Summary.t :=
  match root with
  | None => []
  | Some listing =>
      fold_left
        (fun out entry =>
           match snd entry with
           | PlainFile => out
           | Directory None => out
           | Directory (Some content) =>
               match _safe_read_json (Some content) with
               | Some data => if Summary.truthy data then out ++ [data] else out
               | None => out
               end
           end)
        listing []
  end.

(* ------------------------------------------------------------------ *)
(** ** The aggregator ([merge_all]) *)

(** A structure [{"players": ..., "teams": ...}]: one week's report, or the
    season totals. *)
Module Totals.
Record t : Type := mk {
  players : dict StatMap;
  teams : dict StatMap
}.
End Totals.

(** The four accumulators of [merge_all]. *)
Record Buckets : Type := mkBuckets {
  weekly_players : dict (dict StatMap);
  weekly_teams : dict (dict StatMap);
  season_players : dict StatMap;
  season_teams : dict StatMap
}.

Definition empty_buckets : Buckets := mkBuckets [] [] [] [].

(** The body of [for pname, pstats in players_block.items()]. *)
Definition add_player (wk : string) (b : Buckets) (item : string * StatMap)
  : Buckets :=
  let '(pname, pstats) := item in
  let add m := _add_stats m pstats PLAYER_STAT_KEYS in
  mkBuckets
    (dd_mutate [] wk (dd_mutate (zeroed PLAYER_STAT_KEYS) pname add)
       (weekly_players b))
    (weekly_teams b)
    (dd_mutate (zeroed PLAYER_STAT_KEYS) pname add (season_players b))
    (season_teams b).

(** The body of [for tname, tstats in teams_block.items()]. *)
Definition add_team (wk : string) (b : Buckets) (item : string * StatMap)
  : Buckets :=
  let '(tname, tstats) := item in
  let add m := _add_stats m tstats TEAM_STAT_KEYS in
  mkBuckets
    (weekly_players b)
    (dd_mutate [] wk (dd_mutate (zeroed TEAM_STAT_KEYS) tname add)
       (weekly_teams b))
    (season_players b)
    (dd_mutate (zeroed TEAM_STAT_KEYS) tname add (season_teams b)).

(** The body of [for series in summaries]. *)
Definition merge_series (b : Buckets) (series : Summary.t) : result Buckets :=
  match Summary.date series with
  | None => Ok b
  | Some date =>
      if String.eqb date "" then Ok b
      else
        match _iso_week_key date with
        | Raise e => Raise e
        | Ok wk =>
            let players_block :=
              match Summary.players series with Some p => p | None => [] end in
            let b := fold_left (add_player wk) players_block b in
            let teams_block :=
              match Summary.teams series with Some t => t | None => [] end in
            let b := fold_left (add_team wk) teams_block b in
            Ok b
        end
  end.

Fixpoint merge_loop (b : Buckets) (summaries : list Summary.t)
  : result Buckets :=
  match summaries with
  | [] => Ok b
  | series :: rest =>
      match merge_series b series with
      | Raise e => Raise e
      | Ok b' => merge_loop b' rest
      end
  end.

(** [sorted(keys)] on strings: a stable sort by code points. *)
Fixpoint insert_sorted (x : string) (l : list string) : list string :=
  match l with
  | [] => [x]
  | y :: r => if String.leb x y then x :: l else y :: insert_sorted x r
  end.

Definition sorted (l : list string) : list string :=
  fold_right insert_sorted [] l.

(** [for wk in sorted(weekly_players.keys()): weekly_reports[wk] = {...}].
    [weekly_teams[wk]] is a [defaultdict] read: an empty mapping for a week
    it has not seen (the entry this read inserts into the local
    [weekly_teams] is never looked at again). *)
Definition finalize_weekly (b : Buckets) : dict Totals.t :=
  fold_left
    (fun weekly_reports wk =>
       setitem wk
         (Totals.mk (get_or (weekly_players b) wk [])
                    (get_or (weekly_teams b) wk []))
         weekly_reports)
    (sorted (keys (weekly_players b))) [].

Definition merge_all (series_root : SeriesRoot)
  : result (dict Totals.t * Totals.t) :=
  let summaries := _scan_series_summaries series_root in
  match merge_loop empty_buckets summaries with
  | Raise e => Raise e
  | Ok b =>
      let weekly_reports := finalize_weekly b in
      let season_totals := Totals.mk (season_players b) (season_teams b) in
      Ok (weekly_reports, season_totals)
  end.

(* ------------------------------------------------------------------ *)
(** ** The registry ([registry.py]) *)

(** A team entry of [teams.json].  Every entry the module writes has both
    keys, "lifetime_stats" and "players". *)
Module TeamEntry.
Record t : Type := mk {
  lifetime_stats : StatMap;
  players : list string
}.

(** [entry["lifetime_stats"] = stats] *)
Definition set_lifetime_stats (stats : StatMap) (e : t) : t :=
  mk stats (players e).

(** [entry["players"] = names] *)
Definition set_players (names : list string) (e : t) : t :=
  mk (lifetime_stats e) names.
End TeamEntry.

(** The persisted registry: the directory [data/registry] and its two files,
    each absent or holding the mapping last written. *)
Record Store : Type := mkStore {
  dir_exists : bool;
  players_file : option (dict StatMap);
  teams_file : option (dict TeamEntry.t)
}.

Definition _ensure_registry_dirs (st : Store) : Store :=
  mkStore true (players_file st) (teams_file st).

(** [_load_json(path)]: [{}] when the file does not exist.  A file that
    exists is taken here as the mapping it holds; the file that does not
    parse, on which [json.load] raises, is in module [OnDisk] below. *)
Definition _load_json {V : Type} (file : option (dict V)) : dict V :=
  match file with
  | None => []
  | Some data => data
  end.

Definition load_registry (st : Store) : dict StatMap * dict TeamEntry.t :=
  let players := _load_json (players_file st) in
  let teams := _load_json (teams_file st) in
  (players, teams).

(** [save_registry]: [_save_json] of the players file, then of the teams
    file, each after [_ensure_registry_dirs]. *)
Definition save_registry (players : dict StatMap) (teams : dict TeamEntry.t)
  (st : Store) : Store :=
  let st := mkStore true (Some players) (teams_file st) in
  mkStore true (players_file st) (Some teams).

Definition list_team_names (st : Store) : list string :=
  let '(_, teams) := load_registry st in
  sorted (keys teams).

Definition upsert_team (team_name : string) (player_names : list string)
  (st : Store) : Store * result unit :=
  if negb (Nat.eqb (List.length player_names) 2) then
    (st, Raise (ValueError "Teams must have exactly 2 players for 2v2."))
  else
    let '(players_reg, teams_reg) := load_registry st in
    let players_reg :=
      fold_left
        (fun players_reg pname =>
           if negb (contains pname players_reg)
           then setitem pname _default_player_stats players_reg
           else players_reg)
        player_names players_reg in
    let teams_reg :=
      if negb (contains team_name teams_reg) then
        setitem team_name (TeamEntry.mk _default_team_stats player_names)
          teams_reg
      else
        mutate team_name (TeamEntry.set_players player_names) teams_reg in
    (save_registry players_reg teams_reg st, Ok tt).

Definition delete_team (team_name : string) (st : Store) : Store * bool :=
  let '(players_reg, teams_reg) := load_registry st in
  if contains team_name teams_reg then
    let teams_reg :=
      filter (fun kv => negb (String.eqb team_name (fst kv))) teams_reg in
    (save_registry players_reg teams_reg st, true)
  else (st, false).

(** The objects of [models/player.py] and [models/team.py], as far as the
    registry reads them. *)
Module Player.
Record t : Type := mk {
  name : string;
  lifetime_stats : StatMap
}.

(** [Player(name)] *)
Definition new (name : string) : t := mk name _default_player_stats.
End Player.

Module Team.
Record t : Type := mk {
  name : string;
  players : list Player.t;
  lifetime_stats : StatMap
}.

(** [Team(name, players)] *)
Definition new (name : string) (players : list Player.t) : t :=
  mk name players _default_team_stats.
End Team.

(** [d.update(other)] *)
Definition dict_update {V : Type} (d other : dict V) : dict V :=
  fold_left (fun d kv => setitem (fst kv) (snd kv) d) other d.

Definition get_team_by_name (name : string) (st : Store) : option Team.t :=
  let '(players_reg, teams_reg) := load_registry st in
  match get teams_reg name with
  | None => None
  | Some team_data =>
      let player_objs :=
        map (fun pname =>
               let pstats := get_or players_reg pname [] in
               let player := Player.new pname in
               Player.mk pname
                 (dict_update (Player.lifetime_stats player) pstats))
          (TeamEntry.players team_data) in
      let team := Team.new name player_objs in
      Some (Team.mk name player_objs
              (dict_update (Team.lifetime_stats team)
                 (TeamEntry.lifetime_stats team_data)))
  end.

(** [for k, v in stats.items(): target[k] = target.get(k, 0) + v] *)
Definition add_onto (stats target : StatMap) : StatMap :=
  fold_left (fun target kv => setitem (fst kv) (get_or target (fst kv) 0 + snd kv) target)
    stats target.

Definition update_registry_with_series (team1 team2 : Team.t) (st : Store)
  : Store :=
  let '(players_reg, teams_reg) := load_registry st in
  let players_reg :=
    fold_left
      (fun players_reg team =>
         fold_left
           (fun players_reg player =>
              if negb (contains (Player.name player) players_reg) then
                setitem (Player.name player) (Player.lifetime_stats player)
                  players_reg
              else
                mutate (Player.name player)
                  (add_onto (Player.lifetime_stats player)) players_reg)
           (Team.players team) players_reg)
      [team1; team2] players_reg in
  let teams_reg :=
    fold_left
      (fun teams_reg team =>
         let names := map Player.name (Team.players team) in
         if negb (contains (Team.name team) teams_reg) then
           setitem (Team.name team)
             (TeamEntry.mk (Team.lifetime_stats team) names) teams_reg
         else
           mutate (Team.name team)
             (fun e =>
                TeamEntry.set_players names
                  (TeamEntry.set_lifetime_stats
                     (add_onto (Team.lifetime_stats team)
                        (TeamEntry.lifetime_stats e)) e))
             teams_reg)
      [team1; team2] teams_reg in
  save_registry players_reg teams_reg st.

(** The body of [for pname, totals in players_totals.items()]. *)
Definition reconcile_player (overwrite : bool) (acc : dict StatMap * Z)
  (item : string * StatMap) : dict StatMap * Z :=
  let '(players_reg, players_updated) := acc in
  let '(pname, totals) := item in
  let players_reg :=
    if negb (contains pname players_reg)
    then setitem pname _default_player_stats players_reg
    else players_reg in
  let players_reg :=
    if overwrite then
      let new_stats :=
        fold_left (fun new_stats kv => setitem (fst kv) (int (snd kv)) new_stats)
          totals _default_player_stats in
      setitem pname new_stats players_reg
    else
      fold_left
        (fun players_reg kv =>
           mutate pname
             (fun stats =>
                setitem (fst kv) (get_or stats (fst kv) 0 + int (snd kv)) stats)
             players_reg)
        totals players_reg in
  (players_reg, players_updated + 1).

(** The body of [for tname, totals in teams_totals.items()]. *)
Definition reconcile_team (overwrite : bool) (acc : dict TeamEntry.t * Z)
  (item : string * StatMap) : dict TeamEntry.t * Z :=
  let '(teams_reg, teams_updated) := acc in
  let '(tname, totals) := item in
  let teams_reg :=
    if negb (contains tname teams_reg) then
      setitem tname
        (TeamEntry.mk _default_team_stats
           match get teams_reg tname with
           | Some e => TeamEntry.players e
           | None => []
           end)
        teams_reg
    else teams_reg in
  let teams_reg :=
    if overwrite then
      let new_stats :=
        fold_left (fun new_stats kv => setitem (fst kv) (int (snd kv)) new_stats)
          totals _default_team_stats in
      mutate tname (TeamEntry.set_lifetime_stats new_stats) teams_reg
    else
      fold_left
        (fun teams_reg kv =>
           mutate tname
             (fun e =>
                TeamEntry.set_lifetime_stats
                  (setitem (fst kv)
                     (get_or (TeamEntry.lifetime_stats e) (fst kv) 0
                      + int (snd kv))
                     (TeamEntry.lifetime_stats e))
                  e)
             teams_reg)
        totals teams_reg in
  (teams_reg, teams_updated + 1).

Definition update_registry_from_totals
  (players_totals teams_totals : dict StatMap) (overwrite : bool) (st : Store)
  : Store * (Z * Z) :=
  let st := _ensure_registry_dirs st in
  let '(players_reg, teams_reg) := load_registry st in
  let '(players_reg, players_updated) :=
    fold_left (reconcile_player overwrite) players_totals (players_reg, 0) in
  let '(teams_reg, teams_updated) :=
    fold_left (reconcile_team overwrite) teams_totals (teams_reg, 0) in
  (save_registry players_reg teams_reg st, (players_updated, teams_updated)).

(* ------------------------------------------------------------------ *)
(** ** The batch run ([write_outputs], [main])

    Only what reaches the registry and standard output is embedded; the
    weekly and season report files are renderings of the two structures
    [merge_all] returns. *)

(** The paths, as [os.path.join] builds them on POSIX. *)
Definition PLAYERS_FILE : string := "data/registry/players.json".
Definition TEAMS_FILE : string := "data/registry/teams.json".
Definition WEEKLY_ROOT : string := "data/weekly_reports".
Definition SEASON_TOTALS_JSON : string := "data/season_totals.json".
Definition SEASON_TOTALS_TXT : string := "data/season_totals.txt".

(** The registry after the authoritative sync and the lines printed. *)
Definition write_outputs (weekly_reports : dict Totals.t)
  (season_totals : Totals.t) (st : Store) : Store * list string :=
  let '(st, (players_updated, teams_updated)) :=
    update_registry_from_totals (Totals.players season_totals)
      (Totals.teams season_totals) true st in
  (st,
   [ ("✅ Registry sync complete: players updated=" ++ str players_updated
      ++ ", teams updated=" ++ str teams_updated)%string;
     ("   Players file: " ++ PLAYERS_FILE)%string;
     ("   Teams file:   " ++ TEAMS_FILE)%string ]).

Definition main (series_root : SeriesRoot) (st : Store)
  : result (Store * list string) :=
  match merge_all series_root with
  | Raise e => Raise e
  | Ok (weekly_reports, season_totals) =>
      let '(st, printed) := write_outputs weekly_reports season_totals st in
      Ok (st,
          printed ++
          [ ("✅ Merge complete. Weekly reports in '" ++ WEEKLY_ROOT
             ++ "', season totals in '" ++ SEASON_TOTALS_JSON ++ "' / '"
             ++ SEASON_TOTALS_TXT ++ "'.")%string ])
  end.

(* ------------------------------------------------------------------ *)
(** ** Vocabulary of the specification *)

(** The total an entity has for a stat key in a name-indexed mapping; an
    entity or key that is not there counts 0. *)
Definition stat (m : dict StatMap) (name key : string) : Z :=
  get_or (get_or m name []) key 0.

Definition sumZ (l : list Z) : Z := fold_right Z.add 0 l.

(** The sum, over all weeks of a weekly output, of an entity's weekly
    total. *)
Definition weeks_sum (side : Totals.t -> dict StatMap)
  (weekly : dict Totals.t) (name key : string) : Z :=
  sumZ (map (fun wk => stat (side (snd wk)) name key) weekly).

(** A series file that fails to parse, or whose object lacks the date. *)
Definition unparsed_or_undated (entry : string * DirEntry) : bool :=
  match snd entry with
  | Directory (Some Garbage) => true
  | Directory (Some (Json s)) =>
      match Summary.date s with None => true | Some _ => false end
  | _ => false
  end.

(** The ISO 8601 week rule: a week runs from Monday to Sunday and belongs to
    the calendar year its Thursday falls in; its number counts the Thursdays
    of that year.  [ord] is a proleptic Gregorian ordinal. *)
Definition weekday (ord : Z) : Z := (ord + 6) mod 7.

Definition thursday_of_week (ord : Z) : Z := ord - weekday ord + 3.

Definition iso8601_week (ord iso_year iso_week : Z) : Prop :=
  let th := thursday_of_week ord in
  _ymd2ord iso_year 1 1 <= th < _ymd2ord (iso_year + 1) 1 1
  /\ iso_week = (th - _ymd2ord iso_year 1 1) / 7 + 1.

(** The stats the authoritative path stores: the zeroed schema overlaid
    with the items of [totals] (the loop [new_stats[k] = int(v)]). *)
Definition exact_stats (defaults totals : StatMap) : StatMap :=
  fold_left (fun new_stats kv => setitem (fst kv) (int (snd kv)) new_stats)
    totals defaults.

(** A run of "create when missing, then change in place", one per item. *)
Definition upsert_all {V T : Type} (factory : V) (upd : T -> V -> V)
  (items : list (string * T)) (d : dict V) : dict V :=
  fold_left (fun d kt => dd_mutate factory (fst kt) (upd (snd kt)) d) items d.

(** The entry [update_registry_from_totals] creates for an unknown team. *)
Definition new_team_entry : TeamEntry.t := TeamEntry.mk _default_team_stats [].

(** What the authoritative path does to a stored player map and to a stored
    team entry. *)
Definition overwrite_player (totals : StatMap) (_ : StatMap) : StatMap :=
  exact_stats _default_player_stats totals.

Definition overwrite_team (totals : StatMap) (e : TeamEntry.t) : TeamEntry.t :=
  TeamEntry.set_lifetime_stats (exact_stats _default_team_stats totals) e.

(** The roster side of the teams registry: team names with their player
    lists, in registry order. *)
Definition rosters (teams_reg : dict TeamEntry.t) : dict (list string) :=
  map (fun kv => (fst kv, TeamEntry.players (snd kv))) teams_reg.

(** The registry as it is when both files hold an empty mapping. *)
Definition empty_registry (dir : bool) : Store := mkStore dir (Some []) (Some []).

(** What one entry of the series root adds to the scan. *)
Definition entry_summaries (entry : string * DirEntry) : list Summary.t :=
  match snd entry with
  | Directory (Some (Json data)) => if Summary.truthy data then [data] else []
  | _ => []
  end.

Definition has_date (s : Summary.t) : bool :=
  match Summary.date s with Some _ => true | None => false end.

(** The listing without the entries that fail to parse or lack a date. *)
Definition usable_entries (listing : list (string * DirEntry))
  : list (string * DirEntry) :=
  filter (fun entry => negb (unparsed_or_undated entry)) listing.

(** Every map of a name-indexed mapping has exactly the key list [ks]. *)
Definition schema_maps (ks : list string) (d : dict StatMap) : Prop :=
  Forall (fun entry => keys (snd entry) = ks) d.

Definition schema_totals (t : Totals.t) : Prop :=
  schema_maps PLAYER_STAT_KEYS (Totals.players t)
  /\ schema_maps TEAM_STAT_KEYS (Totals.teams t).

(** What the delta path does to a stored map: the loop
    [stats[k] = stats.get(k, 0) + int(v)] over the items of [totals]. *)
Definition add_totals (totals stats : StatMap) : StatMap :=
  fold_left
    (fun stats kv => setitem (fst kv) (get_or stats (fst kv) 0 + int (snd kv)) stats)
    totals stats.

(** The stats stored for a name after one item of the totals: [old] is what
    the registry held for the name. *)
Definition reconciled_stats (overwrite : bool) (defaults totals : StatMap)
  (old : option StatMap) : StatMap :=
  if overwrite then exact_stats defaults totals
  else add_totals totals (match old with Some m => m | None => defaults end).

(** The maps the totals give for [name], in order. *)
Definition given_for (name : string) (totals : dict StatMap) : list StatMap :=
  map snd (filter (fun entry => String.eqb name (fst entry)) totals).

(** The keys a reconciled map starts from: the schema on the authoritative
    path and for a new entry, the keys already stored otherwise. *)
Definition base_keys (overwrite : bool) (schema : list string)
  (old : option StatMap) : list string :=
  if overwrite then schema
  else match old with Some m => keys m | None => schema end.

(** [m] has every key of [base]; a further key comes from one of the maps
    [given]; and without such further keys the key list is [base] itself. *)
Definition base_plus_given (base : list string) (given : list StatMap)
  (m : StatMap) : Prop :=
  incl base (keys m)
  /\ (forall k, In k (keys m) ->
        In k base \/ exists t, In t given /\ In k (keys t))
  /\ ((forall t, In t given -> incl (keys t) base) -> keys m = base).

(** The invariant of [merge_all]'s accumulators: every stat map they hold
    has exactly the keys of its schema. *)
Definition buckets_ok (b : Buckets) : Prop :=
  Forall (fun week => schema_maps PLAYER_STAT_KEYS (snd week)) (weekly_players b)
  /\ Forall (fun week => schema_maps TEAM_STAT_KEYS (snd week)) (weekly_teams b)
  /\ schema_maps PLAYER_STAT_KEYS (season_players b)
  /\ schema_maps TEAM_STAT_KEYS (season_teams b).

(** The sum of an entity's totals over the weeks of a weekly accumulator. *)
Definition weeks_total (w : dict (dict StatMap)) (name key : string) : Z :=
  sumZ (map (fun week => stat (snd week) name key) w).

(** What accumulating the map [src] of [owner] adds to the total that
    [name] has for [key]. *)
Definition contribution (ks : list string) (owner : string) (src : StatMap)
  (name key : string) : Z :=
  if String.eqb name owner
  then (if in_dec string_dec key ks then get_or src key 0 else 0)
  else 0.

(** Season totals and weekly accumulators agree, and no week is listed
    twice. *)
Definition balanced (b : Buckets) : Prop :=
  (forall name key,
     stat (season_players b) name key
     = weeks_total (weekly_players b) name key)
  /\ (forall name key,
        stat (season_teams b) name key
        = weeks_total (weekly_teams b) name key)
  /\ NoDup (keys (weekly_players b))
  /\ NoDup (keys (weekly_teams b)).

(** The summary names at least one player. *)
Definition lists_players (s : Summary.t) : bool :=
  match Summary.players s with
  | Some (_ :: _) => true
  | _ => false
  end.

(** The summary is one the aggregation buckets: it has a non-empty date. *)
Definition is_dated (s : Summary.t) : bool :=
  match Summary.date s with
  | Some date => negb (String.eqb date "")
  | None => false
  end.

(** The summary names at least one team. *)
Definition lists_teams (s : Summary.t) : bool :=
  match Summary.teams s with
  | Some (_ :: _) => true
  | _ => false
  end.

(** A dated summary that names a team names a player as well. *)
Definition teams_come_with_players (s : Summary.t) : bool :=
  negb (is_dated s) || negb (lists_teams s) || lists_players s.

(** Every week of the team accumulator is a week of the player
    accumulator. *)
Definition weeks_covered (b : Buckets) : Prop :=
  incl (keys (weekly_teams b)) (keys (weekly_players b)).

(** [tname] has a map in week [wk] of the team accumulator. *)
Definition team_in_week (b : Buckets) (wk tname : string) : Prop :=
  In tname (keys (get_or (weekly_teams b) wk [])).

(** The [teams] block the aggregation reads from a summary. *)
Definition teams_block (s : Summary.t) : dict StatMap :=
  match Summary.teams s with Some t => t | None => [] end.

(* ------------------------------------------------------------------ *)
(** ** Further vocabulary: records, weeks and the application's objects *)

(** The [players] block the aggregation reads from a summary. *)
Definition players_block (s : Summary.t) : dict StatMap :=
  match Summary.players s with Some p => p | None => [] end.

(** The week under which the aggregation buckets a summary, when it does. *)
Definition week_of (s : Summary.t) : option string :=
  match Summary.date s with
  | None => None
  | Some date =>
      if String.eqb date "" then None
      else match _iso_week_key date with
           | Ok wk => Some wk
           | Raise _ => None
           end
  end.

Definition in_week (wk : string) (s : Summary.t) : bool :=
  match week_of s with
  | Some w => String.eqb w wk
  | None => false
  end.

(** The date of the summary is missing, empty, or one [_iso_week_key]
    accepts. *)
Definition date_accepted (s : Summary.t) : bool :=
  match Summary.date s with
  | None => true
  | Some date =>
      if String.eqb date "" then true
      else match _iso_week_key date with
           | Ok _ => true
           | Raise _ => false
           end
  end.

(** What the items of one block add to the total of ([name], [key]). *)
Definition block_total (ks : list string) (block : dict StatMap)
  (name key : string) : Z :=
  sumZ (map (fun item => contribution ks (fst item) (snd item) name key) block).

(** The same, summed over the summaries that satisfy [sel]. *)
Definition records_total (sel : Summary.t -> bool) (ks : list string)
  (block : Summary.t -> dict StatMap) (summaries : list Summary.t)
  (name key : string) : Z :=
  sumZ (map (fun s => if sel s then block_total ks (block s) name key else 0)
          summaries).

(** The Monday that starts the week of the day with ordinal [ord]. *)
Definition monday_of_week (ord : Z) : Z := ord - weekday ord.

(** The stored value of ([name], [key]) in the teams registry, 0 when the
    team or the key is not there. *)
Definition team_stat (teams_reg : dict TeamEntry.t) (name key : string) : Z :=
  match get teams_reg name with
  | Some e => get_or (TeamEntry.lifetime_stats e) key 0
  | None => 0
  end.

(** The sum of the values a stat map gives under [key]. *)
Definition item_sum (t : StatMap) (key : string) : Z :=
  sumZ (map (fun kv => if String.eqb key (fst kv) then snd kv else 0) t).

(** The sum of the values the totals give for ([name], [key]). *)
Definition totals_sum (totals : dict StatMap) (name key : string) : Z :=
  sumZ (map (fun nt => if String.eqb name (fst nt)
                       then item_sum (snd nt) key else 0) totals).

(** The body of the teams loop of [update_registry_with_series]. *)
Definition store_series_team (teams_reg : dict TeamEntry.t) (team : Team.t)
  : dict TeamEntry.t :=
  let names := map Player.name (Team.players team) in
  if negb (contains (Team.name team) teams_reg) then
    setitem (Team.name team)
      (TeamEntry.mk (Team.lifetime_stats team) names) teams_reg
  else
    mutate (Team.name team)
      (fun e =>
         TeamEntry.set_players names
           (TeamEntry.set_lifetime_stats
              (add_onto (Team.lifetime_stats team)
                 (TeamEntry.lifetime_stats e)) e))
      teams_reg.

(** A game ([models/game.py]).  The two teams it refers to are the series'
    own team objects and are not repeated here. *)
Module Game.
Record t : Type := mk {
  game_id : string;
  series_id : string;
  game_number : Z;
  winner : option string
}.

Definition end_game (winner_name : string) (g : t) : t :=
  mk (game_id g) (series_id g) (game_number g) (Some winner_name).
End Game.

(** A series ([models/series.py]).  The per-game counters of the teams,
    which [start_new_game] resets and nothing else in the module reads, are
    not part of the team objects above. *)
Module Series.
Record t : Type := mk {
  series_id : string;
  date : string;
  team1 : Team.t;
  team2 : Team.t;
  games : list Game.t;
  best_of : Z;
  current_game : Z;
  team1_wins : Z;
  team2_wins : Z;
  winner : option string
}.

(** [Series(series_id, date, team1, team2)] *)
Definition new (series_id date : string) (team1 team2 : Team.t) : t :=
  mk series_id date team1 team2 [] 3 0 0 0 None.

Definition start_new_game (s : t) : t * Game.t :=
  let current_game := current_game s + 1 in
  let s := mk (series_id s) (date s) (team1 s) (team2 s) (games s) (best_of s)
             current_game (team1_wins s) (team2_wins s) (winner s) in
  let gid := (series_id s ++ "_Game" ++ str current_game)%string in
  (s, Game.mk gid (series_id s) current_game None).

(** The object [save_summary] writes to [series_summary.json], as
    [json.load] gives it back: the players of both teams under their names
    (a later player of the same name replaces the earlier one), the two
    teams under theirs, and six further keys. *)
Definition save_summary (s : t) : Summary.t :=
  Summary.mk
    (Some (date s))
    (Some (fold_left
             (fun d p => setitem (Player.name p) (Player.lifetime_stats p) d)
             (Team.players (team1 s) ++ Team.players (team2 s)) []))
    (Some (setitem (Team.name (team2 s)) (Team.lifetime_stats (team2 s))
             (setitem (Team.name (team1 s)) (Team.lifetime_stats (team1 s)) [])))
    ["series_id"; "team1"; "team2"; "games_played"; "series_score"; "winner"].

(** [finish_series]: the series with its winner, and the summary saved. *)
Definition finish_series (s : t) : t * Summary.t :=
  let w := if team1_wins s >? team2_wins s
           then Team.name (team1 s) else Team.name (team2 s) in
  let s := mk (series_id s) (date s) (team1 s) (team2 s) (games s) (best_of s)
             (current_game s) (team1_wins s) (team2_wins s) (Some w) in
  (s, save_summary s).

(** [game.winner == name] for an [Optional[str]]. *)
Definition winner_is (game : Game.t) (name : string) : bool :=
  match Game.winner game with
  | Some w => String.eqb w name
  | None => false
  end.

(** [record_game(game)]: the series after it, and the summary saved when the
    series is finished by it. *)
Definition record_game (game : Game.t) (s : t) : t * option Summary.t :=
  let games := games s ++ [game] in
  let '(team1_wins, team2_wins) :=
    if winner_is game (Team.name (team1 s))
    then (team1_wins s + 1, team2_wins s)
    else if winner_is game (Team.name (team2 s))
    then (team1_wins s, team2_wins s + 1)
    else (team1_wins s, team2_wins s) in
  let s := mk (series_id s) (date s) (team1 s) (team2 s) games (best_of s)
             (current_game s) team1_wins team2_wins (winner s) in
  if current_game s >=? best_of s
  then let '(s, summary) := finish_series s in (s, Some summary)
  else (s, None).
End Series.

(** A directory of the series root whose summary [save_summary] wrote for a
    series with at least one player. *)
Definition written_by_series (entry : string * DirEntry) : Prop :=
  exists s,
    snd entry = Directory (Some (Json (Series.save_summary s)))
    /\ Team.players (Series.team1 s) ++ Team.players (Series.team2 s) <> [].

(** One game of the application ([ui.py]): [create_game_screen] starts it,
    [end_game] ends it with the name entered and records it. *)
Definition play_game (s : Series.t) (winner_name : string) : Series.t :=
  let '(s, game) := Series.start_new_game s in
  fst (Series.record_game (Game.end_game winner_name game) s).

Definition play_games (winners : list string) (s : Series.t) : Series.t :=
  fold_left play_game winners s.

(** The games the series counts for each team: a name equal to both teams'
    counts for the first. *)
Definition wins_of_team1 (s : Series.t) (winners : list string) : Z :=
  Z.of_nat (List.length
    (filter (fun w => String.eqb w (Team.name (Series.team1 s))) winners)).

Definition wins_of_team2 (s : Series.t) (winners : list string) : Z :=
  Z.of_nat (List.length
    (filter (fun w => negb (String.eqb w (Team.name (Series.team1 s)))
                      && String.eqb w (Team.name (Series.team2 s))) winners)).

(** [strftime("%Y-%m-%d")] of a date, the form [ui.py] stamps a series
    with: the year in decimal, month and day on two digits. *)
Definition strftime_Ymd (year month day : Z) : string :=
  (str year ++ "-" ++ format_02d month ++ "-" ++ format_02d day)%string.

(** A directory entry of the series root that holds nothing, or a summary
    the application wrote for a series it stamped with a calendar date. *)
Definition stamped_by_application (entry : string * DirEntry) : Prop :=
  forall content, snd entry = Directory (Some content) ->
    exists s y m d,
      content = Json (Series.save_summary s)
      /\ Series.date s = strftime_Ymd y m d
      /\ 1000 <= y <= 9999 /\ 1 <= m <= 12 /\ 1 <= d <= _days_in_month y m.

(* ------------------------------------------------------------------ *)
(** ** The registry files as they are on disk ([registry.py])

    The registry functions above take a registry file that exists as the
    mapping it holds.  A file that exists may also hold text that
    [json.load] does not parse; [_load_json] does not guard the call, so
    the [JSONDecodeError] reaches the caller.  Module [OnDisk] embeds the
    functions on such files. *)

(** What a registry file that exists holds: text on which [json.load]
    raises [JSONDecodeError(msg)], or a mapping.  (Bytes that are not UTF-8
    raise [UnicodeDecodeError], a [ValueError] too; they are not told apart
    here.) *)
Inductive RegistryFile (V : Type) : Type :=
| Unparsable (msg : string)
| Parsed (data : dict V).

Arguments Unparsable {V} msg.
Arguments Parsed {V} data.

Record Disk : Type := mkDisk {
  disk_dir : bool;
  disk_players : option (RegistryFile StatMap);
  disk_teams : option (RegistryFile TeamEntry.t)
}.

(** The disk of a registry whose files parse. *)
Definition on_disk (st : Store) : Disk :=
  mkDisk (dir_exists st)
    (option_map Parsed (players_file st))
    (option_map Parsed (teams_file st)).

Module OnDisk.

(** [_load_json(path)]: [{}] when the file does not exist, else
    [json.load(f)]. *)
Definition _load_json {V : Type} (file : option (RegistryFile V))
  : result (dict V) :=
  match file with
  | None => Ok []
  | Some (Unparsable msg) => Raise (JSONDecodeError msg)
  | Some (Parsed data) => Ok data
  end.

Definition load_registry (dk : Disk)
  : result (dict StatMap * dict TeamEntry.t) :=
  match _load_json (disk_players dk) with
  | Raise e => Raise e
  | Ok players =>
      match _load_json (disk_teams dk) with
      | Raise e => Raise e
      | Ok teams => Ok (players, teams)
      end
  end.

(** [save_registry]: [_save_json] of the players file, then of the teams
    file, each after [_ensure_registry_dirs]. *)
Definition save_registry (players : dict StatMap) (teams : dict TeamEntry.t)
  (dk : Disk) : Disk :=
  let dk := mkDisk true (Some (Parsed players)) (disk_teams dk) in
  mkDisk true (disk_players dk) (Some (Parsed teams)).

Definition upsert_team (team_name : string) (player_names : list string)
  (dk : Disk) : Disk * result unit :=
  if negb (Nat.eqb (List.length player_names) 2) then
    (dk, Raise (ValueError "Teams must have exactly 2 players for 2v2."))
  else
    match load_registry dk with
    | Raise e => (dk, Raise e)
    | Ok (players_reg, teams_reg) =>
        let players_reg :=
          fold_left
            (fun players_reg pname =>
               if negb (contains pname players_reg)
               then setitem pname _default_player_stats players_reg
               else players_reg)
            player_names players_reg in
        let teams_reg :=
          if negb (contains team_name teams_reg) then
            setitem team_name (TeamEntry.mk _default_team_stats player_names)
              teams_reg
          else
            mutate team_name (TeamEntry.set_players player_names) teams_reg in
        (save_registry players_reg teams_reg dk, Ok tt)
    end.

End OnDisk.

(* ------------------------------------------------------------------ *)
(** ** Text reports ([report_generator.py]) *)

Definition PLAYER_ORDER : list string :=
  ["points"; "throws"; "catches"; "missed_catches"; "sinks";
   "table_hits"; "rim_hits"; "rounds_won"; "series_won"].

Definition TEAM_ORDER : list string :=
  ["total_points"; "total_throws"; "total_catches"; "total_missed_catches";
   "total_sinks"; "total_table_hits"; "total_rim_hits"; "total_rounds_won";
   "total_series_won"].

Definition _fmt_player_line (name : string) (stats : StatMap) : string :=
  let parts :=
    map (fun k => (k ++ ":" ++ str (get_or stats k 0))%string) PLAYER_ORDER in
  ((name ++ ": ") ++ String.concat ", " parts)%string.

Definition _fmt_team_line (name : string) (stats : StatMap) : string :=
  let parts :=
    map (fun k => (k ++ ":" ++ str (get_or stats k 0))%string) TEAM_ORDER in
  ((name ++ ": ") ++ String.concat ", " parts)%string.

(** [arr.sort(key=lambda x: x[1], reverse=True)]: a stable sort, largest
    value first; items of equal value keep their order. *)
Fixpoint insert_desc (x : string * Z) (l : list (string * Z))
  : list (string * Z) :=
  match l with
  | [] => [x]
  | y :: r => if snd x <? snd y then y :: insert_desc x r else x :: l
  end.

Definition sort_desc (arr : list (string * Z)) : list (string * Z) :=
  fold_right insert_desc [] arr.

(** [[(name, stats.get(stat, 0)) for name, stats in players.items()]] *)
Definition stat_items (players : dict StatMap) (stat : string)
  : list (string * Z) :=
  map (fun item => (fst item, get_or (snd item) stat 0)) players.

(** The local [top_n(stat, n)] of [_leaders_block]. *)
Definition top_n (players : dict StatMap) (stat : string) (n : nat)
  : list (string * Z) :=
  firstn n (sort_desc (stat_items players stat)).

(** [s.capitalize()] for an ASCII string. *)
Definition upper (c : ascii) : ascii :=
  let n := nat_of_ascii c in
  if (97 <=? n)%nat && (n <=? 122)%nat then ascii_of_nat (n - 32) else c.

Definition lower (c : ascii) : ascii :=
  let n := nat_of_ascii c in
  if (65 <=? n)%nat && (n <=? 90)%nat then ascii_of_nat (n + 32) else c.

Fixpoint lowered (s : string) : string :=
  match s with
  | EmptyString => EmptyString
  | String c r => String (lower c) (lowered r)
  end.

Definition capitalize (s : string) : string :=
  match s with
  | EmptyString => EmptyString
  | String c r => String (upper c) (lowered r)
  end.

(** [f"  - {name}: {val}"] *)
Definition leader_line (item : string * Z) : string :=
  ("  - " ++ fst item ++ ": " ++ str (snd item))%string.

Definition _leaders_block (players : dict StatMap) : list string :=
  fold_left
    (fun lines stat =>
       match top_n players stat 5 with
       | [] => lines
       | top =>
           (lines ++ [(capitalize stat ++ " Leaders:")%string])
           ++ map leader_line top
       end)
    ["points"; "throws"; "sinks"; "catches"] [].

(** One section of the leaders block. *)
Definition leaders_section (players : dict StatMap) (header stat : string)
  : list string :=
  header :: map leader_line (top_n players stat 5).

(** Largest value first. *)
Definition value_geb (a b : string * Z) : Prop := snd b <= snd a.

(** The files [write_outputs] opens for writing. *)
Definition week_json_path (week_key : string) : string :=
  (WEEKLY_ROOT ++ "/" ++ "week_" ++ week_key ++ "_report.json")%string.

Definition week_txt_path (week_key : string) : string :=
  (WEEKLY_ROOT ++ "/" ++ "week_" ++ week_key ++ "_report.txt")%string.

(** The batch run once more, now with the log of the paths it opens for
    writing: every [open(path, "w")] of [write_outputs] and of the
    [_save_json] calls it reaches appends its path. *)
Module Traced.

Definition _save_json (path : string) (log : list string) : list string :=
  log ++ [path].

Definition save_registry (players : dict StatMap) (teams : dict TeamEntry.t)
  (st : Store) (log : list string) : Store * list string :=
  let log := _save_json PLAYERS_FILE log in
  let log := _save_json TEAMS_FILE log in
  (save_registry players teams st, log).

Definition update_registry_from_totals
  (players_totals teams_totals : dict StatMap) (overwrite : bool) (st : Store)
  (log : list string) : Store * (Z * Z) * list string :=
  let st := _ensure_registry_dirs st in
  let '(players_reg, teams_reg) := load_registry st in
  let '(players_reg, players_updated) :=
    fold_left (reconcile_player overwrite) players_totals (players_reg, 0) in
  let '(teams_reg, teams_updated) :=
    fold_left (reconcile_team overwrite) teams_totals (teams_reg, 0) in
  let '(st, log) := save_registry players_reg teams_reg st log in
  (st, (players_updated, teams_updated), log).

Definition write_outputs (weekly_reports : dict Totals.t)
  (season_totals : Totals.t) (st : Store)
  : Store * list string * list string :=
  let log :=
    fold_left
      (fun log item =>
         let log := log ++ [week_json_path (fst item)] in
         log ++ [week_txt_path (fst item)])
      weekly_reports [] in
  let log := log ++ [SEASON_TOTALS_JSON] in
  let log := log ++ [SEASON_TOTALS_TXT] in
  let '(st, (players_updated, teams_updated), log) :=
    update_registry_from_totals (Totals.players season_totals)
      (Totals.teams season_totals) true st log in
  (st,
   [ ("✅ Registry sync complete: players updated=" ++ str players_updated
      ++ ", teams updated=" ++ str teams_updated)%string;
     ("   Players file: " ++ PLAYERS_FILE)%string;
     ("   Teams file:   " ++ TEAMS_FILE)%string ],
   log).

Definition main (series_root : SeriesRoot) (st : Store)
  : result (Store * list string * list string) :=
  match merge_all series_root with
  | Raise e => Raise e
  | Ok (weekly_reports, season_totals) =>
      let '(st, printed, log) :=
        write_outputs weekly_reports season_totals st in
      Ok (st,
          printed ++
          [ ("✅ Merge complete. Weekly reports in '" ++ WEEKLY_ROOT
             ++ "', season totals in '" ++ SEASON_TOTALS_JSON ++ "' / '"
             ++ SEASON_TOTALS_TXT ++ "'.")%string ],
          log)
  end.

End Traced.

(* ------------------------------------------------------------------ *)
(** ** Vocabulary of the proofs *)

(** [a <= b] on strings, by code points. *)
Definition leb_true (a b : string) : Prop := String.leb a b = true.

(** The four sums the accumulators hold for ([name], [key]) and week
    [wk0]. *)
Definition tallies (b : Buckets) (wk0 name key : string) : Z * Z * Z * Z :=
  (stat (season_players b) name key,
   stat (season_teams b) name key,
   stat (get_or (weekly_players b) wk0 []) name key,
   stat (get_or (weekly_teams b) wk0 []) name key).

(** What one summary adds to the four sums. *)
Definition record_tallies (s : Summary.t) (wk0 name key : string)
  : Z * Z * Z * Z :=
  (if is_dated s
   then block_total PLAYER_STAT_KEYS (players_block s) name key else 0,
   if is_dated s
   then block_total TEAM_STAT_KEYS (teams_block s) name key else 0,
   if in_week wk0 s
   then block_total PLAYER_STAT_KEYS (players_block s) name key else 0,
   if in_week wk0 s
   then block_total TEAM_STAT_KEYS (teams_block s) name key else 0).

Definition add4 (x y : Z * Z * Z * Z) : Z * Z * Z * Z :=
  let '(a, b, c, d) := x in
  let '(a', b', c', d') := y in
  (a + a', b + b', c + c', d + d').

(** What a list of summaries adds to the four sums. *)
Definition records_tallies (summaries : list Summary.t)
  (wk0 name key : string) : Z * Z * Z * Z :=
  (records_total is_dated PLAYER_STAT_KEYS players_block summaries name key,
   records_total is_dated TEAM_STAT_KEYS teams_block summaries name key,
   records_total (in_week wk0) PLAYER_STAT_KEYS players_block summaries name key,
   records_total (in_week wk0) TEAM_STAT_KEYS teams_block summaries name key).

(** No name occurs twice in the season accumulators. *)
Definition names_nodup (b : Buckets) : Prop :=
  NoDup (keys (season_players b)) /\ NoDup (keys (season_teams b)).

(* ------------------------------------------------------------------ *)
(** ** Dates and week labels, written out digit by digit *)

(** The character of a decimal digit. *)
Definition digit_char (n : Z) : ascii :=
  match n with
  | 0 => "0" | 1 => "1" | 2 => "2" | 3 => "3" | 4 => "4"
  | 5 => "5" | 6 => "6" | 7 => "7" | 8 => "8" | 9 => "9"
  | _ => "?"
  end%char.

(** A number from 0 to 99 on two digits. *)
Definition two_digits (n : Z) : string :=
  String (digit_char (n / 10)) (String (digit_char (n mod 10)) "").

(** A number from 0 to 9999 on four digits. *)
Definition four_digits (n : Z) : string :=
  String (digit_char (n / 1000))
    (String (digit_char (n / 100 mod 10))
       (String (digit_char (n / 10 mod 10))
          (String (digit_char (n mod 10)) ""))).

(** The decimal numeral of a number from 0 to 9999, without padding. *)
Definition decimal_text (n : Z) : string :=
  if n <? 10 then String (digit_char n) ""
  else if n <? 100 then two_digits n
  else if n <? 1000 then String (digit_char (n / 100)) (two_digits (n mod 100))
  else four_digits n.

(** 'YYYY-MM-DD' *)
Definition date_text (y m d : Z) : string :=
  (four_digits y ++ "-" ++ two_digits m ++ "-" ++ two_digits d)%string.

(** 'YYYY-Www' *)
Definition week_label (iso_year iso_week : Z) : string :=
  (four_digits iso_year ++ "-W" ++ two_digits iso_week)%string.

(** The Gregorian calendar: a year divisible by 4 is a leap year, except a
    year divisible by 100 and not by 400. *)
Definition leap_year (y : Z) : bool :=
  ((y mod 4 =? 0) && negb (y mod 100 =? 0)) || (y mod 400 =? 0).

Definition month_length (y m : Z) : Z :=
  match m with
  | 1 => 31 | 2 => if leap_year y then 29 else 28 | 3 => 31 | 4 => 30
  | 5 => 31 | 6 => 30 | 7 => 31 | 8 => 31 | 9 => 30 | 10 => 31
  | 11 => 30 | 12 => 31
  | _ => 0
  end.

(** A date of the years 1 to 9999. *)
Definition calendar_date (y m d : Z) : Prop :=
  1 <= y <= 9999 /\ 1 <= m <= 12 /\ 1 <= d <= month_length y m.

(** The day after a calendar date. *)
Definition next_day (y m d : Z) : Z * Z * Z :=
  if d <? month_length y m then (y, m, d + 1)
  else if m <? 12 then (y, m + 1, 1)
  else (y + 1, 1, 1).

(** The decimal digits. *)
Definition digits : list Z := [0; 1; 2; 3; 4; 5; 6; 7; 8; 9].

(* ------------------------------------------------------------------ *)
(** ** Sample inputs *)

(** A series root with one summary in each of two weeks. *)
Definition sample_listing : list (string * DirEntry) :=
  [ ("A", Directory (Some (Json
       (Summary.mk (Some "2025-06-02")
          (Some [("Ana", [("points", 10); ("sinks", 2)])])
          (Some [("Aces", [("total_points", 10)])]) []))));
    ("B", Directory (Some (Json
       (Summary.mk (Some "2025-06-09")
          (Some [("Ana", [("points", 4); ("sinks", 1)])])
          (Some [("Aces", [("total_points", 4)])]) [])))) ].

(** A series as the application sets it up, after some scoring. *)
Definition sample_series : Series.t :=
  Series.new "2025-06-02_Aces_vs_Bulls" "2025-06-02"
    (Team.mk "Aces"
       [ Player.mk "Ana" (setitem "points" 3 _default_player_stats);
         Player.mk "Ben" (setitem "catches" 1 _default_player_stats) ]
       (setitem "total_points" 3 _default_team_stats))
    (Team.mk "Bulls"
       [ Player.mk "Cy" (setitem "points" 2 _default_player_stats);
         Player.mk "Dee" _default_player_stats ]
       (setitem "total_points" 2 _default_team_stats)).

(** The series root after the application saved the summary of
    [sample_series]. *)
Definition sample_series_listing : list (string * DirEntry) :=
  [ ("2025-06-02_Aces_vs_Bulls",
     Directory (Some (Json (Series.save_summary sample_series)))) ].

(** A registry with two teams. *)
Definition sample_store : Store :=
  mkStore true
    (Some [ ("Ana", setitem "points" 5 _default_player_stats);
            ("Ben", _default_player_stats);
            ("Cy", _default_player_stats) ])
    (Some [ ("Aces", TeamEntry.mk (setitem "total_points" 5 _default_team_stats)
                       ["Ana"; "Ben"]);
            ("Bulls", TeamEntry.mk (setitem "total_points" 7 _default_team_stats)
                        ["Cy"; "Dee"]) ]).

(* ================================================================== *)
(** * Properties *)

(** ** Facts about dictionaries *)

Section DictFacts.
Variable V : Type.
Implicit Types (d : dict V) (k : string) (v : V).

Lemma get_none_keys d k : get d k = None <-> ~ In k (keys d).
Proof.
  induction d as [|[k' v'] r IH]; simpl.
  - tauto.
  - destruct (String.eqb_spec k k') as [->|Hne].
    + split; [discriminate | intros H; exfalso; apply H; now left].
    + rewrite IH. split; intros H.
      * intros [E|I]; [now apply Hne | now apply H].
      * intros I. apply H. now right.
Qed.

Lemma get_some_keys d k v : get d k = Some v -> In k (keys d).
Proof.
  intros H. destruct (in_dec string_dec k (keys d)) as [I|N]; [exact I|].
  apply get_none_keys in N. congruence.
Qed.

Lemma contains_keys d k : contains k d = true <-> In k (keys d).
Proof.
  unfold contains. destruct (get d k) eqn:E.
  - split; [intros _; eapply get_some_keys; eauto | reflexivity].
  - split; [discriminate|]. intros I. apply get_none_keys in E. contradiction.
Qed.

Lemma contains_false_keys d k : contains k d = false <-> ~ In k (keys d).
Proof.
  rewrite <- contains_keys. destruct (contains k d); split; congruence.
Qed.

Lemma get_setitem_eq d k v : get (setitem k v d) k = Some v.
Proof.
  induction d as [|[k' v'] r IH]; simpl.
  - now rewrite String.eqb_refl.
  - destruct (String.eqb_spec k k') as [->|Hne]; simpl.
    + now rewrite String.eqb_refl.
    + destruct (String.eqb_spec k k'); [contradiction | exact IH].
Qed.

Lemma get_setitem_neq d k k' v :
  k <> k' -> get (setitem k v d) k' = get d k'.
Proof.
  intros Hne. induction d as [|[k0 v0] r IH]; simpl.
  - destruct (String.eqb_spec k' k); [congruence | reflexivity].
  - destruct (String.eqb_spec k k0) as [->|Hk]; simpl.
    + destruct (String.eqb_spec k' k0); [congruence | reflexivity].
    + destruct (String.eqb_spec k' k0); [reflexivity | exact IH].
Qed.

Lemma keys_setitem_in d k v : In k (keys d) -> keys (setitem k v d) = keys d.
Proof.
  induction d as [|[k' v'] r IH]; simpl; [tauto|].
  intros [E|I]; destruct (String.eqb_spec k k') as [->|Hne]; simpl;
    try reflexivity; try congruence.
  f_equal. now apply IH.
Qed.

Lemma keys_setitem_notin d k v :
  ~ In k (keys d) -> keys (setitem k v d) = keys d ++ [k].
Proof.
  induction d as [|[k' v'] r IH]; simpl; [reflexivity|].
  intros N. destruct (String.eqb_spec k k') as [->|Hne]; simpl.
  - exfalso. apply N. now left.
  - f_equal. apply IH. intros I. apply N. now right.
Qed.

Lemma in_keys_setitem d k k' v :
  In k' (keys (setitem k v d)) <-> k' = k \/ In k' (keys d).
Proof.
  destruct (in_dec string_dec k (keys d)) as [I|N].
  - rewrite keys_setitem_in by assumption. split; [tauto|].
    intros [->|H]; assumption.
  - rewrite keys_setitem_notin by assumption. rewrite in_app_iff. simpl.
    split; intros H; intuition congruence.
Qed.

Lemma setitem_setitem d k v v' : setitem k v (setitem k v' d) = setitem k v d.
Proof.
  induction d as [|[k' w] r IH]; simpl.
  - now rewrite String.eqb_refl.
  - destruct (String.eqb_spec k k') as [->|Hne]; simpl.
    + now rewrite String.eqb_refl.
    + destruct (String.eqb_spec k k'); [contradiction | now rewrite IH].
Qed.

Lemma keys_mutate d k (f : V -> V) : keys (mutate k f d) = keys d.
Proof.
  induction d as [|[k' w] r IH]; simpl; [reflexivity|].
  destruct (String.eqb k k'); simpl; [reflexivity | now rewrite IH].
Qed.

Lemma get_mutate_eq d k (f : V -> V) :
  get (mutate k f d) k = option_map f (get d k).
Proof.
  induction d as [|[k' w] r IH]; simpl; [reflexivity|].
  destruct (String.eqb k k') eqn:E; simpl; rewrite E; [reflexivity | exact IH].
Qed.

Lemma get_mutate_neq d k k' (f : V -> V) :
  k <> k' -> get (mutate k f d) k' = get d k'.
Proof.
  intros Hne. induction d as [|[k0 w] r IH]; simpl; [reflexivity|].
  destruct (String.eqb_spec k k0) as [->|Hk]; simpl.
  - destruct (String.eqb_spec k' k0); [congruence | reflexivity].
  - destruct (String.eqb_spec k' k0); [reflexivity | exact IH].
Qed.

(** Assigning under a key that is present is an in-place replacement. *)
Lemma setitem_as_mutate d k v :
  In k (keys d) -> setitem k v d = mutate k (fun _ => v) d.
Proof.
  induction d as [|[k' w] r IH]; simpl; [tauto|].
  intros [E|I]; destruct (String.eqb_spec k k') as [->|Hne];
    try reflexivity; try congruence.
  f_equal. now apply IH.
Qed.

(** A [defaultdict] access followed by a mutation is "insert the default
    when missing, then mutate". *)
Lemma dd_mutate_as_mutate factory d k (f : V -> V) :
  dd_mutate factory k f d =
  mutate k f (if contains k d then d else setitem k factory d).
Proof.
  induction d as [|[k' w] r IH]; simpl.
  - now rewrite String.eqb_refl.
  - unfold contains in *. simpl.
    destruct (String.eqb_spec k k') as [->|Hne]; simpl.
    + now rewrite String.eqb_refl.
    + rewrite IH. destruct (get r k); simpl;
        destruct (String.eqb_spec k k'); try contradiction; reflexivity.
Qed.

Lemma keys_dd_mutate factory d k (f : V -> V) :
  keys (dd_mutate factory k f d) =
  if contains k d then keys d else keys d ++ [k].
Proof.
  rewrite dd_mutate_as_mutate, keys_mutate.
  destruct (contains k d) eqn:E; [reflexivity|].
  apply keys_setitem_notin. now apply contains_false_keys.
Qed.

Lemma get_dd_mutate_eq factory d k (f : V -> V) :
  get (dd_mutate factory k f d) k = Some (f (get_or d k factory)).
Proof.
  rewrite dd_mutate_as_mutate, get_mutate_eq. unfold contains, get_or.
  destruct (get d k) eqn:E; [now rewrite E|].
  now rewrite get_setitem_eq.
Qed.

Lemma get_dd_mutate_neq factory d k k' (f : V -> V) :
  k <> k' -> get (dd_mutate factory k f d) k' = get d k'.
Proof.
  intros Hne. rewrite dd_mutate_as_mutate, get_mutate_neq by assumption.
  destruct (contains k d); [reflexivity | now apply get_setitem_neq].
Qed.

Lemma get_in d k v : get d k = Some v -> In (k, v) d.
Proof.
  induction d as [|[k' w] r IH]; simpl; [discriminate|].
  destruct (String.eqb_spec k k') as [->|Hne].
  - intros [= ->]. now left.
  - intros H. right. now apply IH.
Qed.

Lemma in_get_nodup d k v : NoDup (keys d) -> In (k, v) d -> get d k = Some v.
Proof.
  induction d as [|[k' w] r IH]; simpl; [tauto|].
  intros ND [E|I]; inversion ND as [|? ? Hn ND']; subst.
  - injection E as -> ->. now rewrite String.eqb_refl.
  - destruct (String.eqb_spec k k') as [->|Hne].
    + exfalso. apply Hn. change (In (fst (k', v)) (map fst r)).
      now apply in_map.
    + now apply IH.
Qed.

End DictFacts.

(* ------------------------------------------------------------------ *)
(** ** Accumulating one stat map into another *)

Lemma schema_keys_nodup : NoDup PLAYER_STAT_KEYS /\ NoDup TEAM_STAT_KEYS.
Proof.
  split; repeat (constructor; [simpl; intuition discriminate|]); constructor.
Qed.

Lemma add_stats_get (ks : list string) :
  NoDup ks ->
  forall (dst src : StatMap) (k : string),
    get (_add_stats dst src ks) k =
    if in_dec string_dec k ks
    then Some (get_or dst k 0 + get_or src k 0)
    else get dst k.
Proof.
  unfold _add_stats, int.
  induction 1 as [|k0 ks Hn ND IH]; intros dst src k; simpl; [reflexivity|].
  rewrite IH.
  destruct (string_dec k0 k) as [->|Hne].
  - destruct (in_dec string_dec k ks); [contradiction|].
    now rewrite get_setitem_eq.
  - unfold get_or at 1. rewrite get_setitem_neq by assumption.
    fold (get_or dst k 0). destruct (in_dec string_dec k ks); reflexivity.
Qed.

Lemma add_stats_keys (ks : list string) (dst src : StatMap) :
  incl ks (keys dst) -> keys (_add_stats dst src ks) = keys dst.
Proof.
  unfold _add_stats. revert dst.
  induction ks as [|k0 ks IH]; intros dst Hin; simpl; [reflexivity|].
  assert (I0 : In k0 (keys dst)) by (apply Hin; now left).
  rewrite IH.
  - now apply keys_setitem_in.
  - rewrite keys_setitem_in by assumption.
    intros k Hk. apply Hin. now right.
Qed.

Lemma add_stats_src_ext (ks : list string) (dst src src' : StatMap) :
  (forall k, In k ks -> get src' k = get src k) ->
  _add_stats dst src' ks = _add_stats dst src ks.
Proof.
  unfold _add_stats. revert dst.
  induction ks as [|k0 ks IH]; intros dst Hext; simpl; [reflexivity|].
  assert (E : get_or src' k0 0 = get_or src k0 0)
    by (unfold get_or; rewrite (Hext k0) by (now left); reflexivity).
  rewrite E. apply IH. intros k Hk. apply Hext. now right.
Qed.

(** C5.  [_add_stats(dst, src, keys)] with [keys] one of the two schemas:
    a schema key the source lacks contributes 0 and is present in the result;
    every schema key ends up holding the destination's value (0 when the
    destination lacked it) plus the source's value (0 when absent); a key
    outside the schema is exactly as it was in the destination, whatever the
    source holds under it; and the result depends on the source through its
    schema keys only. *)
Theorem add_stats_schema_only
  (ks : list string) (Hks : ks = PLAYER_STAT_KEYS \/ ks = TEAM_STAT_KEYS)
  (dst src : StatMap) :
  (forall k, In k ks -> get src k = None ->
     get (_add_stats dst src ks) k = Some (get_or dst k 0))
  /\ (forall k, In k ks ->
        get (_add_stats dst src ks) k = Some (get_or dst k 0 + get_or src k 0))
  /\ (forall k, ~ In k ks -> get (_add_stats dst src ks) k = get dst k)
  /\ (forall src' : StatMap,
        (forall k, In k ks -> get src' k = get src k) ->
        _add_stats dst src' ks = _add_stats dst src ks).
Proof.
  assert (ND : NoDup ks)
    by (destruct Hks as [->| ->]; apply schema_keys_nodup).
  repeat split.
  - intros k I Hnone. rewrite add_stats_get by assumption.
    destruct (in_dec string_dec k ks); [|contradiction].
    unfold get_or at 2. rewrite Hnone. f_equal. lia.
  - intros k I. rewrite add_stats_get by assumption.
    destruct (in_dec string_dec k ks); [reflexivity | contradiction].
  - intros k N. rewrite add_stats_get by assumption.
    destruct (in_dec string_dec k ks); [contradiction | reflexivity].
  - intros src' Hext. now apply add_stats_src_ext.
Qed.

(** The spec's example: a player's map without "rim_hits" still yields
    [rim_hits: 0], and a stray key does not reach the total. *)
Lemma add_stats_schema_only_witness :
  let src := [("points", 3); ("bogus", 7)] in
  let out := _add_stats (zeroed PLAYER_STAT_KEYS) src PLAYER_STAT_KEYS in
  get out "rim_hits" = Some 0 /\ get out "points" = Some 3
  /\ get out "bogus" = None.
Proof.
  intros src out.
  destruct (@add_stats_schema_only PLAYER_STAT_KEYS (or_introl eq_refl)
              (zeroed PLAYER_STAT_KEYS) src) as (Habsent & Hsum & Hother & _).
  split; [|split].
  - apply (Habsent "rim_hits"); [simpl; tauto | reflexivity].
  - apply (Hsum "points"). simpl; tauto.
  - apply (Hother "bogus"). simpl. intuition discriminate.
Defined.

(* ------------------------------------------------------------------ *)
(** ** Runs of upserts whose updates absorb each other *)

Section Upserts.
Variables V T : Type.
Variable factory : V.
Variable upd : T -> V -> V.
Hypothesis upd_absorbs : forall t t' x, upd t (upd t' x) = upd t x.

Implicit Types (d : dict V) (k : string) (items : list (string * T)).

Lemma dd_mutate_twice d k t t' :
  dd_mutate factory k (upd t) (dd_mutate factory k (upd t') d)
  = dd_mutate factory k (upd t) d.
Proof.
  induction d as [|[k' w] r IH]; simpl.
  - rewrite String.eqb_refl. now rewrite upd_absorbs.
  - destruct (String.eqb k k') eqn:E; simpl; rewrite E.
    + now rewrite upd_absorbs.
    + now rewrite IH.
Qed.

Lemma dd_mutate_swap d k k' (f g : V -> V) :
  k <> k' -> In k (keys d) ->
  dd_mutate factory k f (dd_mutate factory k' g d)
  = dd_mutate factory k' g (dd_mutate factory k f d).
Proof.
  intros Hne. induction d as [|[k0 w] r IH]; simpl; [tauto|].
  intros Hin.
  destruct (String.eqb_spec k k0) as [->|Hk];
    destruct (String.eqb_spec k' k0) as [->|Hk']; simpl.
  - congruence.
  - rewrite String.eqb_refl.
    destruct (String.eqb_spec k' k0); [contradiction | reflexivity].
  - rewrite String.eqb_refl.
    destruct (String.eqb_spec k k0); [contradiction | reflexivity].
  - destruct (String.eqb_spec k k0); [contradiction|].
    destruct (String.eqb_spec k' k0); [contradiction|].
    f_equal. apply IH. destruct Hin as [E|I]; [congruence | exact I].
Qed.

Lemma in_keys_dd_mutate d k k' (f : V -> V) :
  In k' (keys (dd_mutate factory k f d)) <-> k' = k \/ In k' (keys d).
Proof.
  rewrite keys_dd_mutate. destruct (contains k d) eqn:E.
  - apply contains_keys in E. split; [tauto|]. intros [->|H]; assumption.
  - rewrite in_app_iff. simpl. split; intros H; intuition congruence.
Qed.

Lemma in_keys_upsert_all items d k :
  In k (keys (upsert_all factory upd items d))
  <-> In k (keys items) \/ In k (keys d).
Proof.
  unfold upsert_all. revert d.
  induction items as [|[k0 t0] items IH]; intros d; simpl; [tauto|].
  rewrite IH, in_keys_dd_mutate. intuition congruence.
Qed.

(** An update of a present key, followed by the run: either the run
    overrides it, or it can be moved past the run. *)
Lemma upsert_all_after_update items d k t :
  In k (keys d) ->
  upsert_all factory upd items (dd_mutate factory k (upd t) d)
  = if in_dec string_dec k (keys items)
    then upsert_all factory upd items d
    else dd_mutate factory k (upd t) (upsert_all factory upd items d).
Proof.
  unfold upsert_all. revert d.
  induction items as [|[k0 t0] items IH]; intros d Hin; simpl.
  - reflexivity.
  - destruct (string_dec k0 k) as [->|Hne].
    + now rewrite dd_mutate_twice.
    + rewrite <- dd_mutate_swap by (auto; congruence).
      rewrite IH by (apply in_keys_dd_mutate; now right).
      destruct (in_dec string_dec k (keys items)); reflexivity.
Qed.

(** Running the same upserts a second time changes nothing. *)
Lemma upsert_all_idempotent items d :
  upsert_all factory upd items (upsert_all factory upd items d)
  = upsert_all factory upd items d.
Proof.
  revert d. induction items as [|[k t] items IH]; intros d; [reflexivity|].
  change (upsert_all factory upd ((k, t) :: items) d)
    with (upsert_all factory upd items (dd_mutate factory k (upd t) d)).
  set (d1 := dd_mutate factory k (upd t) d).
  assert (H1 : In k (keys d1)) by (apply in_keys_dd_mutate; now left).
  change (upsert_all factory upd ((k, t) :: items)
            (upsert_all factory upd items d1))
    with (upsert_all factory upd items
            (dd_mutate factory k (upd t) (upsert_all factory upd items d1))).
  rewrite upsert_all_after_update
    by (apply in_keys_upsert_all; now right).
  destruct (in_dec string_dec k (keys items)) as [I|N].
  - apply IH.
  - rewrite IH.
    pose proof (@upsert_all_after_update items d1 k t H1) as E.
    destruct (in_dec string_dec k (keys items)); [contradiction|].
    rewrite <- E. unfold d1. now rewrite dd_mutate_twice.
Qed.

End Upserts.

(* ------------------------------------------------------------------ *)
(** ** The authoritative reconciliation as a run of upserts *)

Lemma reconcile_player_overwrite reg n pname totals :
  reconcile_player true (reg, n) (pname, totals)
  = (dd_mutate _default_player_stats pname (overwrite_player totals) reg,
     n + 1).
Proof.
  unfold reconcile_player. f_equal.
  rewrite dd_mutate_as_mutate. fold (exact_stats _default_player_stats totals).
  destruct (contains pname reg) eqn:E; simpl.
  - apply setitem_as_mutate. now apply contains_keys.
  - apply setitem_as_mutate. apply in_keys_setitem. now left.
Qed.

Lemma reconcile_team_overwrite reg n tname totals :
  reconcile_team true (reg, n) (tname, totals)
  = (dd_mutate new_team_entry tname (overwrite_team totals) reg, n + 1).
Proof.
  unfold reconcile_team. f_equal.
  rewrite dd_mutate_as_mutate. fold (exact_stats _default_team_stats totals).
  unfold contains. destruct (get reg tname) eqn:E; simpl; reflexivity.
Qed.

Lemma fold_reconcile_player_overwrite totals reg n :
  fold_left (reconcile_player true) totals (reg, n)
  = (upsert_all _default_player_stats overwrite_player totals reg,
     n + Z.of_nat (List.length totals)).
Proof.
  revert reg n. induction totals as [|[k t] totals IH]; intros reg n.
  - simpl. f_equal. lia.
  - cbn [fold_left]. rewrite reconcile_player_overwrite, IH.
    f_equal. cbn [List.length]. lia.
Qed.

Lemma fold_reconcile_team_overwrite totals reg n :
  fold_left (reconcile_team true) totals (reg, n)
  = (upsert_all new_team_entry overwrite_team totals reg,
     n + Z.of_nat (List.length totals)).
Proof.
  revert reg n. induction totals as [|[k t] totals IH]; intros reg n.
  - simpl. f_equal. lia.
  - cbn [fold_left]. rewrite reconcile_team_overwrite, IH.
    f_equal. cbn [List.length]. lia.
Qed.

Lemma update_registry_overwrite players_totals teams_totals st :
  update_registry_from_totals players_totals teams_totals true st
  = (mkStore true
       (Some (upsert_all _default_player_stats overwrite_player players_totals
                (_load_json (players_file st))))
       (Some (upsert_all new_team_entry overwrite_team teams_totals
                (_load_json (teams_file st)))),
     (Z.of_nat (List.length players_totals),
      Z.of_nat (List.length teams_totals))).
Proof.
  unfold update_registry_from_totals, load_registry, _ensure_registry_dirs.
  cbn [players_file teams_file].
  rewrite fold_reconcile_player_overwrite, fold_reconcile_team_overwrite.
  reflexivity.
Qed.

(** C1.  Reconciliation with [overwrite=True] is a fixed point: a second
    call with the same totals leaves the persisted registry (directory,
    players file, teams file) exactly as the first call left it, and reports
    the same counts. *)
Theorem reconcile_overwrite_fixed_point
  (players_totals teams_totals : dict StatMap) (st : Store) :
  let first := update_registry_from_totals players_totals teams_totals true st in
  update_registry_from_totals players_totals teams_totals true (fst first)
  = first.
Proof.
  cbv zeta. rewrite !update_registry_overwrite.
  cbn [fst players_file teams_file _load_json].
  rewrite (upsert_all_idempotent _default_player_stats overwrite_player)
    by reflexivity.
  rewrite (upsert_all_idempotent new_team_entry overwrite_team)
    by reflexivity.
  reflexivity.
Qed.

(* ------------------------------------------------------------------ *)
(** ** Rosters are a frame of the reconciliation *)

Lemma rosters_keys reg : keys (rosters reg) = keys reg.
Proof.
  unfold rosters, keys. rewrite map_map. reflexivity.
Qed.

Lemma get_rosters reg k :
  get (rosters reg) k = option_map TeamEntry.players (get reg k).
Proof.
  induction reg as [|[k' e] r IH]; simpl; [reflexivity|].
  destruct (String.eqb k k'); [reflexivity | exact IH].
Qed.

Lemma rosters_mutate reg k (f : TeamEntry.t -> TeamEntry.t) :
  (forall e, TeamEntry.players (f e) = TeamEntry.players e) ->
  rosters (mutate k f reg) = rosters reg.
Proof.
  intros Hf. induction reg as [|[k' e] r IH]; simpl; [reflexivity|].
  destruct (String.eqb k k'); simpl.
  - now rewrite Hf.
  - now rewrite IH.
Qed.

Lemma rosters_setitem_new reg k e :
  ~ In k (keys reg) ->
  rosters (setitem k e reg) = rosters reg ++ [(k, TeamEntry.players e)].
Proof.
  induction reg as [|[k' e'] r IH]; simpl; [reflexivity|].
  intros N. destruct (String.eqb_spec k k') as [->|Hne]; simpl.
  - exfalso. apply N. now left.
  - f_equal. apply IH. intros I. apply N. now right.
Qed.

Lemma rosters_fold_mutate (A : Type) (g : A -> TeamEntry.t -> TeamEntry.t)
  (l : list A) k reg :
  (forall a e, TeamEntry.players (g a e) = TeamEntry.players e) ->
  rosters (fold_left (fun reg a => mutate k (g a) reg) l reg) = rosters reg.
Proof.
  intros Hg. revert reg. induction l as [|a l IH]; intros reg; simpl.
  - reflexivity.
  - rewrite IH. apply rosters_mutate. apply Hg.
Qed.

Lemma rosters_reconcile_team overwrite reg n tname totals :
  rosters (fst (reconcile_team overwrite (reg, n) (tname, totals)))
  = if contains tname reg then rosters reg else rosters reg ++ [(tname, [])].
Proof.
  unfold reconcile_team. cbn [fst].
  assert (Hstep : forall reg',
    rosters
      (if overwrite
       then mutate tname
              (TeamEntry.set_lifetime_stats
                 (fold_left
                    (fun new_stats kv => setitem (fst kv) (int (snd kv)) new_stats)
                    totals _default_team_stats)) reg'
       else fold_left
              (fun teams_reg kv =>
                 mutate tname
                   (fun e =>
                      TeamEntry.set_lifetime_stats
                        (setitem (fst kv)
                           (get_or (TeamEntry.lifetime_stats e) (fst kv) 0
                            + int (snd kv))
                           (TeamEntry.lifetime_stats e)) e) teams_reg)
              totals reg')
    = rosters reg').
  { intros reg'. destruct overwrite.
    - apply rosters_mutate. reflexivity.
    - apply (rosters_fold_mutate
               (fun kv e =>
                  TeamEntry.set_lifetime_stats
                    (setitem (fst kv)
                       (get_or (TeamEntry.lifetime_stats e) (fst kv) 0
                        + int (snd kv))
                       (TeamEntry.lifetime_stats e)) e)).
      reflexivity. }
  rewrite Hstep.
  unfold contains. destruct (get reg tname) eqn:E; simpl; [reflexivity|].
  apply (@rosters_setitem_new reg tname (TeamEntry.mk _default_team_stats [])).
  now apply get_none_keys.
Qed.

Lemma keys_reconcile_team overwrite reg n tname totals :
  keys (fst (reconcile_team overwrite (reg, n) (tname, totals)))
  = if contains tname reg then keys reg else keys reg ++ [tname].
Proof.
  rewrite <- !rosters_keys, rosters_reconcile_team.
  destruct (contains tname reg); [reflexivity|].
  unfold keys. now rewrite map_app.
Qed.

Lemma rosters_fold_reconcile_team overwrite totals reg n :
  exists created,
    rosters (fst (fold_left (reconcile_team overwrite) totals (reg, n)))
    = rosters reg ++ map (fun name => (name, [])) created
    /\ forall name, In name created ->
         In name (keys totals) /\ ~ In name (keys reg).
Proof.
  revert reg n. induction totals as [|[k t] totals IH]; intros reg n.
  - exists []. simpl. rewrite app_nil_r. split; [reflexivity | tauto].
  - cbn [fold_left].
    destruct (reconcile_team overwrite (reg, n) (k, t)) as [reg1 n1] eqn:E.
    pose proof (rosters_reconcile_team overwrite reg n k t) as R.
    pose proof (keys_reconcile_team overwrite reg n k t) as K.
    rewrite E in R, K. cbn [fst] in R, K.
    destruct (IH reg1 n1) as (created & Hros & Hin).
    destruct (contains k reg) eqn:C.
    + exists created. rewrite Hros, R. split; [reflexivity|].
      intros name I. destruct (Hin name I) as [I1 I2]. rewrite K in I2.
      split; [now right | exact I2].
    + exists (k :: created). rewrite Hros, R, <- app_assoc. split; [reflexivity|].
      intros name [<-|I].
      * split; [now left | now apply contains_false_keys].
      * destruct (Hin name I) as [I1 I2]. rewrite K in I2.
        split; [now right|]. intros I3. apply I2. apply in_or_app. now left.
Qed.

Lemma get_app_left (V : Type) (d d' : dict V) k v :
  get d k = Some v -> get (d ++ d') k = Some v.
Proof.
  induction d as [|[k' w] r IH]; simpl; [discriminate|].
  destruct (String.eqb k k'); [tauto | exact IH].
Qed.

Lemma get_app_right (V : Type) (d d' : dict V) k :
  get d k = None -> get (d ++ d') k = get d' k.
Proof.
  induction d as [|[k' w] r IH]; simpl; [reflexivity|].
  destruct (String.eqb k k'); [discriminate | exact IH].
Qed.

Lemma get_constant_dict (V : Type) (names : list string) (c : V) k v :
  get (map (fun name => (name, c)) names) k = Some v -> v = c /\ In k names.
Proof.
  induction names as [|n names IH]; simpl; [discriminate|].
  destruct (String.eqb_spec k n) as [->|Hne].
  - intros [= <-]. split; [reflexivity | now left].
  - intros H. destruct (IH H). split; [assumption | now right].
Qed.

(** C7.  [update_registry_from_totals] never changes roster membership,
    whatever [overwrite] is: the roster side of the teams registry after the
    call is the roster side before it, followed by an empty roster for each
    team the call created; a team already registered keeps its player list,
    and a team that was not registered and is afterwards is one named in the
    totals and has the empty roster. *)
Theorem reconcile_keeps_rosters
  (players_totals teams_totals : dict StatMap) (overwrite : bool) (st : Store) :
  let before := snd (load_registry st) in
  let after :=
    snd (load_registry
           (fst (update_registry_from_totals players_totals teams_totals
                   overwrite st))) in
  (exists created,
      rosters after = rosters before ++ map (fun name => (name, [])) created
      /\ forall name, In name created ->
           In name (keys teams_totals) /\ ~ In name (keys before))
  /\ (forall tname e, get before tname = Some e ->
        exists e', get after tname = Some e'
                   /\ TeamEntry.players e' = TeamEntry.players e)
  /\ (forall tname e', get before tname = None -> get after tname = Some e' ->
        TeamEntry.players e' = [] /\ In tname (keys teams_totals)).
Proof.
  intros before after.
  assert (Hex : exists created,
      rosters after = rosters before ++ map (fun name => (name, [])) created
      /\ forall name, In name created ->
           In name (keys teams_totals) /\ ~ In name (keys before)).
  { subst before after.
    unfold update_registry_from_totals, load_registry, _ensure_registry_dirs.
    cbn [players_file teams_file snd].
    destruct (fold_left (reconcile_player overwrite) players_totals
                (_load_json (players_file st), 0)) as [preg pn].
    destruct (rosters_fold_reconcile_team overwrite teams_totals
                (_load_json (teams_file st)) 0) as (created & Hros & Hin).
    destruct (fold_left (reconcile_team overwrite) teams_totals
                (_load_json (teams_file st), 0)) as [treg tn].
    cbn [fst save_registry teams_file players_file _load_json snd] in *.
    exists created. split; assumption. }
  split; [exact Hex|].
  destruct Hex as (created & Hros & Hin).
  split.
  - intros tname e Hget.
    assert (G : get (rosters after) tname = Some (TeamEntry.players e)).
    { rewrite Hros. apply get_app_left. rewrite get_rosters, Hget. reflexivity. }
    rewrite get_rosters in G. destruct (get after tname) as [e'|]; [|discriminate].
    exists e'. split; [reflexivity|]. simpl in G. congruence.
  - intros tname e' Hnone Hget.
    assert (G : get (rosters after) tname = Some (TeamEntry.players e'))
      by (rewrite get_rosters, Hget; reflexivity).
    rewrite Hros, get_app_right in G
      by (rewrite get_rosters, Hnone; reflexivity).
    apply get_constant_dict in G. destruct G as [-> I].
    split; [reflexivity|]. now apply Hin.
Qed.

(** A registered team with a roster and stale stats, reconciled in either
    mode together with a team the registry has not seen. *)
Lemma reconcile_keeps_rosters_witness :
  let st := mkStore true (Some [])
              (Some [("Aces", TeamEntry.mk [("total_points", 9)] ["Ana"; "Bo"])]) in
  let totals := [("Aces", [("total_points", 4)]); ("Kings", [])] in
  let kept overwrite :=
    exists e',
      get (snd (load_registry
                  (fst (update_registry_from_totals [] totals overwrite st))))
        "Aces" = Some e'
      /\ TeamEntry.players e' = ["Ana"; "Bo"] in
  kept true /\ kept false.
Proof.
  intros st totals kept.
  split.
  - destruct (@reconcile_keeps_rosters [] totals true st) as (_ & Hkept & _).
    apply (Hkept "Aces" (TeamEntry.mk [("total_points", 9)] ["Ana"; "Bo"])).
    reflexivity.
  - destruct (@reconcile_keeps_rosters [] totals false st) as (_ & Hkept & _).
    apply (Hkept "Aces" (TeamEntry.mk [("total_points", 9)] ["Ana"; "Bo"])).
    reflexivity.
Defined.

Example reconcile_rosters_run :
  forall overwrite,
    rosters
      (snd (load_registry
              (fst (update_registry_from_totals []
                      [("Aces", [("total_points", 4)]); ("Kings", [])] overwrite
                      (mkStore true (Some [])
                         (Some [("Aces",
                                 TeamEntry.mk [("total_points", 9)]
                                   ["Ana"; "Bo"])]))))))
    = [("Aces", ["Ana"; "Bo"]); ("Kings", [])].
Proof. intros []; reflexivity. Qed.

(* ------------------------------------------------------------------ *)
(** ** Cold start *)

(** C9.  A registry read that finds no file yields the empty registry:
    with both files absent [load_registry] returns two empty mappings, and
    the registry operations behave as on a registry whose files hold empty
    mappings: no team names, nothing to delete or look up, and the updating
    operations produce the same registry and the same results. *)
Theorem load_registry_cold_start (st : Store)
  (Hplayers : players_file st = None) (Hteams : teams_file st = None) :
  load_registry st = ([], [])
  /\ list_team_names st = []
  /\ (forall name, get_team_by_name name st = None)
  /\ (forall name, delete_team name st = (st, false))
  /\ (forall name p1 p2,
        upsert_team name [p1; p2] st
        = (fst (upsert_team name [p1; p2] (empty_registry (dir_exists st))),
           Ok tt))
  /\ (forall team1 team2,
        update_registry_with_series team1 team2 st
        = update_registry_with_series team1 team2
            (empty_registry (dir_exists st)))
  /\ (forall players_totals teams_totals overwrite,
        update_registry_from_totals players_totals teams_totals overwrite st
        = update_registry_from_totals players_totals teams_totals overwrite
            (empty_registry (dir_exists st))).
Proof.
  destruct st as [dir pf tf]. simpl in Hplayers, Hteams. subst pf tf.
  repeat split.
Qed.

Lemma load_registry_cold_start_witness :
  load_registry (mkStore false None None) = ([], [])
  /\ fst (update_registry_from_totals [("Ana", [("points", 14); ("sinks", 3)])]
            [] true (mkStore false None None))
     = mkStore true
         (Some [("Ana",
                 [ ("points", 14); ("throws", 0); ("table_hits", 0);
                   ("catches", 0); ("missed_catches", 0); ("sinks", 3);
                   ("rim_hits", 0); ("rounds_won", 0); ("series_won", 0) ])])
         (Some []).
Proof.
  destruct (@load_registry_cold_start (mkStore false None None)
              eq_refl eq_refl) as (Hload & _ & _ & _ & _ & _ & Hupd).
  split; [exact Hload|].
  rewrite Hupd. reflexivity.
Defined.

(* ------------------------------------------------------------------ *)
(** ** Team registration *)

Lemma ensure_players_get (names : list string) (reg : dict StatMap) p :
  get (fold_left
         (fun players_reg pname =>
            if negb (contains pname players_reg)
            then setitem pname _default_player_stats players_reg
            else players_reg)
         names reg) p
  = match get reg p with
    | Some stats => Some stats
    | None => if in_dec string_dec p names
              then Some _default_player_stats else None
    end.
Proof.
  revert reg. induction names as [|n names IH]; intros reg; simpl.
  - destruct (get reg p); reflexivity.
  - rewrite IH. unfold contains.
    destruct (string_dec n p) as [->|Hne].
    + destruct (get reg p) eqn:E; simpl.
      * now rewrite E.
      * now rewrite get_setitem_eq.
    + destruct (get reg n) eqn:E; simpl.
      * destruct (get reg p); [reflexivity|].
        destruct (in_dec string_dec p names); reflexivity.
      * rewrite get_setitem_neq by assumption.
        destruct (get reg p); [reflexivity|].
        destruct (in_dec string_dec p names); reflexivity.
Qed.


(** On files that parse, [OnDisk.upsert_team] is [upsert_team]. *)
Lemma upsert_team_on_disk team_name (player_names : list string) st :
  OnDisk.upsert_team team_name player_names (on_disk st)
  = (on_disk (fst (upsert_team team_name player_names st)),
     snd (upsert_team team_name player_names st)).
Proof.
  unfold OnDisk.upsert_team, upsert_team.
  destruct (negb (Nat.eqb (List.length player_names) 2)); [reflexivity|].
  assert (L : OnDisk.load_registry (on_disk st) = Ok (load_registry st)).
  { unfold OnDisk.load_registry, load_registry, on_disk, OnDisk._load_json,
      _load_json.
    cbn [disk_players disk_teams].
    destruct (players_file st), (teams_file st); reflexivity. }
  rewrite L. unfold load_registry. reflexivity.
Qed.




(* ------------------------------------------------------------------ *)
(** ** Records that are skipped *)

Lemma scan_loop_flat_map listing (out : list Summary.t) :
  fold_left
    (fun out entry =>
       match snd entry with
       | PlainFile => out
       | Directory None => out
       | Directory (Some content) =>
           match _safe_read_json (Some content) with
           | Some data => if Summary.truthy data then out ++ [data] else out
           | None => out
           end
       end)
    listing out
  = out ++ flat_map entry_summaries listing.
Proof.
  revert out. induction listing as [|[name e] listing IH]; intros out; simpl.
  - now rewrite app_nil_r.
  - rewrite IH. unfold entry_summaries at 2. simpl.
    destruct e as [|[[|data]|]]; simpl; try reflexivity.
    destruct (Summary.truthy data); simpl; [|reflexivity].
    now rewrite <- app_assoc.
Qed.

Lemma scan_flat_map listing :
  _scan_series_summaries (Some listing) = flat_map entry_summaries listing.
Proof.
  unfold _scan_series_summaries. now rewrite scan_loop_flat_map.
Qed.

Lemma merge_series_undated b s : has_date s = false -> merge_series b s = Ok b.
Proof.
  unfold has_date, merge_series. destruct (Summary.date s); [discriminate|].
  reflexivity.
Qed.

Lemma merge_loop_dated b summaries :
  merge_loop b (filter has_date summaries) = merge_loop b summaries.
Proof.
  revert b. induction summaries as [|s summaries IH]; intros b; simpl.
  - reflexivity.
  - destruct (has_date s) eqn:E; simpl.
    + destruct (merge_series b s); [apply IH | reflexivity].
    + rewrite merge_series_undated by assumption. apply IH.
Qed.

Lemma skipped_entry_adds_nothing entry :
  unparsed_or_undated entry = true ->
  filter has_date (entry_summaries entry) = [].
Proof.
  unfold unparsed_or_undated, entry_summaries.
  destruct (snd entry) as [|[[|data]|]]; try discriminate; try reflexivity.
  destruct (Summary.date data) eqn:D; [discriminate|]. intros _.
  destruct (Summary.truthy data); [|reflexivity].
  simpl. unfold has_date. now rewrite D.
Qed.

Lemma dated_summaries_usable listing :
  filter has_date (flat_map entry_summaries (usable_entries listing))
  = filter has_date (flat_map entry_summaries listing).
Proof.
  unfold usable_entries.
  induction listing as [|entry listing IH]; [reflexivity|].
  cbn [filter flat_map]. rewrite filter_app, <- IH.
  destruct (unparsed_or_undated entry) eqn:U; cbn [negb].
  - now rewrite skipped_entry_adds_nothing.
  - cbn [flat_map]. now rewrite filter_app.
Qed.

Lemma merge_all_usable listing :
  merge_all (Some listing) = merge_all (Some (usable_entries listing)).
Proof.
  unfold merge_all. rewrite !scan_flat_map.
  rewrite <- (merge_loop_dated _ (flat_map entry_summaries listing)).
  rewrite <- (merge_loop_dated _
                (flat_map entry_summaries (usable_entries listing))).
  now rewrite dated_summaries_usable.
Qed.

(** C8, as the code has it.  A series file that fails to parse, or whose
    object lacks the date, is skipped and does not abort the batch:
    [merge_all] over a listing returns exactly what it returns over the
    listing without those entries.  The skip is silent: the whole run,
    registry and printed lines included, is the run over the remaining
    entries. *)
Theorem skipped_records_do_not_count
  (listing : list (string * DirEntry)) (st : Store) :
  merge_all (Some listing) = merge_all (Some (usable_entries listing))
  /\ main (Some listing) st = main (Some (usable_entries listing)) st.
Proof.
  split; [apply merge_all_usable|].
  unfold main. now rewrite merge_all_usable.
Qed.

(** C8, the diagnostic.  A run over one file that does not parse and one
    summary without a date prints the four lines of a run over an empty
    series root and nothing else. *)
Lemma skipped_records_no_diagnostic :
  let undated :=
    Summary.mk None (Some [("Ana", [("points", 3)])]) None ["series_id"] in
  let listing :=
    [ ("S1", Directory (Some Garbage));
      ("S2", Directory (Some (Json undated))) ] in
  let cold := mkStore false None None in
  main (Some listing) cold = main (Some []) cold
  /\ main (Some listing) cold
     = Ok (mkStore true (Some []) (Some []),
           [ "✅ Registry sync complete: players updated=0, teams updated=0";
             "   Players file: data/registry/players.json";
             "   Teams file:   data/registry/teams.json";
             "✅ Merge complete. Weekly reports in 'data/weekly_reports', season totals in 'data/season_totals.json' / 'data/season_totals.txt'." ]).
Proof.
  split; vm_compute; reflexivity.
Qed.

(* ------------------------------------------------------------------ *)
(** ** Weeks whose records list no players *)

(** C6 at a failing input.  One dated record (2025-06-02, ISO week
    2025-W23) with an empty players map and one team: the season totals hold
    the team, the weekly output has no entry for the week at all, because
    the final loop walks the weeks of [weekly_players] only. *)
Theorem week_without_players_is_dropped :
  let record :=
    Summary.mk (Some "2025-06-02") (Some [])
      (Some [("Aces", [("total_points", 5)])]) ["series_id"] in
  let root := Some [("S1", Directory (Some (Json record)))] in
  _iso_week_key "2025-06-02" = Ok "2025-W23"
  /\ merge_all root
     = Ok ([],
           Totals.mk []
             [("Aces",
               [ ("total_points", 5); ("total_throws", 0);
                 ("total_table_hits", 0); ("total_catches", 0);
                 ("total_missed_catches", 0); ("total_sinks", 0);
                 ("total_rim_hits", 0); ("total_rounds_won", 0);
                 ("total_series_won", 0) ])])
  /\ (forall weekly season,
        merge_all root = Ok (weekly, season) -> get weekly "2025-W23" = None).
Proof.
  intros record root. split; [|split].
  - vm_compute. reflexivity.
  - vm_compute. reflexivity.
  - intros weekly season H. vm_compute in H. injection H as <- _. reflexivity.
Qed.

(** C2 at a failing input.  Two dated records, the second (2025-06-09, week
    2025-W24) without players: team "Aces" has 12 points in the season
    totals and 5 in the sum over the weeks of the weekly output. *)
Theorem season_exceeds_weeks_for_team :
  let first :=
    Summary.mk (Some "2025-06-02") (Some [("Ana", [("points", 3)])])
      (Some [("Aces", [("total_points", 5)])]) [] in
  let second :=
    Summary.mk (Some "2025-06-09") None
      (Some [("Aces", [("total_points", 7)])]) [] in
  let root := Some [ ("S1", Directory (Some (Json first)));
                     ("S2", Directory (Some (Json second))) ] in
  exists weekly season,
    merge_all root = Ok (weekly, season)
    /\ keys weekly = ["2025-W23"]
    /\ stat (Totals.teams season) "Aces" "total_points" = 12
    /\ weeks_sum Totals.teams weekly "Aces" "total_points" = 5.
Proof.
  intros first second root.
  destruct (merge_all root) as [[weekly season]|e] eqn:E;
    vm_compute in E; [|discriminate].
  exists weekly, season. injection E as <- <-.
  repeat split.
Qed.

(* ------------------------------------------------------------------ *)
(** ** ISO weeks *)

Lemma year_length y :
  365 <= _days_before_year (y + 1) - _days_before_year y <= 366.
Proof.
  unfold _days_before_year. cbv zeta.
  replace (y + 1 - 1) with y by lia.
  Z.div_mod_to_equations. lia.
Qed.

Lemma jan1_ord y : _ymd2ord y 1 1 = _days_before_year y + 1.
Proof.
  unfold _ymd2ord, _days_before_month. simpl. lia.
Qed.

Lemma isocalendar_iso8601 y m d :
  _ymd2ord y 1 1 <= _ymd2ord y m d < _ymd2ord (y + 1) 1 1 ->
  let '(iso_year, iso_week, iso_day) := isocalendar y m d in
  iso8601_week (_ymd2ord y m d) iso_year iso_week
  /\ 1 <= iso_week <= 53
  /\ iso_day = weekday (_ymd2ord y m d) + 1
  /\ y - 1 <= iso_year <= y + 1.
Proof.
  intros Hrange.
  unfold isocalendar, iso8601_week, thursday_of_week, weekday, _isoweek1monday.
  cbv zeta.
  set (today := _ymd2ord y m d) in *. clearbody today.
  repeat match goal with
         | |- context [if ?c then _ else _] => destruct c eqn:?
         | H : context [if ?c then _ else _] |- _ => destruct c eqn:?
         end;
  repeat match goal with
         | H : (_ && _) = true |- _ => apply andb_true_iff in H; destruct H
         | H : (_ && _) = false |- _ => apply andb_false_iff in H
         end;
  cbv beta iota.
  all: rewrite !jan1_ord in *.
  all: pose proof (year_length (y - 1)) as L0.
  all: pose proof (year_length y) as L1.
  all: pose proof (year_length (y + 1)) as L2.
  all: replace (y - 1 + 1) with y in * by lia.
  all: replace (y + 1 + 1) with (y + 2) in * by lia.
  all: generalize dependent (_days_before_year (y - 1)); intros D0.
  all: generalize dependent (_days_before_year y); intros D1.
  all: generalize dependent (_days_before_year (y + 1)); intros D2.
  all: generalize dependent (_days_before_year (y + 2)); intros D3.
  all: intros.
  all: try (Z.div_mod_to_equations; lia).
Qed.

Lemma year_length_leap y :
  _days_before_year (y + 1) - _days_before_year y
  = if _is_leap y then 366 else 365.
Proof.
  unfold _days_before_year, _is_leap. cbv zeta.
  replace (y + 1 - 1) with y by lia.
  destruct (Z.eqb_spec (y mod 4) 0), (Z.eqb_spec (y mod 100) 0),
    (Z.eqb_spec (y mod 400) 0); cbn [andb orb negb];
    Z.div_mod_to_equations; lia.
Qed.

Lemma ymd2ord_within_year y m d :
  1 <= m <= 12 -> 1 <= d <= _days_in_month y m ->
  _ymd2ord y 1 1 <= _ymd2ord y m d < _ymd2ord (y + 1) 1 1.
Proof.
  intros Hm Hd. rewrite !jan1_ord.
  pose proof (year_length_leap y) as L.
  unfold _ymd2ord, _days_before_month, _days_in_month in *.
  assert (C : m = 1 \/ m = 2 \/ m = 3 \/ m = 4 \/ m = 5 \/ m = 6 \/ m = 7
              \/ m = 8 \/ m = 9 \/ m = 10 \/ m = 11 \/ m = 12) by lia.
  destruct (_is_leap y);
    repeat (destruct C as [->|C]); try subst m; simpl in *; lia.
Qed.

Lemma fromisoformat_valid date_str y m d :
  fromisoformat date_str = Ok (y, m, d) ->
  MINYEAR <= y <= MAXYEAR /\ 1 <= m <= 12 /\ 1 <= d <= _days_in_month y m.
Proof.
  unfold fromisoformat.
  destruct (list_ascii_of_string date_str)
    as [|y1 [|y2 [|y3 [|y4 [|s1 [|m1 [|m2 [|s2 [|d1 [|d2 [|x l]]]]]]]]]]];
    try discriminate.
  destruct (digit_of y1), (digit_of y2), (digit_of y3), (digit_of y4),
    (digit_of m1), (digit_of m2), (digit_of d1), (digit_of d2);
    try discriminate.
  match goal with
  | |- context [Ok (?a, ?b, ?c)] =>
      generalize a as year, b as month, c as day; intros year month day
  end.
  repeat match goal with
         | |- context [if negb ?c then _ else _] =>
             destruct c eqn:?; cbn [negb]; try discriminate
         end.
  intros [= <- <- <-].
  repeat match goal with
         | H : (_ && _) = true |- _ => apply andb_true_iff in H; destruct H
         end.
  unfold MINYEAR, MAXYEAR in *. lia.
Qed.

Lemma week_two_digits w : 1 <= w <= 53 -> String.length (format_02d w) = 2%nat.
Proof.
  intros Hw.
  assert (A : forallb (fun n => Nat.eqb (String.length (format_02d (Z.of_nat n))) 2)
                (seq 1 53) = true) by (vm_compute; reflexivity).
  rewrite forallb_forall in A.
  specialize (A (Z.to_nat w)). rewrite Z2Nat.id in A by lia.
  apply Nat.eqb_eq, A, in_seq. lia.
Qed.

Lemma string_length_append (a b : string) :
  String.length (a ++ b) = (String.length a + String.length b)%nat.
Proof.
  induction a as [|c a IH]; simpl; [reflexivity | now rewrite IH].
Qed.

Example iso_week_key_examples :
  _iso_week_key "2024-12-30" = Ok "2025-W01"
  /\ _iso_week_key "2021-01-03" = Ok "2020-W53"
  /\ _iso_week_key "2025-06-02" = Ok "2025-W23"
  /\ _iso_week_key "2025-06-09" = Ok "2025-W24"
  /\ _iso_week_key "2023-02-29"
     = Raise (ValueError "day is out of range for month")
  /\ _iso_week_key "June 2nd" = Raise (ValueError "Invalid isoformat string").
Proof. repeat split; vm_compute; reflexivity. Qed.

(* ------------------------------------------------------------------ *)
(** ** Every aggregated map has exactly the schema keys *)

Section ForallValues.
Variable V : Type.
Variable P : V -> Prop.

Lemma Forall_dd_mutate factory k (f : V -> V) (d : dict V) :
  P (f factory) -> (forall v, P v -> P (f v)) ->
  Forall (fun e => P (snd e)) d ->
  Forall (fun e => P (snd e)) (dd_mutate factory k f d).
Proof.
  intros Hnew Hf. induction 1 as [|[k' v] r Hv Hr IH]; simpl.
  - constructor; [exact Hnew | constructor].
  - destruct (String.eqb k k'); constructor; simpl in *; auto.
Qed.

Lemma Forall_setitem k v (d : dict V) :
  P v -> Forall (fun e => P (snd e)) d ->
  Forall (fun e => P (snd e)) (setitem k v d).
Proof.
  intros Hv. induction 1 as [|[k' v'] r Hv' Hr IH]; simpl.
  - constructor; [exact Hv | constructor].
  - destruct (String.eqb k k'); constructor; simpl in *; auto.
Qed.

Lemma Forall_get_or k dflt (d : dict V) :
  P dflt -> Forall (fun e => P (snd e)) d -> P (get_or d k dflt).
Proof.
  intros Hd. unfold get_or. induction 1 as [|[k' v] r Hv Hr IH]; simpl.
  - exact Hd.
  - destruct (String.eqb k k'); [exact Hv | exact IH].
Qed.

End ForallValues.

Lemma keys_zeroed ks : keys (zeroed ks) = ks.
Proof.
  unfold zeroed, keys. rewrite map_map. simpl. apply map_id.
Qed.

Lemma add_stats_keeps_schema ks (m src : StatMap) :
  keys m = ks -> keys (_add_stats m src ks) = ks.
Proof.
  intros H. rewrite add_stats_keys; [exact H|]. rewrite H. apply incl_refl.
Qed.

Lemma schema_maps_add ks name (src : StatMap) (d : dict StatMap) :
  schema_maps ks d ->
  schema_maps ks
    (dd_mutate (zeroed ks) name (fun m => _add_stats m src ks) d).
Proof.
  apply (@Forall_dd_mutate StatMap (fun m => keys m = ks)).
  - apply add_stats_keeps_schema, keys_zeroed.
  - intros m. apply add_stats_keeps_schema.
Qed.

Lemma weekly_maps_add ks wk name (src : StatMap) (w : dict (dict StatMap)) :
  Forall (fun week => schema_maps ks (snd week)) w ->
  Forall (fun week => schema_maps ks (snd week))
    (dd_mutate [] wk
       (dd_mutate (zeroed ks) name (fun m => _add_stats m src ks)) w).
Proof.
  apply (@Forall_dd_mutate (dict StatMap) (schema_maps ks)).
  - apply schema_maps_add. constructor.
  - intros d. apply schema_maps_add.
Qed.

Lemma add_player_ok wk b item : buckets_ok b -> buckets_ok (add_player wk b item).
Proof.
  destruct item as [pname pstats]. intros (Hwp & Hwt & Hsp & Hst).
  unfold add_player, buckets_ok. cbn [weekly_players weekly_teams
    season_players season_teams].
  repeat split; try assumption.
  - now apply weekly_maps_add.
  - now apply schema_maps_add.
Qed.

Lemma add_team_ok wk b item : buckets_ok b -> buckets_ok (add_team wk b item).
Proof.
  destruct item as [tname tstats]. intros (Hwp & Hwt & Hsp & Hst).
  unfold add_team, buckets_ok. cbn [weekly_players weekly_teams
    season_players season_teams].
  repeat split; try assumption.
  - now apply weekly_maps_add.
  - now apply schema_maps_add.
Qed.

Lemma fold_ok (step : Buckets -> string * StatMap -> Buckets) items b :
  (forall b item, buckets_ok b -> buckets_ok (step b item)) ->
  buckets_ok b -> buckets_ok (fold_left step items b).
Proof.
  intros Hstep. revert b. induction items as [|item items IH]; intros b Hb.
  - exact Hb.
  - simpl. apply IH, Hstep, Hb.
Qed.

Lemma merge_series_ok b series b' :
  merge_series b series = Ok b' -> buckets_ok b -> buckets_ok b'.
Proof.
  unfold merge_series.
  destruct (Summary.date series) as [date|]; [|intros [= <-]; tauto].
  destruct (String.eqb date ""); [intros [= <-]; tauto|].
  destruct (_iso_week_key date) as [wk|e]; [|discriminate].
  intros [= <-] Hb.
  apply fold_ok; [apply add_team_ok|].
  apply fold_ok; [apply add_player_ok | exact Hb].
Qed.

Lemma merge_loop_ok summaries b b' :
  merge_loop b summaries = Ok b' -> buckets_ok b -> buckets_ok b'.
Proof.
  revert b. induction summaries as [|s summaries IH]; intros b; simpl.
  - intros [= <-]. tauto.
  - destruct (merge_series b s) as [b1|e] eqn:E; [|discriminate].
    intros H Hb. apply (IH b1 H). eapply merge_series_ok; eauto.
Qed.

Lemma finalize_weekly_ok b :
  buckets_ok b ->
  Forall (fun week => schema_totals (snd week)) (finalize_weekly b).
Proof.
  intros (Hwp & Hwt & _ & _). unfold finalize_weekly.
  generalize (sorted (keys (weekly_players b))) as wks.
  assert (Hnil : Forall (fun week : string * Totals.t => schema_totals (snd week)) [])
    by constructor.
  revert Hnil. generalize (@nil (string * Totals.t)) as acc.
  intros acc Hacc wks. revert acc Hacc.
  induction wks as [|wk wks IH]; intros acc Hacc; simpl; [exact Hacc|].
  apply IH. apply (@Forall_setitem Totals.t schema_totals); [|exact Hacc].
  split; cbn [Totals.players Totals.teams].
  - apply (@Forall_get_or (dict StatMap) (schema_maps PLAYER_STAT_KEYS));
      [constructor | exact Hwp].
  - apply (@Forall_get_or (dict StatMap) (schema_maps TEAM_STAT_KEYS));
      [constructor | exact Hwt].
Qed.

Lemma merge_all_schema root weekly season :
  merge_all root = Ok (weekly, season) ->
  schema_totals season /\ Forall (fun week => schema_totals (snd week)) weekly.
Proof.
  unfold merge_all.
  destruct (merge_loop empty_buckets (_scan_series_summaries root))
    as [b|e] eqn:E; [|discriminate].
  intros [= <- <-].
  assert (Hb : buckets_ok b).
  { apply (merge_loop_ok _ E). repeat split; constructor. }
  split; [|now apply finalize_weekly_ok].
  destruct Hb as (_ & _ & Hsp & Hst). split; assumption.
Qed.

(* ------------------------------------------------------------------ *)
(** ** The keys of a reconciled map *)

Section Overlay.
Variable h : StatMap -> string * Z -> Z.

Let overlay (t m : StatMap) : StatMap :=
  fold_left (fun m kv => setitem (fst kv) (h m kv) m) t m.

Lemma in_keys_overlay t m k :
  In k (keys (overlay t m)) <-> In k (keys m) \/ In k (keys t).
Proof.
  unfold overlay. revert m. induction t as [|[k0 v0] t IH]; intros m; simpl.
  - tauto.
  - rewrite IH, in_keys_setitem. simpl. intuition congruence.
Qed.

Lemma keys_overlay_within t m :
  incl (keys t) (keys m) -> keys (overlay t m) = keys m.
Proof.
  unfold overlay. revert m. induction t as [|[k0 v0] t IH]; intros m Hin; simpl.
  - reflexivity.
  - assert (I0 : In k0 (keys m)) by (apply Hin; now left).
    rewrite IH; rewrite keys_setitem_in by assumption; [reflexivity|].
    intros k Hk. apply Hin. now right.
Qed.


End Overlay.

Lemma in_keys_reconciled overwrite defaults totals old k :
  In k (keys (reconciled_stats overwrite defaults totals old))
  <-> In k (base_keys overwrite (keys defaults) old) \/ In k (keys totals).
Proof.
  unfold reconciled_stats, base_keys, exact_stats, add_totals.
  destruct overwrite.
  - apply (in_keys_overlay (fun _ kv => int (snd kv))).
  - rewrite (in_keys_overlay
               (fun stats kv => get_or stats (fst kv) 0 + int (snd kv))).
    destruct old; reflexivity.
Qed.

Lemma keys_reconciled_within overwrite defaults totals old :
  incl (keys totals) (base_keys overwrite (keys defaults) old) ->
  keys (reconciled_stats overwrite defaults totals old)
  = base_keys overwrite (keys defaults) old.
Proof.
  unfold reconciled_stats, base_keys, exact_stats, add_totals.
  destruct overwrite.
  - apply (keys_overlay_within (fun _ kv => int (snd kv))).
  - intros H.
    rewrite (keys_overlay_within
               (fun stats kv => get_or stats (fst kv) 0 + int (snd kv)));
      destruct old; auto.
Qed.


Lemma base_plus_given_refl (m : StatMap) : base_plus_given (keys m) [] m.
Proof.
  repeat split.
  - apply incl_refl.
  - intros k I. now left.
Qed.

Lemma base_plus_given_step overwrite defaults old t0 given m :
  base_plus_given
    (base_keys overwrite (keys defaults)
       (Some (reconciled_stats overwrite defaults t0 old))) given m ->
  base_plus_given (base_keys overwrite (keys defaults) old) (t0 :: given) m.
Proof.
  intros (Hincl & Hfrom & Hexact).
  pose proof (in_keys_reconciled overwrite defaults t0 old) as K.
  pose proof (@keys_reconciled_within overwrite defaults t0 old) as W.
  destruct overwrite; cbn [base_keys] in *.
  - repeat split.
    + exact Hincl.
    + intros k I. destruct (Hfrom k I) as [B|(t & It & Ik)]; [now left|].
      right. exists t. split; [now right | exact Ik].
    + intros Hall. apply Hexact. intros t It. apply Hall. now right.
  - repeat split.
    + intros k I. apply Hincl, K. now left.
    + intros k I. destruct (Hfrom k I) as [B|(t & It & Ik)].
      * apply K in B. destruct B as [B|B]; [now left|].
        right. exists t0. split; [now left | exact B].
      * right. exists t. split; [now right | exact Ik].
    + intros Hall.
      assert (E : keys (reconciled_stats false defaults t0 old)
                  = match old with Some m0 => keys m0 | None => keys defaults end)
        by (apply W, Hall; now left).
      rewrite <- E. apply Hexact. rewrite E. intros t It. apply Hall. now right.
Qed.

Lemma given_for_cons_same name t totals :
  given_for name ((name, t) :: totals) = t :: given_for name totals.
Proof.
  unfold given_for. simpl. now rewrite String.eqb_refl.
Qed.

Lemma given_for_cons_other name n t totals :
  n <> name -> given_for name ((n, t) :: totals) = given_for name totals.
Proof.
  intros Hne. unfold given_for. simpl.
  destruct (String.eqb_spec name n); [congruence | reflexivity].
Qed.

Lemma given_for_absent name (totals : dict StatMap) :
  ~ In name (keys totals) -> given_for name totals = [].
Proof.
  induction totals as [|[n t] totals IH]; intros N; [reflexivity|].
  rewrite given_for_cons_other by (intros ->; apply N; now left).
  apply IH. intros I. apply N. now right.
Qed.

Lemma in_given_for name t (totals : dict StatMap) :
  In t (given_for name totals) <-> In (name, t) totals.
Proof.
  unfold given_for. rewrite in_map_iff. split.
  - intros ([n t'] & <- & I). apply filter_In in I. destruct I as [I E].
    simpl in E. apply String.eqb_eq in E. now subst n.
  - intros I. exists (name, t). split; [reflexivity|].
    apply filter_In. split; [exact I|]. simpl. apply String.eqb_refl.
Qed.

(** The loop over the totals, for any registry whose step stores
    [reconciled_stats] under the item's name and leaves the other names. *)
Section ReconcileLoop.
Variable V : Type.
Variable stats : V -> StatMap.
Variable step : dict V * Z -> string * StatMap -> dict V * Z.
Variable overwrite : bool.
Variable defaults : StatMap.

Let stored (reg : dict V) (name : string) : option StatMap :=
  option_map stats (get reg name).

Hypothesis step_same : forall reg n name t,
  stored (fst (step (reg, n) (name, t))) name
  = Some (reconciled_stats overwrite defaults t (stored reg name)).

Hypothesis step_other : forall reg n name t k,
  k <> name -> stored (fst (step (reg, n) (name, t))) k = stored reg k.

Lemma loop_untouched totals reg n name :
  ~ In name (keys totals) ->
  stored (fst (fold_left step totals (reg, n))) name = stored reg name.
Proof.
  revert reg n. induction totals as [|[n0 t0] totals IH]; intros reg n N.
  - reflexivity.
  - cbn [fold_left].
    destruct (step (reg, n) (n0, t0)) as [reg1 n1] eqn:E.
    rewrite IH by (intros I; apply N; now right).
    change reg1 with (fst (reg1, n1)). rewrite <- E.
    apply step_other. intros ->. apply N. now left.
Qed.

Lemma loop_written totals reg n name :
  In name (keys totals) ->
  exists m,
    stored (fst (fold_left step totals (reg, n))) name = Some m
    /\ base_plus_given (base_keys overwrite (keys defaults) (stored reg name))
         (given_for name totals) m.
Proof.
  revert reg n. induction totals as [|[n0 t0] totals IH]; intros reg n I.
  - destruct I.
  - cbn [fold_left].
    destruct (step (reg, n) (n0, t0)) as [reg1 n1] eqn:E.
    destruct (string_dec n0 name) as [->|Hne].
    + assert (S1 : stored reg1 name
                   = Some (reconciled_stats overwrite defaults t0
                             (stored reg name))).
      { change reg1 with (fst (reg1, n1)). rewrite <- E. apply step_same. }
      rewrite given_for_cons_same.
      destruct (in_dec string_dec name (keys totals)) as [I'|N'].
      * destruct (IH reg1 n1 I') as (m & Hm & Hprop).
        exists m. split; [exact Hm|].
        apply base_plus_given_step. now rewrite <- S1.
      * exists (reconciled_stats overwrite defaults t0 (stored reg name)).
        split; [now rewrite loop_untouched|].
        rewrite given_for_absent by assumption.
        destruct overwrite.
        -- split; [|split].
           ++ intros k Ik. apply in_keys_reconciled. now left.
           ++ intros k Ik. apply in_keys_reconciled in Ik.
              destruct Ik as [Ik|Ik]; [now left|].
              right. exists t0. split; [now left | exact Ik].
           ++ intros Hall.
              apply (@keys_reconciled_within true defaults t0
                       (stored reg name)).
              apply Hall. now left.
        -- apply base_plus_given_step. apply base_plus_given_refl.
    + assert (S1 : stored reg1 name = stored reg name).
      { change reg1 with (fst (reg1, n1)). rewrite <- E.
        apply step_other. congruence. }
      rewrite given_for_cons_other by assumption.
      destruct I as [I|I]; [simpl in I; congruence|].
      destruct (IH reg1 n1 I) as (m & Hm & Hprop).
      exists m. split; [exact Hm|]. now rewrite <- S1.
Qed.

Lemma loop_written_exact totals reg n name :
  overwrite = true -> In name (keys totals) ->
  exists t,
    In (name, t) totals
    /\ stored (fst (fold_left step totals (reg, n))) name
       = Some (exact_stats defaults t).
Proof.
  intros Hov. revert reg n.
  induction totals as [|[n0 t0] totals IH]; intros reg n I.
  - destruct I.
  - cbn [fold_left].
    destruct (step (reg, n) (n0, t0)) as [reg1 n1] eqn:E.
    destruct (in_dec string_dec name (keys totals)) as [I'|N'].
    + destruct (IH reg1 n1 I') as (t & It & Ht).
      exists t. split; [now right | exact Ht].
    + destruct I as [I|I]; [|contradiction]. simpl in I. subst n0.
      exists t0. split; [now left|].
      rewrite loop_untouched by assumption.
      change reg1 with (fst (reg1, n1)). rewrite <- E, step_same.
      unfold reconciled_stats. now rewrite Hov.
Qed.

End ReconcileLoop.

Lemma get_fold_mutate_same (V A : Type) (g : A -> V -> V) (l : list A) k
  (reg : dict V) :
  get (fold_left (fun reg a => mutate k (g a) reg) l reg) k
  = option_map (fun v => fold_left (fun v a => g a v) l v) (get reg k).
Proof.
  revert reg. induction l as [|a l IH]; intros reg; simpl.
  - destruct (get reg k); reflexivity.
  - rewrite IH, get_mutate_eq. destruct (get reg k); reflexivity.
Qed.

Lemma get_fold_mutate_other (V A : Type) (g : A -> V -> V) (l : list A) k k'
  (reg : dict V) :
  k <> k' ->
  get (fold_left (fun reg a => mutate k (g a) reg) l reg) k' = get reg k'.
Proof.
  intros Hne. revert reg. induction l as [|a l IH]; intros reg; simpl.
  - reflexivity.
  - rewrite IH. now apply get_mutate_neq.
Qed.

Lemma reconcile_player_same overwrite reg n name t :
  option_map (fun m : StatMap => m)
    (get (fst (reconcile_player overwrite (reg, n) (name, t))) name)
  = Some (reconciled_stats overwrite _default_player_stats t
            (option_map (fun m : StatMap => m) (get reg name))).
Proof.
  unfold reconcile_player, reconciled_stats, contains. cbn [fst].
  destruct overwrite.
  - rewrite get_setitem_eq. reflexivity.
  - rewrite get_fold_mutate_same. unfold StatMap in *.
    destruct (get reg name) as [m|] eqn:E; cbn [negb].
    + rewrite E. reflexivity.
    + rewrite get_setitem_eq. reflexivity.
Qed.

Lemma reconcile_player_other overwrite reg n name t k :
  k <> name ->
  option_map (fun m : StatMap => m)
    (get (fst (reconcile_player overwrite (reg, n) (name, t))) k)
  = option_map (fun m : StatMap => m) (get reg k).
Proof.
  intros Hne. unfold reconcile_player. cbn [fst]. f_equal.
  assert (E : get (if negb (contains name reg)
                   then setitem name _default_player_stats reg else reg) k
              = get reg k).
  { destruct (negb (contains name reg)); [|reflexivity].
    apply get_setitem_neq. congruence. }
  destruct overwrite.
  - rewrite get_setitem_neq by congruence. exact E.
  - rewrite get_fold_mutate_other by congruence. exact E.
Qed.

Lemma lifetime_fold_add (t : StatMap) (e : TeamEntry.t) :
  TeamEntry.lifetime_stats
    (fold_left
       (fun e kv =>
          TeamEntry.set_lifetime_stats
            (setitem (fst kv)
               (get_or (TeamEntry.lifetime_stats e) (fst kv) 0 + int (snd kv))
               (TeamEntry.lifetime_stats e)) e)
       t e)
  = add_totals t (TeamEntry.lifetime_stats e).
Proof.
  unfold add_totals. revert e. induction t as [|kv t IH]; intros e; simpl.
  - reflexivity.
  - rewrite IH. reflexivity.
Qed.

Lemma reconcile_team_same overwrite reg n name t :
  option_map TeamEntry.lifetime_stats
    (get (fst (reconcile_team overwrite (reg, n) (name, t))) name)
  = Some (reconciled_stats overwrite _default_team_stats t
            (option_map TeamEntry.lifetime_stats (get reg name))).
Proof.
  unfold reconcile_team, reconciled_stats, contains. cbn [fst].
  destruct overwrite.
  - rewrite get_mutate_eq.
    destruct (get reg name) as [e|] eqn:E; cbn [negb].
    + try rewrite E. reflexivity.
    + rewrite get_setitem_eq. reflexivity.
  - rewrite (get_fold_mutate_same
               (fun kv e =>
                  TeamEntry.set_lifetime_stats
                    (setitem (fst kv)
                       (get_or (TeamEntry.lifetime_stats e) (fst kv) 0
                        + int (snd kv))
                       (TeamEntry.lifetime_stats e)) e)).
    destruct (get reg name) as [e|] eqn:E; cbn [negb].
    + try rewrite E. cbn [option_map]. now rewrite lifetime_fold_add.
    + rewrite get_setitem_eq. cbn [option_map]. now rewrite lifetime_fold_add.
Qed.

Lemma reconcile_team_other overwrite reg n name t k :
  k <> name ->
  option_map TeamEntry.lifetime_stats
    (get (fst (reconcile_team overwrite (reg, n) (name, t))) k)
  = option_map TeamEntry.lifetime_stats (get reg k).
Proof.
  intros Hne. unfold reconcile_team. cbn [fst]. f_equal.
  match goal with
  | |- context [if negb (contains name reg) then ?a else reg] =>
      assert (E : get (if negb (contains name reg) then a else reg) k
                  = get reg k)
  end.
  { destruct (negb (contains name reg)); [|reflexivity].
    apply get_setitem_neq. congruence. }
  destruct overwrite.
  - rewrite get_mutate_neq by congruence. exact E.
  - rewrite (get_fold_mutate_other
               (fun kv e =>
                  TeamEntry.set_lifetime_stats
                    (setitem (fst kv)
                       (get_or (TeamEntry.lifetime_stats e) (fst kv) 0
                        + int (snd kv))
                       (TeamEntry.lifetime_stats e)) e)) by congruence.
    exact E.
Qed.

Lemma option_map_id (A : Type) (o : option A) : option_map (fun a => a) o = o.
Proof. destruct o; reflexivity. Qed.

Lemma default_stats_keys :
  keys _default_player_stats = PLAYER_STAT_KEYS
  /\ keys _default_team_stats = TEAM_STAT_KEYS.
Proof. split; reflexivity. Qed.


Lemma registry_after_update players_totals teams_totals overwrite st :
  load_registry
    (fst (update_registry_from_totals players_totals teams_totals overwrite st))
  = (fst (fold_left (reconcile_player overwrite) players_totals
            (fst (load_registry st), 0)),
     fst (fold_left (reconcile_team overwrite) teams_totals
            (snd (load_registry st), 0))).
Proof.
  unfold update_registry_from_totals, load_registry, _ensure_registry_dirs.
  cbn [players_file teams_file fst snd].
  destruct (fold_left (reconcile_player overwrite) players_totals
              (_load_json (players_file st), 0)) as [preg pn].
  destruct (fold_left (reconcile_team overwrite) teams_totals
              (_load_json (teams_file st), 0)) as [treg tn].
  reflexivity.
Qed.

Lemma reconciled_players players_totals teams_totals overwrite st name :
  In name (keys players_totals) ->
  exists m,
    get (fst (load_registry
                (fst (update_registry_from_totals players_totals teams_totals
                        overwrite st)))) name = Some m
    /\ base_plus_given
         (base_keys overwrite PLAYER_STAT_KEYS
            (get (fst (load_registry st)) name))
         (given_for name players_totals) m.
Proof.
  intros I. rewrite registry_after_update. cbn [fst].
  destruct (@loop_written StatMap (fun m => m) (reconcile_player overwrite)
              overwrite _default_player_stats
              (reconcile_player_same overwrite)
              (reconcile_player_other overwrite)
              players_totals (fst (load_registry st)) 0 name I)
    as (m & Hm & Hprop).
  rewrite option_map_id in Hm, Hprop. exists m. split; [exact Hm|exact Hprop].
Qed.

Lemma reconciled_teams players_totals teams_totals overwrite st name :
  In name (keys teams_totals) ->
  exists e,
    get (snd (load_registry
                (fst (update_registry_from_totals players_totals teams_totals
                        overwrite st)))) name = Some e
    /\ base_plus_given
         (base_keys overwrite TEAM_STAT_KEYS
            (option_map TeamEntry.lifetime_stats
               (get (snd (load_registry st)) name)))
         (given_for name teams_totals) (TeamEntry.lifetime_stats e).
Proof.
  intros I. rewrite registry_after_update. cbn [snd].
  destruct (@loop_written TeamEntry.t TeamEntry.lifetime_stats
              (reconcile_team overwrite) overwrite _default_team_stats
              (reconcile_team_same overwrite)
              (reconcile_team_other overwrite)
              teams_totals (snd (load_registry st)) 0 name I)
    as (m & Hm & Hprop).
  destruct (get (fst (fold_left (reconcile_team overwrite) teams_totals
                        (snd (load_registry st), 0))) name) as [e|];
    [|discriminate].
  exists e. split; [reflexivity|]. injection Hm as <-. exact Hprop.
Qed.

Lemma overwritten_players players_totals teams_totals st name :
  In name (keys players_totals) ->
  exists t,
    In (name, t) players_totals
    /\ get (fst (load_registry
                   (fst (update_registry_from_totals players_totals
                           teams_totals true st)))) name
       = Some (exact_stats _default_player_stats t).
Proof.
  intros I. rewrite registry_after_update. cbn [fst].
  destruct (@loop_written_exact StatMap (fun m => m) (reconcile_player true)
              true _default_player_stats
              (reconcile_player_same true) (reconcile_player_other true)
              players_totals (fst (load_registry st)) 0 name eq_refl I)
    as (t & It & Ht).
  rewrite option_map_id in Ht. exists t. split; assumption.
Qed.

Lemma overwritten_teams players_totals teams_totals st name :
  In name (keys teams_totals) ->
  exists t e,
    In (name, t) teams_totals
    /\ get (snd (load_registry
                   (fst (update_registry_from_totals players_totals
                           teams_totals true st)))) name = Some e
    /\ TeamEntry.lifetime_stats e = exact_stats _default_team_stats t.
Proof.
  intros I. rewrite registry_after_update. cbn [snd].
  destruct (@loop_written_exact TeamEntry.t TeamEntry.lifetime_stats
              (reconcile_team true) true _default_team_stats
              (reconcile_team_same true) (reconcile_team_other true)
              teams_totals (snd (load_registry st)) 0 name eq_refl I)
    as (t & It & Ht).
  destruct (get (fst (fold_left (reconcile_team true) teams_totals
                        (snd (load_registry st), 0))) name) as [e|];
    [|discriminate].
  exists t, e. split; [exact It|]. split; [reflexivity|].
  now injection Ht.
Qed.




(* ------------------------------------------------------------------ *)
(** ** Season totals against the weekly output *)

Lemma get_or_zeroed ks k : get_or (zeroed ks) k 0 = 0.
Proof.
  unfold get_or, zeroed. induction ks as [|k0 ks IH]; simpl; [reflexivity|].
  destruct (String.eqb k k0); [reflexivity | exact IH].
Qed.

Lemma get_or_add_stats ks (m src : StatMap) k :
  NoDup ks ->
  get_or (_add_stats m src ks) k 0
  = get_or m k 0 + (if in_dec string_dec k ks then get_or src k 0 else 0).
Proof.
  intros ND. unfold get_or at 1. rewrite add_stats_get by assumption.
  destruct (in_dec string_dec k ks); [reflexivity|].
  unfold get_or. destruct (get m k); lia.
Qed.

Lemma stat_dd_add ks owner (src : StatMap) (d : dict StatMap) name k :
  NoDup ks ->
  stat (dd_mutate (zeroed ks) owner (fun m => _add_stats m src ks) d) name k
  = stat d name k + contribution ks owner src name k.
Proof.
  intros ND. unfold stat, contribution.
  destruct (String.eqb_spec name owner) as [->|Hne].
  - unfold get_or at 2. rewrite get_dd_mutate_eq.
    rewrite get_or_add_stats by assumption. f_equal.
    unfold get_or at 2 4. destruct (get d owner); [reflexivity|].
    apply get_or_zeroed.
  - unfold get_or at 2 4. rewrite get_dd_mutate_neq by congruence. lia.
Qed.

Lemma sum_dd_mutate (V : Type) (G : V -> Z) factory k (f : V -> V) c
  (d : dict V) :
  (forall v, G (f v) = G v + c) -> G factory = 0 ->
  sumZ (map (fun e => G (snd e)) (dd_mutate factory k f d))
  = sumZ (map (fun e => G (snd e)) d) + c.
Proof.
  intros Hf H0. induction d as [|[k' v] r IH]; simpl.
  - rewrite Hf, H0. lia.
  - destruct (String.eqb k k'); simpl.
    + rewrite Hf. lia.
    + rewrite IH. lia.
Qed.

Lemma weeks_total_add ks wk owner (src : StatMap) (w : dict (dict StatMap))
  name k :
  NoDup ks ->
  weeks_total
    (dd_mutate [] wk
       (dd_mutate (zeroed ks) owner (fun m => _add_stats m src ks)) w) name k
  = weeks_total w name k + contribution ks owner src name k.
Proof.
  intros ND. unfold weeks_total.
  apply (sum_dd_mutate (fun inner => stat inner name k)).
  - intros inner. now apply stat_dd_add.
  - reflexivity.
Qed.

Lemma nodup_keys_dd_mutate (V : Type) factory k (f : V -> V) (d : dict V) :
  NoDup (keys d) -> NoDup (keys (dd_mutate factory k f d)).
Proof.
  intros ND. rewrite keys_dd_mutate. destruct (contains k d) eqn:E; [exact ND|].
  apply contains_false_keys in E.
  apply NoDup_app; [exact ND | repeat constructor; tauto |].
  intros x Ix [<-|[]]. contradiction.
Qed.

Lemma add_player_balanced wk b item :
  balanced b -> balanced (add_player wk b item).
Proof.
  destruct item as [pname pstats]. intros (Hp & Ht & Np & Nt).
  unfold add_player, balanced.
  cbn [weekly_players weekly_teams season_players season_teams].
  repeat split; try assumption.
  - intros name key.
    rewrite stat_dd_add, weeks_total_add by apply schema_keys_nodup.
    now rewrite Hp.
  - now apply nodup_keys_dd_mutate.
Qed.

Lemma add_team_balanced wk b item :
  balanced b -> balanced (add_team wk b item).
Proof.
  destruct item as [tname tstats]. intros (Hp & Ht & Np & Nt).
  unfold add_team, balanced.
  cbn [weekly_players weekly_teams season_players season_teams].
  repeat split; try assumption.
  - intros name key.
    rewrite stat_dd_add, weeks_total_add by apply schema_keys_nodup.
    now rewrite Ht.
  - now apply nodup_keys_dd_mutate.
Qed.

Lemma fold_balanced (step : Buckets -> string * StatMap -> Buckets) items b :
  (forall b item, balanced b -> balanced (step b item)) ->
  balanced b -> balanced (fold_left step items b).
Proof.
  intros Hstep. revert b. induction items as [|item items IH]; intros b Hb.
  - exact Hb.
  - simpl. apply IH, Hstep, Hb.
Qed.

Lemma merge_series_balanced b series b' :
  merge_series b series = Ok b' -> balanced b -> balanced b'.
Proof.
  unfold merge_series.
  destruct (Summary.date series) as [date|]; [|intros [= <-]; tauto].
  destruct (String.eqb date ""); [intros [= <-]; tauto|].
  destruct (_iso_week_key date) as [wk|e]; [|discriminate].
  intros [= <-] Hb.
  apply fold_balanced; [apply add_team_balanced|].
  apply fold_balanced; [apply add_player_balanced | exact Hb].
Qed.

Lemma merge_loop_balanced summaries b b' :
  merge_loop b summaries = Ok b' -> balanced b -> balanced b'.
Proof.
  revert b. induction summaries as [|s summaries IH]; intros b; simpl.
  - intros [= <-]. tauto.
  - destruct (merge_series b s) as [b1|e] eqn:E; [|discriminate].
    intros H Hb. apply (IH b1 H). eapply merge_series_balanced; eauto.
Qed.

Lemma empty_buckets_balanced : balanced empty_buckets.
Proof.
  repeat split; try constructor.
Qed.

Lemma insert_sorted_perm x l : Permutation (insert_sorted x l) (x :: l).
Proof.
  induction l as [|y l IH]; simpl; [reflexivity|].
  destruct (String.leb x y); [reflexivity|].
  rewrite IH. apply perm_swap.
Qed.

Lemma sorted_perm l : Permutation (sorted l) l.
Proof.
  induction l as [|x l IH]; simpl; [reflexivity|].
  rewrite insert_sorted_perm. now constructor.
Qed.

Lemma fold_setitem_fresh (V : Type) (g : string -> V) ks (acc : dict V) :
  NoDup ks -> (forall k, In k ks -> ~ In k (keys acc)) ->
  fold_left (fun acc k => setitem k (g k) acc) ks acc
  = acc ++ map (fun k => (k, g k)) ks.
Proof.
  intros ND. revert acc. induction ND as [|k ks Hn ND IH]; intros acc Hfresh.
  - simpl. now rewrite app_nil_r.
  - simpl. rewrite IH.
    + assert (E : setitem k (g k) acc = acc ++ [(k, g k)]).
      { clear IH. assert (N : ~ In k (keys acc)) by (apply Hfresh; now left).
        induction acc as [|[k' v'] r IHr]; simpl; [reflexivity|].
        destruct (String.eqb_spec k k') as [->|Hne].
        - exfalso. apply N. now left.
        - f_equal. apply IHr.
          + intros k0 I0 I1. apply (Hfresh k0 I0). now right.
          + intros I. apply N. now right. }
      rewrite E, <- app_assoc. reflexivity.
    + intros k0 I0 I1. apply in_keys_setitem in I1. destruct I1 as [->|I1].
      * contradiction.
      * apply (Hfresh k0); [now right | exact I1].
Qed.

Lemma finalize_weekly_map b :
  NoDup (keys (weekly_players b)) ->
  finalize_weekly b
  = map (fun wk =>
           (wk, Totals.mk (get_or (weekly_players b) wk [])
                          (get_or (weekly_teams b) wk [])))
      (sorted (keys (weekly_players b))).
Proof.
  intros ND. unfold finalize_weekly.
  rewrite (fold_setitem_fresh
             (fun wk => Totals.mk (get_or (weekly_players b) wk [])
                                  (get_or (weekly_teams b) wk []))).
  - reflexivity.
  - eapply Permutation_NoDup; [symmetry; apply sorted_perm | exact ND].
  - intros k _ [].
Qed.

Lemma sumZ_perm l l' : Permutation l l' -> sumZ l = sumZ l'.
Proof.
  induction 1; simpl; lia.
Qed.

Lemma sumZ_app l l' : sumZ (l ++ l') = sumZ l + sumZ l'.
Proof.
  induction l as [|x l IH]; simpl; lia.
Qed.

(** Summing over a duplicate-free list of keys that covers the dictionary
    is summing over the dictionary, when a missing key counts for
    nothing. *)
Lemma sum_over_keys (V : Type) (G : V -> Z) (dflt : V) (d : dict V) :
  G dflt = 0 -> NoDup (keys d) ->
  forall ks, NoDup ks -> incl (keys d) ks ->
  sumZ (map (fun k => G (get_or d k dflt)) ks)
  = sumZ (map (fun e => G (snd e)) d).
Proof.
  intros H0. induction d as [|[k0 v0] d IH]; intros ND ks NDks Hincl.
  - simpl. induction ks as [|k ks IHks]; simpl; [reflexivity|].
    unfold get_or at 1. simpl. rewrite H0.
    rewrite IHks; [reflexivity | now inversion NDks | intros x []].
  - inversion ND as [|? ? Hn ND']; subst.
    assert (I0 : In k0 ks) by (apply Hincl; now left).
    destruct (in_split _ _ I0) as (l1 & l2 & ->).
    assert (P : Permutation (l1 ++ k0 :: l2) (k0 :: l1 ++ l2))
      by (symmetry; apply Permutation_middle).
    rewrite (sumZ_perm (Permutation_map _ P)). simpl.
    unfold get_or at 1. simpl. rewrite String.eqb_refl. f_equal.
    assert (NDks' : NoDup (k0 :: l1 ++ l2))
      by (eapply Permutation_NoDup; eauto).
    inversion NDks' as [|? ? Hn' ND'']; subst.
    rewrite <- (IH ND' (l1 ++ l2) ND'').
    + f_equal. apply map_ext_in. intros k Ik.
      unfold get_or. simpl.
      destruct (String.eqb_spec k k0) as [->|Hne]; [contradiction | reflexivity].
    + intros k Ik.
      assert (Ik' : In k (l1 ++ k0 :: l2)) by (apply Hincl; now right).
      apply in_app_iff in Ik'. apply in_app_iff.
      destruct Ik' as [Ik'|[<-|Ik']]; auto. contradiction.
Qed.

Lemma weeks_sum_players b name key :
  NoDup (keys (weekly_players b)) ->
  weeks_sum Totals.players (finalize_weekly b) name key
  = weeks_total (weekly_players b) name key.
Proof.
  intros ND. rewrite finalize_weekly_map by assumption.
  unfold weeks_sum, weeks_total. rewrite map_map. cbn [snd Totals.players].
  apply (sum_over_keys (fun inner => stat inner name key) []).
  - reflexivity.
  - exact ND.
  - eapply Permutation_NoDup; [symmetry; apply sorted_perm | exact ND].
  - intros k Ik. eapply Permutation_in; [symmetry; apply sorted_perm | exact Ik].
Qed.

Lemma weeks_sum_teams b name key :
  NoDup (keys (weekly_players b)) -> NoDup (keys (weekly_teams b)) ->
  incl (keys (weekly_teams b)) (keys (weekly_players b)) ->
  weeks_sum Totals.teams (finalize_weekly b) name key
  = weeks_total (weekly_teams b) name key.
Proof.
  intros NDp NDt Hincl. rewrite finalize_weekly_map by assumption.
  unfold weeks_sum, weeks_total. rewrite map_map. cbn [snd Totals.teams].
  apply (sum_over_keys (fun inner => stat inner name key) []).
  - reflexivity.
  - exact NDt.
  - eapply Permutation_NoDup; [symmetry; apply sorted_perm | exact NDp].
  - intros k Ik. eapply Permutation_in; [symmetry; apply sorted_perm|].
    now apply Hincl.
Qed.

(** For players the equivalence of the spec holds on every input. *)
Lemma season_is_sum_of_weeks_players root weekly season name key :
  merge_all root = Ok (weekly, season) ->
  stat (Totals.players season) name key
  = weeks_sum Totals.players weekly name key.
Proof.
  unfold merge_all.
  destruct (merge_loop empty_buckets (_scan_series_summaries root))
    as [b|e] eqn:E; [|discriminate].
  intros [= <- <-]. cbn [Totals.players].
  destruct (@merge_loop_balanced _ _ _ E empty_buckets_balanced)
    as (Hp & _ & Np & _).
  rewrite weeks_sum_players by assumption. apply Hp.
Qed.

Lemma fold_add_player_weeks wk items b :
  weekly_teams (fold_left (add_player wk) items b) = weekly_teams b
  /\ forall k,
       In k (keys (weekly_players (fold_left (add_player wk) items b)))
       <-> (k = wk /\ items <> []) \/ In k (keys (weekly_players b)).
Proof.
  revert b. induction items as [|[pname pstats] items IH]; intros b.
  - simpl. split; [reflexivity|]. intros k. split; [tauto|].
    intros [[_ H]|H]; [congruence | exact H].
  - cbn [fold_left]. destruct (IH (add_player wk b (pname, pstats))) as [Ht Hp].
    split; [rewrite Ht; reflexivity|].
    intros k. rewrite Hp. cbn [add_player weekly_players].
    rewrite in_keys_dd_mutate. split.
    + intros [[-> _]|[->|H]]; [left | left | right]; try split;
        try reflexivity; try discriminate; exact H.
    + intros [[-> _]|H]; [right; now left | right; now right].
Qed.

Lemma fold_add_team_weeks wk items b :
  weekly_players (fold_left (add_team wk) items b) = weekly_players b
  /\ forall k,
       In k (keys (weekly_teams (fold_left (add_team wk) items b)))
       <-> (k = wk /\ items <> []) \/ In k (keys (weekly_teams b)).
Proof.
  revert b. induction items as [|[tname tstats] items IH]; intros b.
  - simpl. split; [reflexivity|]. intros k. split; [tauto|].
    intros [[_ H]|H]; [congruence | exact H].
  - cbn [fold_left]. destruct (IH (add_team wk b (tname, tstats))) as [Hp Ht].
    split; [rewrite Hp; reflexivity|].
    intros k. rewrite Ht. cbn [add_team weekly_teams].
    rewrite in_keys_dd_mutate. split.
    + intros [[-> _]|[->|H]]; [left | left | right]; try split;
        try reflexivity; try discriminate; exact H.
    + intros [[-> _]|H]; [right; now left | right; now right].
Qed.

Lemma merge_series_covered b series b' :
  merge_series b series = Ok b' ->
  teams_come_with_players series = true ->
  weeks_covered b -> weeks_covered b'.
Proof.
  unfold merge_series, teams_come_with_players, is_dated, lists_teams,
    lists_players.
  destruct (Summary.date series) as [date|]; [|intros [= <-]; tauto].
  destruct (String.eqb date ""); [intros [= <-]; tauto|].
  destruct (_iso_week_key date) as [wk|e]; [|discriminate].
  intros [= <-] Hcome Hcov. cbn [negb orb] in Hcome.
  set (pb := match Summary.players series with Some p => p | None => [] end).
  set (tb := match Summary.teams series with Some t => t | None => [] end).
  destruct (fold_add_player_weeks wk pb b) as [Ht1 Hp1].
  destruct (fold_add_team_weeks wk tb (fold_left (add_player wk) pb b))
    as [Hp2 Ht2].
  unfold weeks_covered. rewrite Hp2. intros k Ik.
  apply Ht2 in Ik. rewrite Ht1 in Ik. apply Hp1.
  destruct Ik as [[-> Hne]|Ik].
  - left. split; [reflexivity|].
    subst pb tb. destruct (Summary.teams series) as [[|? ?]|];
      try congruence.
    destruct (Summary.players series) as [[|? ?]|]; discriminate.
  - right. now apply Hcov.
Qed.

Lemma merge_loop_covered summaries b b' :
  merge_loop b summaries = Ok b' ->
  Forall (fun s => teams_come_with_players s = true) summaries ->
  weeks_covered b -> weeks_covered b'.
Proof.
  revert b. induction summaries as [|s summaries IH]; intros b; simpl.
  - intros [= <-]. tauto.
  - destruct (merge_series b s) as [b1|e] eqn:E; [|discriminate].
    intros H Hall Hb. inversion Hall as [|? ? Hs Hrest]; subst.
    apply (IH b1 H Hrest). eapply merge_series_covered; eauto.
Qed.

(** For teams the equivalence holds when every dated summary that names a
    team names a player too. *)
Lemma season_is_sum_of_weeks_teams root weekly season name key :
  merge_all root = Ok (weekly, season) ->
  Forall (fun s => teams_come_with_players s = true)
    (_scan_series_summaries root) ->
  stat (Totals.teams season) name key
  = weeks_sum Totals.teams weekly name key.
Proof.
  unfold merge_all.
  destruct (merge_loop empty_buckets (_scan_series_summaries root))
    as [b|e] eqn:E; [|discriminate].
  intros [= <- <-] Hall. cbn [Totals.teams].
  destruct (@merge_loop_balanced _ _ _ E empty_buckets_balanced)
    as (_ & Ht & Np & Nt).
  rewrite weeks_sum_teams; try assumption; [apply Ht|].
  eapply merge_loop_covered; [exact E | exact Hall | intros k []].
Qed.

(* ------------------------------------------------------------------ *)
(** ** Which weeks and teams the weekly output reports *)

Lemma weekly_add_keeps ks wk wk0 owner (src : StatMap)
  (w : dict (dict StatMap)) x :
  In x (keys (get_or w wk0 [])) ->
  In x (keys (get_or
                (dd_mutate [] wk
                   (dd_mutate (zeroed ks) owner (fun m => _add_stats m src ks))
                   w) wk0 [])).
Proof.
  intros I. unfold get_or at 1.
  destruct (String.eqb_spec wk wk0) as [->|Hne].
  - rewrite get_dd_mutate_eq. apply in_keys_dd_mutate. now right.
  - rewrite get_dd_mutate_neq by assumption. exact I.
Qed.

Lemma weekly_add_has ks wk owner (src : StatMap) (w : dict (dict StatMap)) :
  In owner
    (keys (get_or
             (dd_mutate [] wk
                (dd_mutate (zeroed ks) owner (fun m => _add_stats m src ks))
                w) wk [])).
Proof.
  unfold get_or at 1. rewrite get_dd_mutate_eq.
  apply in_keys_dd_mutate. now left.
Qed.

Lemma fold_add_team_keeps wk items b wk0 x :
  team_in_week b wk0 x -> team_in_week (fold_left (add_team wk) items b) wk0 x.
Proof.
  revert b. induction items as [|[tname tstats] items IH]; intros b H.
  - exact H.
  - cbn [fold_left]. apply IH. unfold team_in_week, add_team.
    cbn [weekly_teams]. now apply weekly_add_keeps.
Qed.

Lemma fold_add_team_has wk items b tname :
  In tname (keys items) ->
  team_in_week (fold_left (add_team wk) items b) wk tname.
Proof.
  revert b. induction items as [|[t0 s0] items IH]; intros b I.
  - destruct I.
  - cbn [fold_left]. destruct I as [I|I].
    + simpl in I. subst t0. apply fold_add_team_keeps.
      unfold team_in_week, add_team. cbn [weekly_teams].
      apply weekly_add_has.
    + now apply IH.
Qed.

Lemma merge_series_keeps b series b' wk0 :
  merge_series b series = Ok b' ->
  (In wk0 (keys (weekly_players b)) -> In wk0 (keys (weekly_players b')))
  /\ (forall x, team_in_week b wk0 x -> team_in_week b' wk0 x).
Proof.
  unfold merge_series.
  destruct (Summary.date series) as [date|]; [|intros [= <-]; tauto].
  destruct (String.eqb date ""); [intros [= <-]; tauto|].
  destruct (_iso_week_key date) as [wk|e]; [|discriminate].
  intros [= <-].
  set (pb := match Summary.players series with Some p => p | None => [] end).
  set (tb := match Summary.teams series with Some t => t | None => [] end).
  destruct (fold_add_player_weeks wk pb b) as [Ht1 Hp1].
  destruct (fold_add_team_weeks wk tb (fold_left (add_player wk) pb b))
    as [Hp2 Ht2].
  split.
  - intros I. rewrite Hp2. apply Hp1. now right.
  - intros x H. apply fold_add_team_keeps.
    unfold team_in_week in *. now rewrite Ht1.
Qed.

Lemma merge_loop_keeps summaries b b' wk0 :
  merge_loop b summaries = Ok b' ->
  (In wk0 (keys (weekly_players b)) -> In wk0 (keys (weekly_players b')))
  /\ (forall x, team_in_week b wk0 x -> team_in_week b' wk0 x).
Proof.
  revert b. induction summaries as [|s summaries IH]; intros b; simpl.
  - intros [= <-]. tauto.
  - destruct (merge_series b s) as [b1|e] eqn:E; [|discriminate].
    intros H. destruct (@merge_series_keeps _ _ _ wk0 E) as [Kp Kt].
    destruct (IH b1 H) as [Kp' Kt']. split; auto.
Qed.

Lemma merge_series_records b series b' date :
  merge_series b series = Ok b' ->
  Summary.date series = Some date -> date <> "" ->
  exists wk,
    _iso_week_key date = Ok wk
    /\ (lists_players series = true -> In wk (keys (weekly_players b')))
    /\ (forall tname, In tname (keys (teams_block series)) ->
          team_in_week b' wk tname).
Proof.
  unfold merge_series, lists_players, teams_block.
  intros H Hd Hne. rewrite Hd in H.
  destruct (String.eqb_spec date ""); [contradiction|].
  destruct (_iso_week_key date) as [wk|e]; [|discriminate].
  injection H as <-. exists wk. split; [reflexivity|].
  set (pb := match Summary.players series with Some p => p | None => [] end).
  set (tb := match Summary.teams series with Some t => t | None => [] end).
  destruct (fold_add_player_weeks wk pb b) as [Ht1 Hp1].
  destruct (fold_add_team_weeks wk tb (fold_left (add_player wk) pb b))
    as [Hp2 Ht2].
  split.
  - intros Hl. rewrite Hp2. apply Hp1. left. split; [reflexivity|].
    subst pb. destruct (Summary.players series) as [[|? ?]|]; discriminate.
  - intros tname I. now apply fold_add_team_has.
Qed.

Lemma merge_loop_records summaries b b' series date :
  merge_loop b summaries = Ok b' ->
  In series summaries ->
  Summary.date series = Some date -> date <> "" ->
  exists wk,
    _iso_week_key date = Ok wk
    /\ (lists_players series = true -> In wk (keys (weekly_players b')))
    /\ (forall tname, In tname (keys (teams_block series)) ->
          team_in_week b' wk tname).
Proof.
  revert b. induction summaries as [|s summaries IH]; intros b H I Hd Hne.
  - destruct I.
  - simpl in H. destruct (merge_series b s) as [b1|e] eqn:E; [|discriminate].
    destruct I as [Heq|I].
    + subst s. destruct (@merge_series_records _ _ _ _ E Hd Hne) as (wk & Hwk & Hp & Ht).
      exists wk. destruct (@merge_loop_keeps _ _ _ wk H) as [Kp Kt].
      split; [exact Hwk|]. split; auto.
    + now apply (IH b1).
Qed.

Lemma get_map_keys (V : Type) (g : string -> V) ks k :
  get (map (fun k => (k, g k)) ks) k
  = if in_dec string_dec k ks then Some (g k) else None.
Proof.
  induction ks as [|k0 ks IH]; simpl; [reflexivity|].
  destruct (String.eqb_spec k k0) as [->|Hne].
  - destruct (string_dec k0 k0); [reflexivity | congruence].
  - rewrite IH. destruct (string_dec k0 k) as [->|Hn]; [congruence|].
    destruct (in_dec string_dec k ks); reflexivity.
Qed.

(** A week is reported exactly when the player accumulator has it. *)
Lemma get_finalize_weekly b wk :
  NoDup (keys (weekly_players b)) ->
  get (finalize_weekly b) wk
  = if in_dec string_dec wk (keys (weekly_players b))
    then Some (Totals.mk (get_or (weekly_players b) wk [])
                         (get_or (weekly_teams b) wk []))
    else None.
Proof.
  intros ND. rewrite finalize_weekly_map by assumption.
  rewrite (get_map_keys
             (fun wk => Totals.mk (get_or (weekly_players b) wk [])
                                  (get_or (weekly_teams b) wk []))).
  destruct (in_dec string_dec wk (sorted (keys (weekly_players b)))) as [I|N];
    destruct (in_dec string_dec wk (keys (weekly_players b))) as [I'|N'];
    try reflexivity.
  - exfalso. apply N'. eapply Permutation_in; [apply sorted_perm | exact I].
  - exfalso. apply N.
    eapply Permutation_in; [symmetry; apply sorted_perm | exact I'].
Qed.

(** What does hold of C6: a dated record that names a player has its week
    in the weekly output, with each of its teams in the week's teams map,
    under exactly the team schema keys. *)
Lemma dated_record_with_players_is_reported
  root weekly season series date :
  merge_all root = Ok (weekly, season) ->
  In series (_scan_series_summaries root) ->
  Summary.date series = Some date -> date <> "" ->
  lists_players series = true ->
  exists wk entry,
    _iso_week_key date = Ok wk
    /\ get weekly wk = Some entry
    /\ forall tname, In tname (keys (teams_block series)) ->
         exists m, get (Totals.teams entry) tname = Some m
                   /\ keys m = TEAM_STAT_KEYS.
Proof.
  intros Hm I Hd Hne Hl.
  pose proof (@merge_all_schema _ _ _ Hm) as [_ Hschema].
  unfold merge_all in Hm.
  destruct (merge_loop empty_buckets (_scan_series_summaries root))
    as [b|e] eqn:E; [|discriminate].
  injection Hm as <- <-.
  destruct (@merge_loop_records _ _ _ _ _ E I Hd Hne) as (wk & Hwk & Hp & Ht).
  destruct (@merge_loop_balanced _ _ _ E empty_buckets_balanced)
    as (_ & _ & Np & _).
  exists wk. eexists. split; [exact Hwk|].
  assert (G := @get_finalize_weekly b wk Np).
  destruct (in_dec string_dec wk (keys (weekly_players b))) as [_|N];
    [|exfalso; apply N, Hp, Hl].
  split; [exact G|].
  intros tname It. specialize (Ht tname It). unfold team_in_week in Ht.
  cbn [Totals.teams].
  destruct (get (get_or (weekly_teams b) wk []) tname) as [m|] eqn:Em.
  - exists m. split; [reflexivity|].
    apply get_in in G. rewrite Forall_forall in Hschema.
    destruct (Hschema _ G) as [_ Hteams]. cbn [snd Totals.teams] in Hteams.
    unfold schema_maps in Hteams. rewrite Forall_forall in Hteams.
    apply (Hteams (tname, m)). now apply get_in.
  - exfalso. apply get_none_keys in Em. contradiction.
Qed.

(** The teams equivalence, used on a root whose records all name players. *)
Example season_is_sum_of_weeks_teams_run :
  let first :=
    Summary.mk (Some "2025-06-02") (Some [("Ana", [("points", 10); ("sinks", 2)])])
      (Some [("Aces", [("total_points", 10)])]) [] in
  let second :=
    Summary.mk (Some "2025-06-09") (Some [("Ana", [("points", 4); ("sinks", 1)])])
      (Some [("Aces", [("total_points", 4)])]) [] in
  let root := Some [ ("A", Directory (Some (Json first)));
                     ("B", Directory (Some (Json second))) ] in
  exists weekly season,
    merge_all root = Ok (weekly, season)
    /\ keys weekly = ["2025-W23"; "2025-W24"]
    /\ stat (Totals.players season) "Ana" "points" = 14
    /\ stat (Totals.players season) "Ana" "sinks" = 3
    /\ stat (Totals.players season) "Ana" "rim_hits" = 0
    /\ stat (Totals.teams season) "Aces" "total_points"
       = weeks_sum Totals.teams weekly "Aces" "total_points".
Proof.
  intros first second root.
  destruct (merge_all root) as [[weekly season]|e] eqn:E;
    [|vm_compute in E; discriminate].
  exists weekly, season. split; [reflexivity|].
  split; [vm_compute in E; injection E as <- _; reflexivity|].
  split; [vm_compute in E; injection E as _ <-; reflexivity|].
  split; [vm_compute in E; injection E as _ <-; reflexivity|].
  split; [vm_compute in E; injection E as _ <-; reflexivity|].
  apply (@season_is_sum_of_weeks_teams root weekly season "Aces" "total_points" E).
  vm_compute. repeat constructor.
Qed.

(* ------------------------------------------------------------------ *)
(** ** The batch run keeps the registry on the schema *)

(** After a batch run, the registry entry of every player and team of the
    season totals has exactly the schema keys. *)
Lemma main_writes_schema_maps root st st' printed weekly season name :
  main root st = Ok (st', printed) ->
  merge_all root = Ok (weekly, season) ->
  (In name (keys (Totals.players season)) ->
   exists m, get (fst (load_registry st')) name = Some m
             /\ keys m = PLAYER_STAT_KEYS)
  /\ (In name (keys (Totals.teams season)) ->
      exists e, get (snd (load_registry st')) name = Some e
                /\ keys (TeamEntry.lifetime_stats e) = TEAM_STAT_KEYS).
Proof.
  intros Hmain Hmerge.
  destruct (@merge_all_schema _ _ _ Hmerge) as [[Hp Ht] _].
  unfold main in Hmain. rewrite Hmerge in Hmain. unfold write_outputs in Hmain.
  destruct (update_registry_from_totals (Totals.players season)
              (Totals.teams season) true st) as [st1 [pu tu]] eqn:U.
  injection Hmain as <- _.
  assert (Est : st1 = fst (update_registry_from_totals (Totals.players season)
                             (Totals.teams season) true st))
    by (now rewrite U).
  rewrite Est. split; intros I.
  - destruct (@reconciled_players (Totals.players season)
                (Totals.teams season) true st name I)
      as (m & Hm & _ & _ & Hexact).
    exists m. split; [exact Hm|]. apply Hexact.
    intros t It. apply in_given_for in It.
    unfold schema_maps in Hp. rewrite Forall_forall in Hp.
    pose proof (Hp _ It) as K. cbn [snd] in K. rewrite K. apply incl_refl.
  - destruct (@reconciled_teams (Totals.players season)
                (Totals.teams season) true st name I)
      as (e & He & _ & _ & Hexact).
    exists e. split; [exact He|]. apply Hexact.
    intros t It. apply in_given_for in It.
    unfold schema_maps in Ht. rewrite Forall_forall in Ht.
    pose proof (Ht _ It) as K. cbn [snd] in K. rewrite K. apply incl_refl.
Qed.

(* ================================================================== *)
(** * Further properties of the aggregator *)

(** ** The week keys of the output are in ascending order *)


Lemma insert_sorted_locally x l :
  LocallySorted leb_true l -> LocallySorted leb_true (insert_sorted x l).
Proof.
  induction 1 as [|a|a b l Hl IH Hab]; simpl.
  - constructor.
  - destruct (String.leb x a) eqn:E.
    + constructor; [constructor | exact E].
    + constructor; [constructor|].
      destruct (String.leb_total x a) as [H|H]; [congruence | exact H].
  - destruct (String.leb x a) eqn:E.
    + constructor; [constructor; assumption | exact E].
    + simpl in IH. destruct (String.leb x b) eqn:E'.
      * constructor; [exact IH|].
        destruct (String.leb_total x a) as [H|H]; [congruence | exact H].
      * constructor; [exact IH | exact Hab].
Qed.

Lemma sorted_locally l : LocallySorted leb_true (sorted l).
Proof.
  induction l as [|x l IH]; simpl; [constructor|].
  now apply insert_sorted_locally.
Qed.

Lemma keys_map_keys (V : Type) (g : string -> V) ks :
  keys (map (fun k => (k, g k)) ks) = ks.
Proof.
  unfold keys. rewrite map_map. simpl. apply map_id.
Qed.

(** X1.  The week keys of the weekly output of merge_all are in ascending
    order (the order of sorted() on the key strings), and no week key occurs
    twice. *)
Theorem weekly_keys_ascending root weekly season :
  merge_all root = Ok (weekly, season) ->
  LocallySorted leb_true (keys weekly) /\ NoDup (keys weekly).
Proof.
  unfold merge_all.
  destruct (merge_loop empty_buckets (_scan_series_summaries root))
    as [b|e] eqn:E; [|discriminate].
  intros [= <- _].
  destruct (@merge_loop_balanced _ _ _ E empty_buckets_balanced)
    as (_ & _ & Np & _).
  rewrite finalize_weekly_map by assumption.
  rewrite (keys_map_keys
             (fun wk => Totals.mk (get_or (weekly_players b) wk [])
                                  (get_or (weekly_teams b) wk []))).
  split; [apply sorted_locally|].
  eapply Permutation_NoDup; [symmetry; apply sorted_perm | exact Np].
Qed.

(** ** A malformed date aborts the batch *)

Lemma merge_series_accepts b s :
  (exists b', merge_series b s = Ok b') <-> date_accepted s = true.
Proof.
  unfold merge_series, date_accepted.
  destruct (Summary.date s) as [date|]; [|split; eauto].
  destruct (String.eqb date ""); [split; eauto|].
  destruct (_iso_week_key date) as [wk|e].
  - split; eauto.
  - split; [intros [b' H]; discriminate | discriminate].
Qed.

Lemma merge_loop_accepts summaries b :
  (exists b', merge_loop b summaries = Ok b')
  <-> forallb date_accepted summaries = true.
Proof.
  revert b. induction summaries as [|s summaries IH]; intros b; simpl.
  - split; eauto.
  - rewrite andb_true_iff, <- (merge_series_accepts b s).
    destruct (merge_series b s) as [b1|e].
    + rewrite <- (IH b1). split; [intros H; split; eauto | tauto].
    + split; [intros [b' H]; discriminate|].
      intros [[b' H] _]. discriminate.
Qed.

Lemma merge_loop_raises summaries b e :
  merge_loop b summaries = Raise e ->
  exists s date,
    In s summaries /\ Summary.date s = Some date /\ date <> ""
    /\ _iso_week_key date = Raise e.
Proof.
  revert b. induction summaries as [|s summaries IH]; intros b; simpl.
  - discriminate.
  - destruct (merge_series b s) as [b1|e1] eqn:E.
    + intros H. destruct (IH b1 H) as (s' & date & I & Hd & Hne & Hk).
      exists s', date. repeat split; try assumption. now right.
    + intros [= <-]. unfold merge_series in E.
      destruct (Summary.date s) as [date|] eqn:Hd; [|discriminate].
      destruct (String.eqb_spec date ""); [discriminate|].
      destruct (_iso_week_key date) as [wk|e2] eqn:Hk; [discriminate|].
      injection E as <-. exists s, date. repeat split; try assumption.
      now left.
Qed.

Lemma merge_all_accepts root :
  (exists out, merge_all root = Ok out)
  <-> forallb date_accepted (_scan_series_summaries root) = true.
Proof.
  unfold merge_all.
  rewrite <- (merge_loop_accepts (_scan_series_summaries root) empty_buckets).
  destruct (merge_loop empty_buckets (_scan_series_summaries root)) as [b|e].
  - split; eauto.
  - split; [intros [out H]; discriminate | intros [b' H]; discriminate].
Qed.

(** ** Totals are sums over the scanned records *)

Lemma stat_week_add ks wk wk0 owner (src : StatMap) (w : dict (dict StatMap))
  name key :
  NoDup ks ->
  stat (get_or
          (dd_mutate [] wk
             (dd_mutate (zeroed ks) owner (fun m => _add_stats m src ks)) w)
          wk0 []) name key
  = stat (get_or w wk0 []) name key
    + (if String.eqb wk wk0 then contribution ks owner src name key else 0).
Proof.
  intros ND.
  destruct (String.eqb_spec wk wk0) as [->|Hne].
  - unfold get_or at 1. rewrite get_dd_mutate_eq. now apply stat_dd_add.
  - unfold get_or. rewrite get_dd_mutate_neq by assumption.
    now rewrite Z.add_0_r.
Qed.

Lemma fold_add_player_totals wk items b name key :
  let b' := fold_left (add_player wk) items b in
  season_teams b' = season_teams b
  /\ weekly_teams b' = weekly_teams b
  /\ stat (season_players b') name key
     = stat (season_players b) name key
       + block_total PLAYER_STAT_KEYS items name key
  /\ forall wk0,
       stat (get_or (weekly_players b') wk0 []) name key
       = stat (get_or (weekly_players b) wk0 []) name key
         + (if String.eqb wk wk0
            then block_total PLAYER_STAT_KEYS items name key else 0).
Proof.
  revert b. induction items as [|[pname pstats] items IH]; intros b; cbv zeta.
  - unfold block_total. simpl. repeat split; try lia.
    intros wk0. destruct (String.eqb wk wk0); lia.
  - cbn [fold_left].
    destruct (IH (add_player wk b (pname, pstats))) as (H1 & H2 & H3 & H4).
    rewrite H1, H2, H3. cbn [add_player season_teams weekly_teams
      season_players weekly_players].
    repeat split.
    + rewrite stat_dd_add by apply schema_keys_nodup.
      unfold block_total. simpl. lia.
    + intros wk0. rewrite H4. cbn [add_player weekly_players].
      rewrite stat_week_add by apply schema_keys_nodup.
      unfold block_total. simpl. destruct (String.eqb wk wk0); lia.
Qed.

Lemma fold_add_team_totals wk items b name key :
  let b' := fold_left (add_team wk) items b in
  season_players b' = season_players b
  /\ weekly_players b' = weekly_players b
  /\ stat (season_teams b') name key
     = stat (season_teams b) name key
       + block_total TEAM_STAT_KEYS items name key
  /\ forall wk0,
       stat (get_or (weekly_teams b') wk0 []) name key
       = stat (get_or (weekly_teams b) wk0 []) name key
         + (if String.eqb wk wk0
            then block_total TEAM_STAT_KEYS items name key else 0).
Proof.
  revert b. induction items as [|[tname tstats] items IH]; intros b; cbv zeta.
  - unfold block_total. simpl. repeat split; try lia.
    intros wk0. destruct (String.eqb wk wk0); lia.
  - cbn [fold_left].
    destruct (IH (add_team wk b (tname, tstats))) as (H1 & H2 & H3 & H4).
    rewrite H1, H2, H3. cbn [add_team season_teams weekly_teams
      season_players weekly_players].
    repeat split.
    + rewrite stat_dd_add by apply schema_keys_nodup.
      unfold block_total. simpl. lia.
    + intros wk0. rewrite H4. cbn [add_team weekly_teams].
      rewrite stat_week_add by apply schema_keys_nodup.
      unfold block_total. simpl. destruct (String.eqb wk wk0); lia.
Qed.




Lemma merge_series_tallies b s b' wk0 name key :
  merge_series b s = Ok b' ->
  tallies b' wk0 name key
  = add4 (tallies b wk0 name key) (record_tallies s wk0 name key).
Proof.
  unfold merge_series, record_tallies, is_dated, in_week, week_of,
    players_block, teams_block, tallies, add4.
  destruct (Summary.date s) as [date|];
    [|intros [= <-]; f_equal; [f_equal; [f_equal|]|]; lia].
  destruct (String.eqb date "");
    [intros [= <-]; cbn [negb]; f_equal; [f_equal; [f_equal|]|]; lia|].
  destruct (_iso_week_key date) as [wk|e]; [|discriminate].
  intros [= <-]. cbn [negb].
  set (pb := match Summary.players s with Some p => p | None => [] end).
  set (tb := match Summary.teams s with Some t => t | None => [] end).
  destruct (fold_add_player_totals wk pb b name key) as (P1 & P2 & P3 & P4).
  destruct (fold_add_team_totals wk tb (fold_left (add_player wk) pb b)
              name key) as (T1 & T2 & T3 & T4).
  rewrite T1, T2, T3, T4, P1, P2, P3, P4.
  reflexivity.
Qed.


Lemma merge_loop_tallies summaries b b' wk0 name key :
  merge_loop b summaries = Ok b' ->
  tallies b' wk0 name key
  = add4 (tallies b wk0 name key) (records_tallies summaries wk0 name key).
Proof.
  revert b. induction summaries as [|s summaries IH]; intros b; simpl.
  - intros [= <-]. unfold tallies, records_tallies, records_total, add4.
    simpl. f_equal; [f_equal; [f_equal|]|]; lia.
  - destruct (merge_series b s) as [b1|e] eqn:E; [|discriminate].
    intros H. rewrite (IH b1 H).
    rewrite (@merge_series_tallies b s b1 wk0 name key E).
    unfold tallies, record_tallies, records_tallies, records_total, add4,
      sumZ.
    simpl. f_equal; [f_equal; [f_equal|]|]; lia.
Qed.

Lemma empty_tallies wk0 name key :
  tallies empty_buckets wk0 name key = (0, 0, 0, 0).
Proof. reflexivity. Qed.

Lemma merge_all_sums root weekly season name key :
  merge_all root = Ok (weekly, season) ->
  (stat (Totals.players season) name key
   = records_total is_dated PLAYER_STAT_KEYS players_block
       (_scan_series_summaries root) name key
   /\ stat (Totals.teams season) name key
      = records_total is_dated TEAM_STAT_KEYS teams_block
          (_scan_series_summaries root) name key)
  /\ forall wk entry,
       get weekly wk = Some entry ->
       stat (Totals.players entry) name key
       = records_total (in_week wk) PLAYER_STAT_KEYS players_block
           (_scan_series_summaries root) name key
       /\ stat (Totals.teams entry) name key
          = records_total (in_week wk) TEAM_STAT_KEYS teams_block
              (_scan_series_summaries root) name key.
Proof.
  unfold merge_all.
  destruct (merge_loop empty_buckets (_scan_series_summaries root))
    as [b|e] eqn:E; [|discriminate].
  intros [= <- <-]. cbn [Totals.players Totals.teams]. split.
  - pose proof (@merge_loop_tallies _ _ _ "" name key E) as H.
    rewrite empty_tallies in H. unfold tallies, records_tallies, add4 in H.
    injection H as H1 H2 _ _. split; [rewrite H1 | rewrite H2]; reflexivity.
  - intros wk entry G.
    destruct (@merge_loop_balanced _ _ _ E empty_buckets_balanced)
      as (_ & _ & Np & _).
    rewrite get_finalize_weekly in G by assumption.
    destruct (in_dec string_dec wk (keys (weekly_players b))); [|discriminate].
    injection G as <-. cbn [Totals.players Totals.teams].
    pose proof (@merge_loop_tallies _ _ _ wk name key E) as H.
    rewrite empty_tallies in H. unfold tallies, records_tallies, add4 in H.
    injection H as _ _ H3 H4. split; [rewrite H3 | rewrite H4]; reflexivity.
Qed.

(** X3.  For every name and stat key, the season total of merge_all is the
    sum, over the scanned summaries with a non-empty date, of what the
    players block (for teams: the teams block) of the summary gives that
    name under that key; only keys of the schema count, and a key the block
    lacks counts 0. *)
Theorem season_totals_sum_records root weekly season name key :
  merge_all root = Ok (weekly, season) ->
  stat (Totals.players season) name key
  = records_total is_dated PLAYER_STAT_KEYS players_block
      (_scan_series_summaries root) name key
  /\ stat (Totals.teams season) name key
     = records_total is_dated TEAM_STAT_KEYS teams_block
         (_scan_series_summaries root) name key.
Proof.
  intros H. destruct (@merge_all_sums _ _ _ name key H) as [S _]. exact S.
Qed.

(** X4.  For a week key of the weekly output, the week's total of every name
    and stat key is the sum, over the scanned summaries whose date falls in
    that week, of what the players block (for teams: the teams block) gives
    that name under that key, schema keys only. *)
Theorem week_totals_sum_records root weekly season wk entry name key :
  merge_all root = Ok (weekly, season) ->
  get weekly wk = Some entry ->
  stat (Totals.players entry) name key
  = records_total (in_week wk) PLAYER_STAT_KEYS players_block
      (_scan_series_summaries root) name key
  /\ stat (Totals.teams entry) name key
     = records_total (in_week wk) TEAM_STAT_KEYS teams_block
         (_scan_series_summaries root) name key.
Proof.
  intros H G. destruct (@merge_all_sums _ _ _ name key H) as [_ W].
  now apply W.
Qed.

(** ** One key per Monday-to-Sunday week *)

Lemma days_before_year_mono a b :
  a <= b -> _days_before_year a <= _days_before_year b.
Proof.
  intros H. unfold _days_before_year. cbv zeta.
  Z.div_mod_to_equations. lia.
Qed.

Lemma iso8601_week_unique ord y w y' w' :
  iso8601_week ord y w -> iso8601_week ord y' w' -> y = y' /\ w = w'.
Proof.
  unfold iso8601_week. cbv zeta. rewrite !jan1_ord.
  intros [[L U] W] [[L' U'] W'].
  assert (E : y = y').
  { destruct (Z.lt_trichotomy y y') as [H|[H|H]]; [|exact H|].
    - pose proof (@days_before_year_mono (y + 1) y'). lia.
    - pose proof (@days_before_year_mono (y' + 1) y). lia. }
  subst y'. split; [reflexivity | congruence].
Qed.

Lemma str_inj a b : str a = str b -> a = b.
Proof.
  unfold str. intros H.
  assert (I : forall z,
    NilZero.int_of_string (NilZero.string_of_int (Z.to_int z))
    = Some (Z.to_int z)).
  { intros z. apply NilZero.isi; destruct z; simpl; try discriminate;
      intros [= E]; now apply DecimalPos.Unsigned.to_uint_nonnil in E. }
  pose proof (I a) as Ia. rewrite H, I in Ia. injection Ia as E.
  rewrite <- (DecimalZ.of_to a), <- (DecimalZ.of_to b). now rewrite E.
Qed.

Lemma format_02d_two_digits n :
  1 <= n <= 53 ->
  exists a b a' b',
    format_02d n = String a (String b "")
    /\ digit_of a = Some a' /\ digit_of b = Some b'
    /\ 10 * a' + b' = n.
Proof.
  intros Hn.
  assert (A : forallb
                (fun k =>
                   match format_02d (Z.of_nat k) with
                   | String a (String b "") =>
                       match digit_of a, digit_of b with
                       | Some a', Some b' => 10 * a' + b' =? Z.of_nat k
                       | _, _ => false
                       end
                   | _ => false
                   end)
                (seq 1 53) = true) by (vm_compute; reflexivity).
  rewrite forallb_forall in A.
  specialize (A (Z.to_nat n)). rewrite Z2Nat.id in A by lia.
  assert (I : In (Z.to_nat n) (seq 1 53)) by (apply in_seq; lia).
  specialize (A I).
  destruct (format_02d n) as [|a [|b [|? ?]]]; try discriminate.
  destruct (digit_of a) as [a'|] eqn:Ea; try discriminate.
  destruct (digit_of b) as [b'|] eqn:Eb; try discriminate.
  apply Z.eqb_eq in A.
  exists a, b, a', b'. repeat split; assumption.
Qed.

Lemma format_02d_inj a b :
  1 <= a <= 53 -> 1 <= b <= 53 -> format_02d a = format_02d b -> a = b.
Proof.
  intros Ha Hb H.
  destruct (@format_02d_two_digits a Ha) as (x1 & x2 & v1 & v2 & S1 & D1 & D2 & E1).
  destruct (@format_02d_two_digits b Hb) as (y1 & y2 & w1 & w2 & S2 & D3 & D4 & E2).
  rewrite S1, S2 in H. injection H as <- <-.
  rewrite D1 in D3. rewrite D2 in D4. injection D3 as <-. injection D4 as <-.
  lia.
Qed.

Lemma append_inj_suffix (a a' b b' : string) :
  String.length b = String.length b' ->
  (a ++ b)%string = (a' ++ b')%string -> a = a' /\ b = b'.
Proof.
  revert a'. induction a as [|c a IH]; intros [|c' a'] Hlen H; simpl in H.
  - now split.
  - exfalso. rewrite H in Hlen. simpl in Hlen.
    rewrite string_length_append in Hlen. lia.
  - exfalso. rewrite <- H in Hlen. simpl in Hlen.
    rewrite string_length_append in Hlen. lia.
  - injection H as -> H. destruct (IH a' Hlen H) as [-> ->]. now split.
Qed.

Lemma week_key_inj y w y' w' :
  1 <= w <= 53 -> 1 <= w' <= 53 ->
  (str y ++ "-W" ++ format_02d w)%string
  = (str y' ++ "-W" ++ format_02d w')%string ->
  y = y' /\ w = w'.
Proof.
  intros Hw Hw' H.
  apply append_inj_suffix in H.
  - destruct H as [Hy Hs]. simpl in Hs. injection Hs as Hs.
    split; [now apply str_inj | now apply format_02d_inj].
  - simpl. now rewrite !week_two_digits.
Qed.

Lemma iso_week_key_of_date date_str y m d :
  fromisoformat date_str = Ok (y, m, d) ->
  exists iso_year iso_week,
    _iso_week_key date_str
    = Ok (str iso_year ++ "-W" ++ format_02d iso_week)%string
    /\ iso8601_week (_ymd2ord y m d) iso_year iso_week
    /\ 1 <= iso_week <= 53.
Proof.
  intros Hdate.
  destruct (@fromisoformat_valid date_str y m d Hdate) as (Hy & Hm & Hd).
  pose proof (@isocalendar_iso8601 y m d (@ymd2ord_within_year y m d Hm Hd))
    as H.
  unfold _iso_week_key. rewrite Hdate.
  destruct (isocalendar y m d) as [[iso_year iso_week] iso_day].
  destruct H as (Hiso & Hweek & _ & _).
  exists iso_year, iso_week.
  split; [reflexivity|]. split; [exact Hiso | exact Hweek].
Qed.

(** X5.  Two dates that fromisoformat accepts get the same key from
    _iso_week_key exactly when they lie in the same Monday-to-Sunday week
    (their weeks start on the same Monday), also across a year boundary. *)
Theorem same_week_same_key s1 y1 m1 d1 s2 y2 m2 d2 :
  fromisoformat s1 = Ok (y1, m1, d1) ->
  fromisoformat s2 = Ok (y2, m2, d2) ->
  (_iso_week_key s1 = _iso_week_key s2
   <-> monday_of_week (_ymd2ord y1 m1 d1) = monday_of_week (_ymd2ord y2 m2 d2)).
Proof.
  intros H1 H2.
  destruct (iso_week_key_of_date _ H1) as (Y1 & W1 & K1 & I1 & R1).
  destruct (iso_week_key_of_date _ H2) as (Y2 & W2 & K2 & I2 & R2).
  rewrite K1, K2. split.
  - intros [= E]. apply week_key_inj in E; try assumption.
    destruct E as [<- <-].
    unfold iso8601_week, thursday_of_week, monday_of_week, weekday in *.
    cbv zeta in *. rewrite !jan1_ord in *.
    destruct I1 as [[L1 U1] E1]. destruct I2 as [[L2 U2] E2].
    generalize dependent (_days_before_year Y1).
    generalize dependent (_days_before_year (Y1 + 1)).
    generalize dependent (_ymd2ord y1 m1 d1).
    generalize dependent (_ymd2ord y2 m2 d2).
    intros. Z.div_mod_to_equations. lia.
  - intros E.
    assert (I2' : iso8601_week (_ymd2ord y1 m1 d1) Y2 W2).
    { unfold iso8601_week, thursday_of_week, monday_of_week in *.
      now rewrite E. }
    destruct (iso8601_week_unique I1 I2') as [-> ->]. reflexivity.
Qed.

(* ================================================================== *)
(** * Further properties of the batch run *)

Lemma setitem_middle (V : Type) (pre post : dict V) k v v0 :
  ~ In k (keys pre) ->
  setitem k v (pre ++ (k, v0) :: post) = pre ++ (k, v) :: post.
Proof.
  induction pre as [|[k' w] pre IH]; intros N; simpl.
  - now rewrite String.eqb_refl.
  - destruct (String.eqb_spec k k') as [->|Hne].
    + exfalso. apply N. now left.
    + f_equal. apply IH. intros I. apply N. now right.
Qed.

Lemma overlay_same_keys (pre m d : StatMap) :
  keys d = keys m -> NoDup (keys (pre ++ m)) ->
  fold_left (fun acc kv => setitem (fst kv) (int (snd kv)) acc) m (pre ++ d)
  = pre ++ m.
Proof.
  revert pre d. induction m as [|[k v] m IH]; intros pre d Hk ND.
  - destruct d; [reflexivity | discriminate].
  - destruct d as [|[k0 v0] d]; [discriminate|].
    simpl in Hk. injection Hk as -> Hk. cbn [fold_left fst snd].
    unfold keys in ND. rewrite map_app in ND. simpl in ND.
    rewrite setitem_middle
      by (intros I; apply NoDup_remove_2 in ND; apply ND, in_or_app; now left).
    change (int v) with v.
    replace (pre ++ (k, v) :: d) with ((pre ++ [(k, v)]) ++ d)
      by (rewrite <- app_assoc; reflexivity).
    replace (pre ++ (k, v) :: m) with ((pre ++ [(k, v)]) ++ m)
      by (rewrite <- app_assoc; reflexivity).
    apply (IH (pre ++ [(k, v)]) d); [exact Hk|].
    unfold keys. rewrite !map_app. simpl. now rewrite <- app_assoc.
Qed.

Lemma exact_stats_same_keys (defaults m : StatMap) :
  keys m = keys defaults -> NoDup (keys defaults) ->
  exact_stats defaults m = m.
Proof.
  intros Hk ND. unfold exact_stats.
  apply (overlay_same_keys [] m defaults); [now symmetry|].
  simpl. now rewrite Hk.
Qed.

Lemma fold_names_nodup (step : Buckets -> string * StatMap -> Buckets)
  (P : Buckets -> Prop) items b :
  (forall b item, P b -> P (step b item)) -> P b -> P (fold_left step items b).
Proof.
  intros Hstep. revert b. induction items as [|item items IH]; intros b Hb.
  - exact Hb.
  - simpl. apply IH, Hstep, Hb.
Qed.


Lemma merge_loop_names_nodup summaries b b' :
  merge_loop b summaries = Ok b' -> names_nodup b -> names_nodup b'.
Proof.
  revert b. induction summaries as [|s summaries IH]; intros b; simpl.
  - intros [= <-]. tauto.
  - destruct (merge_series b s) as [b1|e] eqn:E; [|discriminate].
    intros H Hb. apply (IH b1 H). clear IH H.
    unfold merge_series in E.
    destruct (Summary.date s) as [date|]; [|injection E as <-; exact Hb].
    destruct (String.eqb date ""); [injection E as <-; exact Hb|].
    destruct (_iso_week_key date) as [wk|e]; [|discriminate].
    injection E as <-.
    apply fold_names_nodup.
    + intros b0 [tname tstats] [Hp Ht]. split; [exact Hp|].
      cbn [add_team season_teams]. now apply nodup_keys_dd_mutate.
    + apply fold_names_nodup; [|exact Hb].
      intros b0 [pname pstats] [Hp Ht]. split; [|exact Ht].
      cbn [add_player season_players]. now apply nodup_keys_dd_mutate.
Qed.

Lemma season_names_nodup root weekly season :
  merge_all root = Ok (weekly, season) ->
  NoDup (keys (Totals.players season)) /\ NoDup (keys (Totals.teams season)).
Proof.
  unfold merge_all.
  destruct (merge_loop empty_buckets (_scan_series_summaries root))
    as [b|e] eqn:E; [|discriminate].
  intros [= _ <-]. cbn [Totals.players Totals.teams].
  apply (@merge_loop_names_nodup _ _ _ E). split; constructor.
Qed.

Lemma main_unfolds root st st' printed :
  main root st = Ok (st', printed) ->
  exists weekly season,
    merge_all root = Ok (weekly, season)
    /\ st' = fst (update_registry_from_totals (Totals.players season)
                    (Totals.teams season) true st).
Proof.
  unfold main, write_outputs.
  destruct (merge_all root) as [[weekly season]|e]; [|discriminate].
  destruct (update_registry_from_totals (Totals.players season)
              (Totals.teams season) true st) as [st1 [pu tu]] eqn:U.
  intros [= <- _]. exists weekly, season. split; [reflexivity|].
  now rewrite U.
Qed.

(** X6.  After a successful batch run the registry holds, for every player
    of the season totals, exactly the season stat map of that player, and
    for every team of the season totals an entry whose lifetime_stats is
    exactly the season stat map of that team. *)
Theorem main_syncs_registry root st st' printed :
  main root st = Ok (st', printed) ->
  exists weekly season,
    merge_all root = Ok (weekly, season)
    /\ (forall name m,
          get (Totals.players season) name = Some m ->
          get (fst (load_registry st')) name = Some m)
    /\ (forall name m,
          get (Totals.teams season) name = Some m ->
          exists e,
            get (snd (load_registry st')) name = Some e
            /\ TeamEntry.lifetime_stats e = m).
Proof.
  intros Hmain.
  destruct (main_unfolds _ _ Hmain) as (weekly & season & Hmerge & ->).
  exists weekly, season. split; [exact Hmerge|].
  destruct (@merge_all_schema _ _ _ Hmerge) as [[Hp Ht] _].
  destruct (season_names_nodup _ Hmerge) as [Np Nt].
  unfold schema_maps in Hp, Ht. rewrite Forall_forall in Hp, Ht.
  split.
  - intros name m G.
    destruct (@overwritten_players (Totals.players season)
                (Totals.teams season) st name (get_some_keys _ _ G))
      as (t & It & Hget).
    rewrite (in_get_nodup _ _ _ Np It) in G. injection G as ->.
    rewrite Hget. f_equal. apply exact_stats_same_keys.
    + apply (Hp _ It).
    + apply schema_keys_nodup.
  - intros name m G.
    destruct (@overwritten_teams (Totals.players season)
                (Totals.teams season) st name (get_some_keys _ _ G))
      as (t & e & It & Hget & Hstats).
    rewrite (in_get_nodup _ _ _ Nt It) in G. injection G as ->.
    exists e. split; [exact Hget|]. rewrite Hstats.
    apply exact_stats_same_keys.
    + apply (Ht _ It).
    + apply schema_keys_nodup.
Qed.

(** X7.  A second batch run over the same series root changes nothing:
    started from the registry the first run left, it leaves the same
    registry and prints the same lines. *)
Theorem main_rerun_is_noop root st st' printed :
  main root st = Ok (st', printed) -> main root st' = Ok (st', printed).
Proof.
  unfold main, write_outputs.
  destruct (merge_all root) as [[weekly season]|e]; [|discriminate].
  rewrite !update_registry_overwrite. intros [= <- <-].
  cbn [players_file teams_file _load_json].
  rewrite (upsert_all_idempotent _default_player_stats overwrite_player)
    by reflexivity.
  rewrite (upsert_all_idempotent new_team_entry overwrite_team)
    by reflexivity.
  reflexivity.
Qed.

(* ================================================================== *)
(** * Further properties of the registry *)

(** ** Deleting a team *)

Lemma get_filter_other (V : Type) (d : dict V) k k' :
  k' <> k ->
  get (filter (fun kv => negb (String.eqb k (fst kv))) d) k' = get d k'.
Proof.
  intros Hne. induction d as [|[k0 v] d IH]; simpl; [reflexivity|].
  destruct (String.eqb_spec k k0) as [->|Hk]; simpl.
  - destruct (String.eqb_spec k' k0); [contradiction | exact IH].
  - destruct (String.eqb k' k0); [reflexivity | exact IH].
Qed.

Lemma get_filter_same (V : Type) (d : dict V) k :
  get (filter (fun kv => negb (String.eqb k (fst kv))) d) k = None.
Proof.
  induction d as [|[k0 v] d IH]; simpl; [reflexivity|].
  destruct (String.eqb_spec k k0) as [->|Hk]; simpl; [exact IH|].
  destruct (String.eqb_spec k k0); [contradiction | exact IH].
Qed.

(** X8.  delete_team of a name that is not registered returns False and
    leaves the store untouched (nothing is saved). Of a registered name it
    returns True and removes that team; every other team entry and the whole
    players registry are as before. *)
Theorem delete_team_removes_only_the_team team_name st :
  let before := load_registry st in
  let out := delete_team team_name st in
  let after := load_registry (fst out) in
  (contains team_name (snd before) = false -> out = (st, false))
  /\ (contains team_name (snd before) = true ->
      snd out = true
      /\ fst after = fst before
      /\ get (snd after) team_name = None
      /\ forall t, t <> team_name -> get (snd after) t = get (snd before) t).
Proof.
  cbv zeta. unfold delete_team, load_registry. cbn [snd].
  destruct (contains team_name (_load_json (teams_file st))) eqn:C.
  - split; [discriminate|]. intros _.
    cbn [fst snd save_registry players_file teams_file _load_json].
    repeat split.
    + apply get_filter_same.
    + intros t Hne. now apply get_filter_other.
  - split; [intros _; reflexivity | discriminate].
Qed.

(** ** Registering a team *)

Lemma ensure_players_present (names : list string) (reg : dict StatMap) :
  (forall p, In p names -> In p (keys reg)) ->
  fold_left
    (fun players_reg pname =>
       if negb (contains pname players_reg)
       then setitem pname _default_player_stats players_reg
       else players_reg)
    names reg = reg.
Proof.
  induction names as [|n names IH]; intros H; simpl; [reflexivity|].
  assert (C : contains n reg = true) by (apply contains_keys, H; now left).
  rewrite C. simpl. apply IH. intros p I. apply H. now right.
Qed.

Lemma ensure_players_keys (names : list string) (reg : dict StatMap) p :
  In p names \/ In p (keys reg) ->
  In p (keys (fold_left
                (fun players_reg pname =>
                   if negb (contains pname players_reg)
                   then setitem pname _default_player_stats players_reg
                   else players_reg)
                names reg)).
Proof.
  intros H.
  pose proof (ensure_players_get names reg p) as G.
  destruct (get (fold_left _ names reg) p) eqn:E.
  - eapply get_some_keys; eauto.
  - exfalso. destruct (get reg p) eqn:Er; [discriminate|].
    destruct (in_dec string_dec p names); [discriminate|].
    destruct H as [H|H]; [contradiction|].
    apply get_none_keys in Er. contradiction.
Qed.

Lemma mutate_fixed (V : Type) (f : V -> V) k (d : dict V) :
  (forall v, get d k = Some v -> f v = v) -> mutate k f d = d.
Proof.
  induction d as [|[k' v] d IH]; intros H; simpl; [reflexivity|].
  simpl in H. destruct (String.eqb k k').
  - now rewrite H.
  - now rewrite IH.
Qed.

Lemma upsert_team_registry team_name (player_names : list string) st :
  List.length player_names = 2%nat ->
  exists players1 teams1,
    upsert_team team_name player_names st
    = (mkStore true (Some players1) (Some teams1), Ok tt)
    /\ (forall p, In p player_names -> In p (keys players1))
    /\ get teams1 team_name
       = Some (TeamEntry.mk
                 (match get (snd (load_registry st)) team_name with
                  | Some e => TeamEntry.lifetime_stats e
                  | None => _default_team_stats
                  end) player_names).
Proof.
  intros Hlen. unfold upsert_team. rewrite Hlen. cbn [Nat.eqb negb].
  unfold load_registry, save_registry. cbn [players_file teams_file snd].
  eexists. eexists. split; [reflexivity|]. split.
  - intros p I. apply ensure_players_keys. now left.
  - unfold contains.
    destruct (get (_load_json (teams_file st)) team_name) eqn:E; cbn [negb].
    + rewrite get_mutate_eq, E. reflexivity.
    + apply get_setitem_eq.
Qed.

(** X9.  upsert_team is idempotent: repeating the call with the same team
    name and the same two player names succeeds and leaves the registry as
    the first call left it. *)
Theorem upsert_team_twice team_name (player_names : list string) st :
  List.length player_names = 2%nat ->
  upsert_team team_name player_names
    (fst (upsert_team team_name player_names st))
  = (fst (upsert_team team_name player_names st), Ok tt).
Proof.
  intros Hlen.
  destruct (upsert_team_registry team_name player_names st Hlen)
    as (players1 & teams1 & -> & Hp & Ht).
  cbn [fst]. unfold upsert_team. rewrite Hlen. cbn [Nat.eqb negb].
  unfold load_registry, save_registry.
  cbn [players_file teams_file _load_json].
  rewrite ensure_players_present by assumption.
  unfold contains. rewrite Ht. cbn [negb].
  rewrite mutate_fixed; [reflexivity|].
  intros v. rewrite Ht. intros [= <-]. reflexivity.
Qed.

(** X10.  After upsert_team(name, [p1, p2]), get_team_by_name(name) finds
    the team: it has that name and the two players, in the given order. *)
Theorem get_team_after_upsert team_name (player_names : list string) st :
  List.length player_names = 2%nat ->
  exists team,
    get_team_by_name team_name
      (fst (upsert_team team_name player_names st)) = Some team
    /\ Team.name team = team_name
    /\ map Player.name (Team.players team) = player_names.
Proof.
  intros Hlen.
  destruct (upsert_team_registry team_name player_names st Hlen)
    as (players1 & teams1 & -> & Hp & Ht).
  cbn [fst]. unfold get_team_by_name, load_registry.
  cbn [players_file teams_file _load_json]. rewrite Ht.
  eexists. split; [reflexivity|]. cbn [Team.name Team.players TeamEntry.players].
  split; [reflexivity|]. rewrite map_map. cbn [Player.name]. apply map_id.
Qed.

(** X11.  Deleting a team right after registering it returns True and
    get_team_by_name no longer finds it, while the players registry is as
    upsert_team left it: both players are still registered. *)
Theorem delete_after_upsert team_name (player_names : list string) st :
  List.length player_names = 2%nat ->
  let registered := fst (upsert_team team_name player_names st) in
  let out := delete_team team_name registered in
  snd out = true
  /\ get_team_by_name team_name (fst out) = None
  /\ fst (load_registry (fst out)) = fst (load_registry registered)
  /\ forall p, In p player_names ->
       contains p (fst (load_registry (fst out))) = true.
Proof.
  intros Hlen.
  destruct (upsert_team_registry team_name player_names st Hlen)
    as (players1 & teams1 & E & Hp & Ht).
  assert (C : contains team_name teams1 = true)
    by (unfold contains; rewrite Ht; reflexivity).
  cbv zeta. rewrite E. cbn [fst].
  unfold delete_team, load_registry. cbn [players_file teams_file _load_json].
  rewrite C. unfold save_registry.
  cbn [fst snd players_file teams_file _load_json].
  repeat split.
  - unfold get_team_by_name, load_registry.
    cbn [players_file teams_file _load_json]. now rewrite get_filter_same.
  - intros p I. now apply contains_keys, Hp.
Qed.


(** ** The delta path adds, the authoritative path replaces *)

Lemma get_or_add_totals (t m : StatMap) key :
  get_or (add_totals t m) key 0 = get_or m key 0 + item_sum t key.
Proof.
  unfold add_totals, item_sum, int. revert m.
  induction t as [|[k v] t IH]; intros m; simpl.
  - lia.
  - rewrite IH. unfold get_or at 1.
    destruct (String.eqb_spec key k) as [->|Hne].
    + rewrite get_setitem_eq. lia.
    + rewrite get_setitem_neq by congruence. fold (get_or m key 0). lia.
Qed.

Lemma get_or_default_stats key :
  get_or _default_player_stats key 0 = 0
  /\ get_or _default_team_stats key 0 = 0.
Proof.
  unfold get_or. simpl.
  split; repeat (match goal with
                 | |- context [String.eqb ?a ?b] => destruct (String.eqb a b)
                 end; try reflexivity).
Qed.

Lemma stat_reconcile_player_delta reg n nm t name key :
  stat (fst (reconcile_player false (reg, n) (nm, t))) name key
  = stat reg name key + (if String.eqb name nm then item_sum t key else 0).
Proof.
  unfold stat at 1 2. unfold get_or at 2 4.
  destruct (String.eqb_spec name nm) as [->|Hne].
  - pose proof (reconcile_player_same false reg n nm t) as S.
    rewrite !option_map_id in S. rewrite S. unfold reconciled_stats.
    rewrite get_or_add_totals. f_equal.
    destruct (get reg nm); [reflexivity|]. apply get_or_default_stats.
  - pose proof (@reconcile_player_other false reg n nm t name Hne) as S.
    rewrite !option_map_id in S. rewrite S. lia.
Qed.

Lemma stat_fold_reconcile_player_delta totals reg n name key :
  stat (fst (fold_left (reconcile_player false) totals (reg, n))) name key
  = stat reg name key + totals_sum totals name key.
Proof.
  unfold totals_sum. revert reg n.
  induction totals as [|[nm t] totals IH]; intros reg n.
  - simpl. lia.
  - cbn [fold_left map fst snd].
    destruct (reconcile_player false (reg, n) (nm, t)) as [reg1 n1] eqn:E.
    rewrite IH.
    change reg1 with (fst (reg1, n1)). rewrite <- E.
    rewrite stat_reconcile_player_delta. unfold sumZ. cbn [fold_right]. lia.
Qed.

Lemma team_stat_reconcile_team_delta reg n nm t name key :
  team_stat (fst (reconcile_team false (reg, n) (nm, t))) name key
  = team_stat reg name key + (if String.eqb name nm then item_sum t key else 0).
Proof.
  unfold team_stat.
  destruct (String.eqb_spec name nm) as [->|Hne].
  - pose proof (reconcile_team_same false reg n nm t) as S.
    destruct (get (fst (reconcile_team false (reg, n) (nm, t))) nm) as [e|];
      [|discriminate].
    injection S as ->. unfold reconciled_stats.
    rewrite get_or_add_totals. f_equal.
    destruct (get reg nm); [reflexivity|]. apply get_or_default_stats.
  - pose proof (@reconcile_team_other false reg n nm t name Hne) as S.
    destruct (get (fst (reconcile_team false (reg, n) (nm, t))) name) as [e|];
      destruct (get reg name) as [e0|]; try discriminate.
    + injection S as ->. lia.
    + lia.
Qed.

Lemma team_stat_fold_reconcile_team_delta totals reg n name key :
  team_stat (fst (fold_left (reconcile_team false) totals (reg, n))) name key
  = team_stat reg name key + totals_sum totals name key.
Proof.
  unfold totals_sum. revert reg n.
  induction totals as [|[nm t] totals IH]; intros reg n.
  - simpl. lia.
  - cbn [fold_left map fst snd].
    destruct (reconcile_team false (reg, n) (nm, t)) as [reg1 n1] eqn:E.
    rewrite IH.
    change reg1 with (fst (reg1, n1)). rewrite <- E.
    rewrite team_stat_reconcile_team_delta. unfold sumZ. cbn [fold_right]. lia.
Qed.

(** X13.  With overwrite=False update_registry_from_totals adds: for every
    name and key, of players and of teams, the value stored afterwards (0
    when absent) is the value stored before plus the sum of the values the
    totals give for that name and key. *)
Theorem reconcile_delta_adds players_totals teams_totals st name key :
  let before := load_registry st in
  let after :=
    load_registry
      (fst (update_registry_from_totals players_totals teams_totals false st)) in
  stat (fst after) name key
  = stat (fst before) name key + totals_sum players_totals name key
  /\ team_stat (snd after) name key
     = team_stat (snd before) name key + totals_sum teams_totals name key.
Proof.
  cbv zeta. rewrite registry_after_update. cbn [fst snd].
  split.
  - apply stat_fold_reconcile_player_delta.
  - apply team_stat_fold_reconcile_team_delta.
Qed.

Lemma item_sum_nodup (t : StatMap) key :
  NoDup (keys t) -> item_sum t key = get_or t key 0.
Proof.
  unfold item_sum, get_or. induction t as [|[k v] t IH]; intros ND; simpl.
  - reflexivity.
  - inversion ND as [|? ? Hn ND']; subst.
    destruct (String.eqb_spec key k) as [->|Hne].
    + assert (Z0 : sumZ (map (fun kv : string * Z =>
                          if String.eqb k (fst kv) then snd kv else 0) t) = 0).
      { clear IH ND ND'. induction t as [|[k' v'] t IHt]; [reflexivity|].
        simpl. destruct (String.eqb_spec k k') as [->|Hk].
        - exfalso. apply Hn. now left.
        - rewrite IHt; [lia|]. intros I. apply Hn. now right. }
      rewrite Z0. lia.
    + rewrite IH by assumption. lia.
Qed.

Lemma totals_sum_nodup (totals : dict StatMap) name key :
  NoDup (keys totals) ->
  (forall t, In (name, t) totals -> NoDup (keys t)) ->
  totals_sum totals name key = stat totals name key.
Proof.
  unfold totals_sum, stat. unfold get_or at 2.
  induction totals as [|[nm t] totals IH]; intros ND Hmaps; simpl.
  - reflexivity.
  - inversion ND as [|? ? Hn ND']; subst.
    destruct (String.eqb_spec name nm) as [->|Hne].
    + rewrite item_sum_nodup by (apply Hmaps; now left).
      assert (Z0 : sumZ (map (fun nt : string * StatMap =>
                          if String.eqb nm (fst nt)
                          then item_sum (snd nt) key else 0) totals) = 0).
      { clear IH ND ND' Hmaps. induction totals as [|[k' v'] totals IHt];
          [reflexivity|].
        simpl. destruct (String.eqb_spec nm k') as [->|Hk].
        - exfalso. apply Hn. now left.
        - rewrite IHt; [lia|]. intros I. apply Hn. now right. }
      rewrite Z0. lia.
    + rewrite IH; [lia | assumption |].
      intros t0 I. apply Hmaps. now right.
Qed.

Lemma get_or_exact_stats (defaults t : StatMap) key :
  NoDup (keys t) ->
  get_or (exact_stats defaults t) key 0
  = match get t key with
    | Some v => v
    | None => get_or defaults key 0
    end.
Proof.
  unfold exact_stats, int. revert defaults.
  induction t as [|[k v] t IH]; intros defaults ND; simpl.
  - reflexivity.
  - inversion ND as [|? ? Hn ND']; subst. rewrite IH by assumption.
    destruct (String.eqb_spec key k) as [->|Hne].
    + destruct (get t k) eqn:E.
      * exfalso. apply Hn. eapply get_some_keys; eauto.
      * unfold get_or. now rewrite get_setitem_eq.
    + destruct (get t key); [reflexivity|].
      unfold get_or. rewrite get_setitem_neq by congruence. reflexivity.
Qed.

(** X14.  With overwrite=True, for totals without repeated names or keys (as
    a Python dict has none), the value stored afterwards for a name of the
    totals is exactly the value the totals give for the key, and 0 for a key
    the totals lack, whatever was stored before; for players and for teams. *)
Theorem reconcile_overwrite_is_exact players_totals teams_totals st name t key :
  let after :=
    load_registry
      (fst (update_registry_from_totals players_totals teams_totals true st)) in
  NoDup (keys t) ->
  (NoDup (keys players_totals) -> get players_totals name = Some t ->
   stat (fst after) name key = get_or t key 0)
  /\ (NoDup (keys teams_totals) -> get teams_totals name = Some t ->
      team_stat (snd after) name key = get_or t key 0).
Proof.
  intros after NDt. subst after. split; intros ND G.
  - destruct (@overwritten_players players_totals teams_totals st name
                (get_some_keys _ _ G)) as (t' & It & Hget).
    rewrite (in_get_nodup _ _ _ ND It) in G. injection G as ->.
    unfold stat. unfold get_or at 2. rewrite Hget.
    rewrite get_or_exact_stats by assumption.
    unfold get_or at 2. destruct (get t key); [reflexivity|].
    apply get_or_default_stats.
  - destruct (@overwritten_teams players_totals teams_totals st name
                (get_some_keys _ _ G)) as (t' & e & It & Hget & Hstats).
    rewrite (in_get_nodup _ _ _ ND It) in G. injection G as ->.
    unfold team_stat. rewrite Hget, Hstats.
    rewrite get_or_exact_stats by assumption.
    unfold get_or at 2. destruct (get t key); [reflexivity|].
    apply get_or_default_stats.
Qed.

Lemma get_reconcile_player_other overwrite reg n name t k :
  k <> name ->
  get (fst (reconcile_player overwrite (reg, n) (name, t))) k = get reg k.
Proof.
  intros Hne. pose proof (@reconcile_player_other overwrite reg n name t k Hne).
  now rewrite !option_map_id in H.
Qed.

Lemma get_reconcile_team_other overwrite reg n name t k :
  k <> name ->
  get (fst (reconcile_team overwrite (reg, n) (name, t))) k = get reg k.
Proof.
  intros Hne. unfold reconcile_team. cbn [fst].
  match goal with
  | |- context [if negb (contains name reg) then ?a else reg] =>
      assert (E : get (if negb (contains name reg) then a else reg) k
                  = get reg k)
  end.
  { destruct (negb (contains name reg)); [|reflexivity].
    apply get_setitem_neq. congruence. }
  destruct overwrite.
  - rewrite get_mutate_neq by congruence. exact E.
  - rewrite (get_fold_mutate_other
               (fun kv e =>
                  TeamEntry.set_lifetime_stats
                    (setitem (fst kv)
                       (get_or (TeamEntry.lifetime_stats e) (fst kv) 0
                        + int (snd kv))
                       (TeamEntry.lifetime_stats e)) e)) by congruence.
    exact E.
Qed.

Lemma fold_reconcile_frame (V : Type)
  (step : dict V * Z -> string * StatMap -> dict V * Z) totals reg n :
  (forall reg n name t k, k <> name ->
     get (fst (step (reg, n) (name, t))) k = get reg k) ->
  (forall reg n item, snd (step (reg, n) item) = n + 1) ->
  snd (fold_left step totals (reg, n)) = n + Z.of_nat (List.length totals)
  /\ forall k, ~ In k (keys totals) ->
       get (fst (fold_left step totals (reg, n))) k = get reg k.
Proof.
  intros Hother Hcount. revert reg n.
  induction totals as [|[nm t] totals IH]; intros reg n.
  - simpl. split; [lia | reflexivity].
  - cbn [fold_left].
    destruct (step (reg, n) (nm, t)) as [reg1 n1] eqn:E.
    destruct (IH reg1 n1) as [Hc Hf].
    assert (En : n1 = n + 1)
      by (change n1 with (snd (reg1, n1)); rewrite <- E; apply Hcount).
    split.
    + rewrite Hc, En. cbn [List.length]. lia.
    + intros k N. rewrite Hf by (intros I; apply N; now right).
      change reg1 with (fst (reg1, n1)). rewrite <- E.
      apply Hother. intros ->. apply N. now left.
Qed.

(** X15.  In both modes update_registry_from_totals returns the number of
    players and the number of teams in the totals, whatever the registry
    holds, and every registry entry whose name is not in the totals is left
    as it was. *)
Theorem reconcile_counts_and_frame players_totals teams_totals overwrite st :
  let before := load_registry st in
  let out :=
    update_registry_from_totals players_totals teams_totals overwrite st in
  let after := load_registry (fst out) in
  snd out = (Z.of_nat (List.length players_totals),
             Z.of_nat (List.length teams_totals))
  /\ (forall name, ~ In name (keys players_totals) ->
        get (fst after) name = get (fst before) name)
  /\ (forall name, ~ In name (keys teams_totals) ->
        get (snd after) name = get (snd before) name).
Proof.
  cbv zeta. rewrite registry_after_update. cbn [fst snd].
  destruct (@fold_reconcile_frame StatMap (reconcile_player overwrite)
              players_totals (fst (load_registry st)) 0
              (get_reconcile_player_other overwrite)) as [Cp Fp].
  { intros reg n [nm t]. reflexivity. }
  destruct (@fold_reconcile_frame TeamEntry.t (reconcile_team overwrite)
              teams_totals (snd (load_registry st)) 0
              (get_reconcile_team_other overwrite)) as [Ct Ft].
  { intros reg n [nm t]. reflexivity. }
  split; [|split; assumption].
  unfold update_registry_from_totals, load_registry, _ensure_registry_dirs in *.
  cbn [players_file teams_file fst snd] in *.
  destruct (fold_left (reconcile_player overwrite) players_totals
              (_load_json (players_file st), 0)) as [preg pn].
  destruct (fold_left (reconcile_team overwrite) teams_totals
              (_load_json (teams_file st), 0)) as [treg tn].
  cbn [snd] in *. rewrite Cp, Ct. reflexivity.
Qed.

(** ** Loading a team *)

Lemma nodup_keys_setitem (V : Type) k (v : V) (d : dict V) :
  NoDup (keys d) -> NoDup (keys (setitem k v d)).
Proof.
  intros ND. destruct (in_dec string_dec k (keys d)) as [I|N].
  - now rewrite keys_setitem_in.
  - rewrite keys_setitem_notin by assumption.
    apply NoDup_app; [exact ND | repeat constructor; tauto|].
    intros x Ix [<-|[]]. contradiction.
Qed.

Lemma dict_update_facts (V : Type) (o d : dict V) :
  (forall k, In k (keys d) -> In k (keys (dict_update d o)))
  /\ (NoDup (keys d) -> NoDup (keys (dict_update d o)))
  /\ (NoDup (keys o) ->
      forall k, get (dict_update d o) k
                = match get o k with Some v => Some v | None => get d k end).
Proof.
  unfold dict_update. revert d.
  induction o as [|[k0 v0] o IH]; intros d; simpl.
  - repeat split; auto.
  - destruct (IH (setitem k0 v0 d)) as (I1 & I2 & I3). repeat split.
    + intros k Ik. apply I1, in_keys_setitem. now right.
    + intros ND. now apply I2, nodup_keys_setitem.
    + intros ND k. inversion ND as [|? ? Hn ND']; subst.
      rewrite I3 by assumption.
      destruct (String.eqb_spec k k0) as [->|Hne].
      * destruct (get o k0) eqn:E.
        -- exfalso. apply Hn. eapply get_some_keys; eauto.
        -- apply get_setitem_eq.
      * destruct (get o k); [reflexivity|].
        apply get_setitem_neq. congruence.
Qed.

(** X16.  get_team_by_name returns None for a name that is not registered.
    For a registered one it returns a team of that name whose players are
    the names of the stored roster, in order; its lifetime stats have every
    key of the team schema and, the stored map having no repeated key, agree
    with the stored ones on every key; each player has every key of the
    player schema, and the zeroed default stats when the players registry
    does not know the player. *)
Theorem get_team_by_name_loads name st :
  let players_reg := fst (load_registry st) in
  let teams_reg := snd (load_registry st) in
  (get teams_reg name = None -> get_team_by_name name st = None)
  /\ (forall e, get teams_reg name = Some e ->
        exists team,
          get_team_by_name name st = Some team
          /\ Team.name team = name
          /\ map Player.name (Team.players team) = TeamEntry.players e
          /\ (forall key, In key TEAM_STAT_KEYS ->
                In key (keys (Team.lifetime_stats team)))
          /\ (NoDup (keys (TeamEntry.lifetime_stats e)) ->
              forall key,
                get_or (Team.lifetime_stats team) key 0
                = get_or (TeamEntry.lifetime_stats e) key 0)
          /\ (forall p, In p (Team.players team) ->
                (forall key, In key PLAYER_STAT_KEYS ->
                   In key (keys (Player.lifetime_stats p)))
                /\ (get players_reg (Player.name p) = None ->
                    Player.lifetime_stats p = _default_player_stats))).
Proof.
  cbv zeta. unfold get_team_by_name, load_registry. cbn [fst snd].
  split; [intros ->; reflexivity|].
  intros e ->. eexists. split; [reflexivity|].
  cbn [Team.name Team.players Team.lifetime_stats Team.new].
  split; [reflexivity|].
  split; [rewrite map_map; cbn [Player.name]; apply map_id|].
  split.
  { intros key I.
    apply (dict_update_facts (TeamEntry.lifetime_stats e) _default_team_stats).
    exact I. }
  split.
  { intros ND key.
    destruct (dict_update_facts (TeamEntry.lifetime_stats e)
                _default_team_stats) as (_ & _ & G).
    unfold get_or. rewrite (G ND).
    destruct (get (TeamEntry.lifetime_stats e) key); [reflexivity|].
    apply get_or_default_stats. }
  intros p Ip. apply in_map_iff in Ip. destruct Ip as (pname & <- & _).
  cbn [Player.name Player.lifetime_stats Player.new]. split.
  - intros key I.
    apply (dict_update_facts (get_or (_load_json (players_file st)) pname [])
             _default_player_stats).
    exact I.
  - intros G. unfold get_or. rewrite G. reflexivity.
Qed.

(** ** The incremental update *)

Lemma series_update_teams team1 team2 st :
  snd (load_registry (update_registry_with_series team1 team2 st))
  = store_series_team (store_series_team (snd (load_registry st)) team1) team2.
Proof. reflexivity. Qed.

Lemma store_series_team_get reg team :
  get (store_series_team reg team) (Team.name team)
  = Some (TeamEntry.mk
            (match get reg (Team.name team) with
             | Some e => add_onto (Team.lifetime_stats team)
                           (TeamEntry.lifetime_stats e)
             | None => Team.lifetime_stats team
             end)
            (map Player.name (Team.players team)))
  /\ forall k, k <> Team.name team ->
       get (store_series_team reg team) k = get reg k.
Proof.
  unfold store_series_team, contains.
  destruct (get reg (Team.name team)) eqn:E; cbn [negb]; split.
  - rewrite get_mutate_eq, E. reflexivity.
  - intros k Hne. apply get_mutate_neq. congruence.
  - apply get_setitem_eq.
  - intros k Hne. apply get_setitem_neq. congruence.
Qed.

(** X17.  update_registry_with_series sets the stored roster of team2, and
    of team1 when the two names differ, to the names of the players the team
    has in the series, and leaves the entry of every other team untouched. *)
Theorem series_update_sets_rosters team1 team2 st :
  let before := snd (load_registry st) in
  let after := snd (load_registry (update_registry_with_series team1 team2 st)) in
  (exists e, get after (Team.name team2) = Some e
             /\ TeamEntry.players e = map Player.name (Team.players team2))
  /\ (Team.name team1 <> Team.name team2 ->
      exists e, get after (Team.name team1) = Some e
                /\ TeamEntry.players e = map Player.name (Team.players team1))
  /\ (forall t, t <> Team.name team1 -> t <> Team.name team2 ->
        get after t = get before t).
Proof.
  cbv zeta. rewrite series_update_teams.
  set (reg0 := snd (load_registry st)).
  destruct (store_series_team_get reg0 team1) as [G1 O1].
  destruct (store_series_team_get (store_series_team reg0 team1) team2)
    as [G2 O2].
  split; [eexists; split; [exact G2 | reflexivity]|]. split.
  - intros Hne. rewrite O2 by assumption.
    eexists; split; [exact G1 | reflexivity].
  - intros t H1 H2. rewrite O2, O1 by assumption. reflexivity.
Qed.

Lemma get_or_add_onto (stats target : StatMap) key :
  get_or (add_onto stats target) key 0 = get_or target key 0 + item_sum stats key.
Proof. exact (get_or_add_totals stats target key). Qed.

Lemma loaded_team_stats name st team e :
  get_team_by_name name st = Some team ->
  get (snd (load_registry st)) name = Some e ->
  Team.name team = name
  /\ Team.lifetime_stats team
     = dict_update _default_team_stats (TeamEntry.lifetime_stats e).
Proof.
  unfold get_team_by_name, load_registry. cbn [fst snd].
  intros H G. rewrite G in H. injection H as <-. split; reflexivity.
Qed.

Lemma team_stat_store_loaded reg team e key :
  get reg (Team.name team) = Some e ->
  NoDup (keys (TeamEntry.lifetime_stats e)) ->
  Team.lifetime_stats team
  = dict_update _default_team_stats (TeamEntry.lifetime_stats e) ->
  team_stat (store_series_team reg team) (Team.name team) key
  = 2 * team_stat reg (Team.name team) key.
Proof.
  intros G ND HL. unfold team_stat.
  destruct (store_series_team_get reg team) as [-> _]. rewrite G.
  cbn [TeamEntry.lifetime_stats]. rewrite get_or_add_onto, HL.
  destruct (dict_update_facts (TeamEntry.lifetime_stats e)
              _default_team_stats) as (_ & N & Gu).
  rewrite item_sum_nodup by (apply N, schema_keys_nodup).
  unfold get_or at 2. rewrite (Gu ND).
  unfold get_or. destruct (get (TeamEntry.lifetime_stats e) key); [lia|].
  pose proof (get_or_default_stats key) as [_ D]. unfold get_or in D.
  rewrite D. lia.
Qed.

(** X18.  When the two teams of a series are the ones get_team_by_name
    loaded and they come back to update_registry_with_series with their
    lifetime stats unchanged, every stored team stat doubles (the stored
    maps having no repeated key): the incremental update adds the loaded
    lifetime totals onto the stored ones, not a delta. *)
Theorem reloaded_teams_count_twice name1 name2 st team1 team2 e1 e2 key :
  name1 <> name2 ->
  get_team_by_name name1 st = Some team1 ->
  get_team_by_name name2 st = Some team2 ->
  get (snd (load_registry st)) name1 = Some e1 ->
  get (snd (load_registry st)) name2 = Some e2 ->
  NoDup (keys (TeamEntry.lifetime_stats e1)) ->
  NoDup (keys (TeamEntry.lifetime_stats e2)) ->
  let before := snd (load_registry st) in
  let after := snd (load_registry (update_registry_with_series team1 team2 st)) in
  team_stat after name1 key = 2 * team_stat before name1 key
  /\ team_stat after name2 key = 2 * team_stat before name2 key.
Proof.
  intros Hne L1 L2 G1 G2 N1 N2. cbv zeta. rewrite series_update_teams.
  set (reg0 := snd (load_registry st)) in *.
  destruct (loaded_team_stats _ _ L1 G1) as [T1 S1].
  destruct (loaded_team_stats _ _ L2 G2) as [T2 S2].
  destruct (store_series_team_get reg0 team1) as [_ O1].
  destruct (store_series_team_get (store_series_team reg0 team1) team2)
    as [_ O2].
  split.
  - unfold team_stat at 1. rewrite O2 by congruence.
    fold (team_stat (store_series_team reg0 team1) name1 key).
    rewrite <- T1. apply (@team_stat_store_loaded reg0 team1 e1 key);
      [now rewrite T1 | assumption | assumption].
  - assert (G2' : get (store_series_team reg0 team1) (Team.name team2) = Some e2)
      by (rewrite O1 by congruence; now rewrite T2).
    rewrite <- T2.
    rewrite (@team_stat_store_loaded (store_series_team reg0 team1) team2 e2 key
               G2' N2 S2).
    unfold team_stat. now rewrite O1 by congruence.
Qed.

(* ================================================================== *)
(** * Further properties of the scan and of the weekly output *)

Lemma scan_from_listing listing s :
  In s (_scan_series_summaries (Some listing)) ->
  exists name,
    In (name, Directory (Some (Json s))) listing /\ Summary.truthy s = true.
Proof.
  rewrite scan_flat_map, in_flat_map.
  intros ([name e] & I & Is). unfold entry_summaries in Is. simpl in Is.
  destruct e as [|[[|data]|]]; try destruct Is.
  destruct (Summary.truthy data) eqn:T; [|destruct Is].
  destruct Is as [<-|[]]. exists name. split; assumption.
Qed.


Lemma merge_series_weeks b s b' wk :
  merge_series b s = Ok b' ->
  (In wk (keys (weekly_players b'))
   <-> In wk (keys (weekly_players b))
       \/ (in_week wk s = true /\ lists_players s = true)).
Proof.
  unfold merge_series, in_week, week_of, lists_players.
  destruct (Summary.date s) as [date|];
    [|intros [= <-]; split; [tauto | intros [H|[H _]]; [exact H | discriminate]]].
  destruct (String.eqb date "");
    [intros [= <-]; split; [tauto | intros [H|[H _]]; [exact H | discriminate]]|].
  destruct (_iso_week_key date) as [wk1|e]; [|discriminate].
  intros [= <-].
  set (pb := match Summary.players s with Some p => p | None => [] end).
  set (tb := match Summary.teams s with Some t => t | None => [] end).
  destruct (fold_add_player_weeks wk1 pb b) as [Ht1 Hp1].
  destruct (fold_add_team_weeks wk1 tb (fold_left (add_player wk1) pb b))
    as [Hp2 Ht2].
  rewrite Hp2, Hp1. split.
  - intros [[-> Hne]|H]; [right | now left].
    split; [apply String.eqb_refl|].
    subst pb. destruct (Summary.players s) as [[|? ?]|]; congruence.
  - intros [H|[E L]]; [now right | left].
    apply String.eqb_eq in E. split; [now symmetry|].
    subst pb. destruct (Summary.players s) as [[|? ?]|]; discriminate.
Qed.

Lemma merge_loop_weeks summaries b b' wk :
  merge_loop b summaries = Ok b' ->
  (In wk (keys (weekly_players b'))
   <-> In wk (keys (weekly_players b))
       \/ exists s, In s summaries
                    /\ in_week wk s = true /\ lists_players s = true).
Proof.
  revert b. induction summaries as [|s summaries IH]; intros b; simpl.
  - intros [= <-]. split; [tauto | intros [H|(s & [] & _)]; exact H].
  - destruct (merge_series b s) as [b1|e] eqn:E; [|discriminate].
    intros H. rewrite (IH b1 H), (@merge_series_weeks b s b1 wk E). split.
    + intros [[H1|H1]|(s' & I & H1)].
      * now left.
      * right. exists s. split; [now left | exact H1].
      * right. exists s'. split; [now right | exact H1].
    + intros [H1|(s' & [<-|I] & H1)].
      * left. now left.
      * left. now right.
      * right. exists s'. split; assumption.
Qed.

Lemma merge_all_weeks root weekly season wk :
  merge_all root = Ok (weekly, season) ->
  ((exists entry, get weekly wk = Some entry)
   <-> exists s, In s (_scan_series_summaries root)
                 /\ in_week wk s = true /\ lists_players s = true).
Proof.
  unfold merge_all.
  destruct (merge_loop empty_buckets (_scan_series_summaries root))
    as [b|e] eqn:E; [|discriminate].
  intros [= <- _].
  destruct (@merge_loop_balanced _ _ _ E empty_buckets_balanced)
    as (_ & _ & Np & _).
  rewrite get_finalize_weekly by assumption.
  pose proof (@merge_loop_weeks _ _ _ wk E) as W. simpl in W.
  destruct (in_dec string_dec wk (keys (weekly_players b))) as [I|N].
  - split; [intros _ | intros _; eauto].
    apply W in I. destruct I as [[]|I]. exact I.
  - split; [intros [entry H]; discriminate|].
    intros H. exfalso. apply N, W. now right.
Qed.

(** X20.  A week key is in the weekly output of merge_all exactly when some
    scanned summary dated in that week names at least one player. *)
Theorem reported_weeks root weekly season wk :
  merge_all root = Ok (weekly, season) ->
  ((exists entry, get weekly wk = Some entry)
   <-> exists s, In s (_scan_series_summaries root)
                 /\ in_week wk s = true /\ lists_players s = true).
Proof.
  intros H. split.
  - intros G. now apply (@merge_all_weeks _ _ _ wk H).
  - intros G. now apply (@merge_all_weeks _ _ _ wk H).
Qed.

(** ** The order of the directory listing *)

Lemma records_total_perm sel ks block l l' name key :
  Permutation l l' ->
  records_total sel ks block l name key
  = records_total sel ks block l' name key.
Proof.
  intros P. unfold records_total. apply sumZ_perm. now apply Permutation_map.
Qed.

Lemma scan_perm listing listing' :
  Permutation listing listing' ->
  Permutation (_scan_series_summaries (Some listing))
    (_scan_series_summaries (Some listing')).
Proof.
  intros P. rewrite !scan_flat_map. now apply Permutation_flat_map.
Qed.

(** X21.  The totals do not depend on the order in which os.listdir returns
    the series directories: over a reordered listing merge_all succeeds as
    well and gives the same season total for every name and key, the same
    set of week keys, and the same weekly total for every week, name and
    key. *)
Theorem totals_independent_of_listing_order listing listing' weekly season :
  Permutation listing listing' ->
  merge_all (Some listing) = Ok (weekly, season) ->
  exists weekly' season',
    merge_all (Some listing') = Ok (weekly', season')
    /\ (forall name key,
          stat (Totals.players season') name key
          = stat (Totals.players season) name key
          /\ stat (Totals.teams season') name key
             = stat (Totals.teams season) name key)
    /\ (forall wk,
          (exists entry, get weekly wk = Some entry)
          <-> (exists entry', get weekly' wk = Some entry'))
    /\ (forall wk entry entry' name key,
          get weekly wk = Some entry -> get weekly' wk = Some entry' ->
          stat (Totals.players entry') name key
          = stat (Totals.players entry) name key
          /\ stat (Totals.teams entry') name key
             = stat (Totals.teams entry) name key).
Proof.
  intros P H.
  pose proof (scan_perm P) as Ps.
  pose proof (merge_all_accepts (Some listing)) as Hok.
  pose proof (merge_all_accepts (Some listing')) as Hok'.
  assert (A : forallb date_accepted (_scan_series_summaries (Some listing'))
              = true).
  { apply forallb_forall. intros s I.
    assert (A0 : forallb date_accepted (_scan_series_summaries (Some listing))
                 = true) by (apply Hok; eauto).
    rewrite forallb_forall in A0. apply A0.
    eapply Permutation_in; [symmetry; exact Ps | exact I]. }
  apply Hok' in A. destruct A as [[weekly' season'] H'].
  exists weekly', season'. split; [exact H'|]. split; [|split].
  - intros name key.
    destruct (@merge_all_sums _ _ _ name key H) as [[Sp St] _].
    destruct (@merge_all_sums _ _ _ name key H') as [[Sp' St'] _].
    rewrite Sp, St, Sp', St'.
    split; symmetry; now apply records_total_perm.
  - intros wk.
    rewrite (@merge_all_weeks _ _ _ wk H), (@merge_all_weeks _ _ _ wk H').
    split; intros (s & I & Hs); exists s; (split; [|exact Hs]).
    + eapply Permutation_in; [exact Ps | exact I].
    + eapply Permutation_in; [symmetry; exact Ps | exact I].
  - intros wk entry entry' name key G G'.
    destruct (@merge_all_sums _ _ _ name key H) as [_ W].
    destruct (@merge_all_sums _ _ _ name key H') as [_ W'].
    destruct (W _ _ G) as [Sp St]. destruct (W' _ _ G') as [Sp' St'].
    rewrite Sp, St, Sp', St'.
    split; symmetry; now apply records_total_perm.
Qed.

(** ** Summaries written by the application *)

Lemma fold_setitem_nonempty (A V : Type) (f : A -> string) (g : A -> V)
  (l : list A) (d : dict V) :
  l <> [] \/ d <> [] ->
  fold_left (fun d a => setitem (f a) (g a) d) l d <> [].
Proof.
  revert d. induction l as [|a l IH]; intros d H; simpl.
  - destruct H as [H|H]; [congruence | exact H].
  - apply IH. right. destruct d as [|[k v] d]; simpl; [discriminate|].
    destruct (String.eqb (f a) k); discriminate.
Qed.

Lemma save_summary_lists_players s :
  Team.players (Series.team1 s) ++ Team.players (Series.team2 s) <> [] ->
  teams_come_with_players (Series.save_summary s) = true.
Proof.
  intros H. unfold teams_come_with_players, lists_players, Series.save_summary.
  cbn [Summary.players].
  pose proof (@fold_setitem_nonempty Player.t StatMap Player.name
                Player.lifetime_stats
                (Team.players (Series.team1 s) ++ Team.players (Series.team2 s))
                [] (or_introl H)) as N.
  destruct (fold_left
              (fun (d : dict StatMap) (a : Player.t) =>
                 setitem (Player.name a) (Player.lifetime_stats a) d)
              (Team.players (Series.team1 s) ++ Team.players (Series.team2 s))
              []); [congruence|].
  now rewrite !orb_true_r.
Qed.

(** X22.  When every entry of the series root is a directory whose summary
    Series.save_summary wrote for a series with at least one player, the
    season total of every team equals the sum of its weekly totals: no week
    of such a root is missing from the weekly output. *)
Theorem series_summaries_balance_teams listing weekly season name key :
  Forall written_by_series listing ->
  merge_all (Some listing) = Ok (weekly, season) ->
  stat (Totals.teams season) name key
  = weeks_sum Totals.teams weekly name key.
Proof.
  intros Hall H. apply (@season_is_sum_of_weeks_teams _ _ _ name key H).
  apply Forall_forall. intros s I.
  apply scan_from_listing in I.
  destruct I as (nm & I & _).
  rewrite Forall_forall in Hall.
  destruct (Hall _ I) as (ser & E & Hp). simpl in E. injection E as ->.
  now apply save_summary_lists_players.
Qed.

(** ** The leaders of a report *)

Lemma insert_desc_perm x l : Permutation (x :: l) (insert_desc x l).
Proof.
  induction l as [|y r IH]; simpl; [reflexivity|].
  destruct (snd x <? snd y); [|reflexivity].
  rewrite perm_swap. now apply perm_skip.
Qed.

Lemma sort_desc_perm arr : Permutation arr (sort_desc arr).
Proof.
  induction arr as [|x arr IH]; simpl; [reflexivity|].
  rewrite <- insert_desc_perm. now apply perm_skip.
Qed.

Lemma insert_desc_sorted x l :
  StronglySorted value_geb l -> StronglySorted value_geb (insert_desc x l).
Proof.
  induction 1 as [|y r S IH F]; simpl.
  - constructor; constructor.
  - destruct (snd x <? snd y) eqn:E.
    + constructor; [exact IH|].
      apply Z.ltb_lt in E.
      eapply Permutation_Forall; [apply insert_desc_perm|].
      constructor; [unfold value_geb; lia | exact F].
    + apply Z.ltb_ge in E.
      constructor; [now constructor|].
      constructor; [exact E|].
      eapply Forall_impl; [|exact F].
      unfold value_geb. intros z Hz. lia.
Qed.

Lemma sort_desc_sorted arr : StronglySorted value_geb (sort_desc arr).
Proof.
  induction arr as [|x arr IH]; simpl; [constructor|].
  now apply insert_desc_sorted.
Qed.

Lemma strongly_sorted_app (A : Type) (R : A -> A -> Prop) (l1 l2 : list A) :
  StronglySorted R (l1 ++ l2) ->
  StronglySorted R l1
  /\ forall a b, In a l1 -> In b l2 -> R a b.
Proof.
  induction l1 as [|x l1 IH]; simpl; intros S.
  - split; [constructor | intros a b []].
  - inversion S as [|? ? S' F]; subst.
    destruct (IH S') as [S1 D].
    apply Forall_app in F. destruct F as [F1 F2].
    split; [now constructor|].
    intros a b [<-|Ia] Ib.
    + rewrite Forall_forall in F2. now apply F2.
    + now apply D.
Qed.

Lemma top_n_length players stat n :
  List.length (top_n players stat n) = Nat.min n (List.length players).
Proof.
  unfold top_n.
  rewrite length_firstn, <- (Permutation_length (sort_desc_perm _)).
  unfold stat_items. now rewrite length_map.
Qed.

(** X23.  top_n(stat, n) returns min(n, len(players)) pairs (name, value),
    largest value first. With the pairs it leaves out they make up the pairs
    of all players, and no pair left out has a larger value than a pair
    returned. *)
Theorem top_n_largest_first players stat n :
  let top := top_n players stat n in
  List.length top = Nat.min n (List.length players)
  /\ StronglySorted value_geb top
  /\ exists rest,
       Permutation (top ++ rest) (stat_items players stat)
       /\ forall a b, In a top -> In b rest -> snd b <= snd a.
Proof.
  unfold top_n. cbv zeta.
  pose proof (sort_desc_sorted (stat_items players stat)) as S.
  pose proof (sort_desc_perm (stat_items players stat)) as P.
  rewrite <- (firstn_skipn n (sort_desc (stat_items players stat))) in S.
  apply strongly_sorted_app in S. destruct S as [S D].
  split; [|split; [exact S|]].
  - apply top_n_length.
  - exists (skipn n (sort_desc (stat_items players stat))).
    split; [rewrite firstn_skipn; now symmetry | exact D].
Qed.

Lemma filter_insert_desc v x l :
  filter (fun y => snd y =? v) (insert_desc x l)
  = filter (fun y => snd y =? v) (x :: l).
Proof.
  induction l as [|y r IH]; [reflexivity|].
  cbn [insert_desc]. destruct (snd x <? snd y) eqn:E; [|reflexivity].
  apply Z.ltb_lt in E.
  cbn [filter] in *. rewrite IH.
  destruct (snd x =? v) eqn:Ex, (snd y =? v) eqn:Ey; try reflexivity.
  apply Z.eqb_eq in Ex, Ey. lia.
Qed.

Lemma filter_sort_desc v arr :
  filter (fun y => snd y =? v) (sort_desc arr)
  = filter (fun y => snd y =? v) arr.
Proof.
  induction arr as [|x arr IH]; [reflexivity|].
  cbn [sort_desc fold_right]. rewrite filter_insert_desc.
  cbn [filter]. unfold sort_desc in IH. now rewrite IH.
Qed.

(** X24.  Players with equal values keep the order of the players mapping in
    top_n: the returned pairs that have a given value are the first pairs
    with that value in the order of players.items(). *)
Theorem top_n_ties_in_dict_order players stat n v :
  exists rest,
    filter (fun item => snd item =? v) (stat_items players stat)
    = filter (fun item => snd item =? v) (top_n players stat n) ++ rest.
Proof.
  unfold top_n.
  exists (filter (fun item => snd item =? v)
            (skipn n (sort_desc (stat_items players stat)))).
  rewrite <- filter_app, firstn_skipn. symmetry. apply filter_sort_desc.
Qed.

Lemma top_n_nil players stat : top_n players stat 5 = [] -> players = [].
Proof.
  intros E.
  pose proof (top_n_length players stat 5) as L.
  rewrite E in L. destruct players; [reflexivity | simpl in L; lia].
Qed.

(** X25.  _leaders_block of an empty players mapping returns no line at all,
    not even a header. Otherwise it returns the four sections Points,
    Throws, Sinks and Catches in this order, each a header line followed by
    one line per pair of top_n(stat, 5): 4 * (1 + min(5, len(players)))
    lines. *)
Theorem leaders_block_sections players :
  _leaders_block [] = []
  /\ (players <> [] ->
      _leaders_block players
      = leaders_section players "Points Leaders:" "points"
        ++ leaders_section players "Throws Leaders:" "throws"
        ++ leaders_section players "Sinks Leaders:" "sinks"
        ++ leaders_section players "Catches Leaders:" "catches"
      /\ List.length (_leaders_block players)
         = (4 * (1 + Nat.min 5 (List.length players)))%nat).
Proof.
  split; [reflexivity|]. intros N.
  assert (E : _leaders_block players
      = leaders_section players "Points Leaders:" "points"
        ++ leaders_section players "Throws Leaders:" "throws"
        ++ leaders_section players "Sinks Leaders:" "sinks"
        ++ leaders_section players "Catches Leaders:" "catches").
  { unfold _leaders_block, leaders_section. cbn [fold_left].
    destruct (top_n players "points" 5) as [|a1 l1] eqn:E1;
      [now apply top_n_nil in E1|].
    destruct (top_n players "throws" 5) as [|a2 l2] eqn:E2;
      [now apply top_n_nil in E2|].
    destruct (top_n players "sinks" 5) as [|a3 l3] eqn:E3;
      [now apply top_n_nil in E3|].
    destruct (top_n players "catches" 5) as [|a4 l4] eqn:E4;
      [now apply top_n_nil in E4|].
    change (capitalize "points") with "Points".
    change (capitalize "throws") with "Throws".
    change (capitalize "sinks") with "Sinks".
    change (capitalize "catches") with "Catches".
    cbn [app String.append].
    rewrite <- !app_assoc. reflexivity. }
  split; [exact E|].
  rewrite E. unfold leaders_section.
  rewrite !length_app. cbn [List.length]. rewrite !length_map.
  rewrite (top_n_length players "points" 5).
  rewrite (top_n_length players "throws" 5).
  rewrite (top_n_length players "sinks" 5).
  rewrite (top_n_length players "catches" 5).
  lia.
Qed.

(** ** Report lines *)

(** X26.  The key orders of the report lines are rearrangements of the
    schema key lists of merge_stats.py (every schema key once, no other
    key), so _fmt_player_line and _fmt_team_line give the same line for two
    stat maps that agree on the schema keys. *)
Theorem report_lines_show_the_schema :
  Permutation PLAYER_ORDER PLAYER_STAT_KEYS
  /\ Permutation TEAM_ORDER TEAM_STAT_KEYS
  /\ forall name (stats stats' : StatMap),
       ((forall k, In k PLAYER_STAT_KEYS -> get_or stats k 0 = get_or stats' k 0) ->
        _fmt_player_line name stats = _fmt_player_line name stats')
       /\ ((forall k, In k TEAM_STAT_KEYS -> get_or stats k 0 = get_or stats' k 0) ->
           _fmt_team_line name stats = _fmt_team_line name stats').
Proof.
  assert (Pp : Permutation PLAYER_ORDER PLAYER_STAT_KEYS).
  { unfold PLAYER_ORDER, PLAYER_STAT_KEYS.
    do 2 apply perm_skip.
    change (Permutation
              (["catches"; "missed_catches"; "sinks"] ++ "table_hits"
               :: ["rim_hits"; "rounds_won"; "series_won"])
              ("table_hits" :: ["catches"; "missed_catches"; "sinks"]
               ++ ["rim_hits"; "rounds_won"; "series_won"])).
    symmetry. apply Permutation_middle. }
  assert (Pt : Permutation TEAM_ORDER TEAM_STAT_KEYS).
  { unfold TEAM_ORDER, TEAM_STAT_KEYS.
    do 2 apply perm_skip.
    change (Permutation
              (["total_catches"; "total_missed_catches"; "total_sinks"]
               ++ "total_table_hits"
               :: ["total_rim_hits"; "total_rounds_won"; "total_series_won"])
              ("total_table_hits"
               :: ["total_catches"; "total_missed_catches"; "total_sinks"]
               ++ ["total_rim_hits"; "total_rounds_won"; "total_series_won"])).
    symmetry. apply Permutation_middle. }
  split; [exact Pp|]. split; [exact Pt|].
  intros name stats stats'. split; intros H.
  - unfold _fmt_player_line. cbv zeta. f_equal. f_equal.
    apply map_ext_in. intros k I. rewrite H; [reflexivity|].
    eapply Permutation_in; [exact Pp | exact I].
  - unfold _fmt_team_line. cbv zeta. f_equal. f_equal.
    apply map_ext_in. intros k I. rewrite H; [reflexivity|].
    eapply Permutation_in; [exact Pt | exact I].
Qed.

(** ** Output files *)

Lemma append_inj_prefix (p a b : string) :
  (p ++ a = p ++ b)%string -> a = b.
Proof.
  induction p as [|c p IH]; simpl; [tauto|].
  intros [= H]. now apply IH.
Qed.

Lemma append_last (a : string) (s : string) (c : ascii) :
  list_ascii_of_string (a ++ s ++ String c "")
  = (list_ascii_of_string (a ++ s) ++ [c])%list.
Proof.
  induction a as [|x a IH]; simpl.
  - induction s as [|y s IHs]; simpl; [reflexivity | now rewrite IHs].
  - now rewrite IH.
Qed.

Lemma json_is_not_txt (a b : string) :
  (a ++ "_report.json")%string <> (b ++ "_report.txt")%string.
Proof.
  intros E. apply (f_equal list_ascii_of_string) in E.
  change "_report.json" with ("_report.jso" ++ String "n" "")%string in E.
  change "_report.txt" with ("_report.tx" ++ String "t" "")%string in E.
  rewrite !append_last in E.
  apply app_inj_tail in E. destruct E as [_ E]. discriminate.
Qed.

Lemma week_json_path_inj a b : week_json_path a = week_json_path b -> a = b.
Proof.
  unfold week_json_path, WEEKLY_ROOT. intros E.
  do 3 apply append_inj_prefix in E.
  revert E. apply append_inj_suffix. reflexivity.
Qed.

Lemma week_txt_path_inj a b : week_txt_path a = week_txt_path b -> a = b.
Proof.
  unfold week_txt_path, WEEKLY_ROOT. intros E.
  do 3 apply append_inj_prefix in E.
  revert E. apply append_inj_suffix. reflexivity.
Qed.

Lemma week_json_txt a b : week_json_path a <> week_txt_path b.
Proof.
  unfold week_json_path, week_txt_path, WEEKLY_ROOT. intros E.
  do 3 apply append_inj_prefix in E. now apply json_is_not_txt in E.
Qed.

Lemma week_paths_nodup (weekly : dict Totals.t) :
  NoDup (keys weekly) ->
  NoDup (flat_map
           (fun item => [week_json_path (fst item); week_txt_path (fst item)])
           weekly).
Proof.
  induction weekly as [|[wk e] weekly IH]; simpl; intros N; [constructor|].
  inversion N as [|? ? Nin N']; subst.
  assert (F : forall p wk',
             In p (flat_map
                     (fun item : string * Totals.t =>
                        [week_json_path (fst item); week_txt_path (fst item)])
                     weekly) ->
             (p = week_json_path wk' \/ p = week_txt_path wk') ->
             In wk' (keys weekly)).
  { intros p wk' I Hp. apply in_flat_map in I.
    destruct I as ([w e'] & I & [<-|[<-|[]]]); simpl in Hp;
      destruct Hp as [Hp|Hp].
    - apply week_json_path_inj in Hp. subst.
      apply in_map_iff. now exists (wk', e').
    - now apply week_json_txt in Hp.
    - symmetry in Hp. now apply week_json_txt in Hp.
    - apply week_txt_path_inj in Hp. subst.
      apply in_map_iff. now exists (wk', e'). }
  constructor.
  - intros [E|I].
    + symmetry in E. now apply week_json_txt in E.
    + apply Nin. eapply F; [exact I | now left].
  - constructor; [|now apply IH].
    intros I. apply Nin. eapply F; [exact I | now right].
Qed.

Lemma weekly_keys_nodup root weekly season :
  merge_all root = Ok (weekly, season) -> NoDup (keys weekly).
Proof.
  unfold merge_all.
  destruct (merge_loop empty_buckets (_scan_series_summaries root))
    as [b|e] eqn:E; [|discriminate].
  intros [= <- _].
  destruct (@merge_loop_balanced _ _ _ E empty_buckets_balanced)
    as (_ & _ & Np & _).
  rewrite finalize_weekly_map by assumption.
  rewrite (keys_map_keys
             (fun wk => Totals.mk (get_or (weekly_players b) wk [])
                                  (get_or (weekly_teams b) wk []))).
  eapply Permutation_NoDup; [symmetry; apply sorted_perm | exact Np].
Qed.

Lemma traced_log_weeks (weekly : dict Totals.t) (log : list string) :
  fold_left
    (fun log item =>
       let log := log ++ [week_json_path (fst item)] in
       log ++ [week_txt_path (fst item)])
    weekly log
  = log ++ flat_map
             (fun item => [week_json_path (fst item); week_txt_path (fst item)])
             weekly.
Proof.
  revert log. induction weekly as [|item weekly IH]; intros log.
  - simpl. now rewrite app_nil_r.
  - cbn [fold_left flat_map]. cbv zeta. rewrite IH, <- !app_assoc.
    reflexivity.
Qed.

(** The traced [write_outputs] does to the registry and prints what
    [write_outputs] does, and opens the report files of the weeks, the two
    season files and the two registry files, in this order. *)
Lemma traced_write_outputs weekly season st :
  Traced.write_outputs weekly season st
  = (fst (write_outputs weekly season st),
     snd (write_outputs weekly season st),
     flat_map
       (fun item => [week_json_path (fst item); week_txt_path (fst item)])
       weekly
     ++ [SEASON_TOTALS_JSON; SEASON_TOTALS_TXT; PLAYERS_FILE; TEAMS_FILE]).
Proof.
  unfold Traced.write_outputs, write_outputs,
    Traced.update_registry_from_totals, update_registry_from_totals,
    Traced.save_registry, Traced._save_json.
  cbv zeta. rewrite traced_log_weeks.
  destruct (load_registry (_ensure_registry_dirs st)) as [p0 t0].
  destruct (fold_left (reconcile_player true) (Totals.players season) (p0, 0))
    as [p pu].
  destruct (fold_left (reconcile_team true) (Totals.teams season) (t0, 0))
    as [t tu].
  cbn [fst snd app]. rewrite <- !app_assoc. reflexivity.
Qed.

Lemma traced_main root st :
  Traced.main root st
  = match main root st, merge_all root with
    | Ok (st', printed), Ok (weekly, _) =>
        Ok (st', printed,
            flat_map
              (fun item =>
                 [week_json_path (fst item); week_txt_path (fst item)])
              weekly
            ++ [SEASON_TOTALS_JSON; SEASON_TOTALS_TXT; PLAYERS_FILE;
                TEAMS_FILE])
    | Raise e, _ => Raise e
    | Ok _, Raise e => Raise e
    end.
Proof.
  unfold Traced.main, main.
  destruct (merge_all root) as [[weekly season]|e]; [|reflexivity].
  rewrite traced_write_outputs.
  destruct (write_outputs weekly season st) as [st1 printed]. reflexivity.
Qed.

(** X27.  In one run no file is opened for writing twice.  The run opens
    the JSON and the text report of every week of the weekly output, the
    two season files and, through save_registry, players.json and
    teams.json, and nothing else; these paths are pairwise different; and
    the registry and the printed lines are those of main. *)
Theorem outputs_written_once root st st' printed log :
  Traced.main root st = Ok (st', printed, log) ->
  main root st = Ok (st', printed)
  /\ NoDup log
  /\ exists weekly season,
       merge_all root = Ok (weekly, season)
       /\ forall p,
            In p log
            <-> (exists wk, In wk (keys weekly)
                            /\ (p = week_json_path wk \/ p = week_txt_path wk))
                \/ p = SEASON_TOTALS_JSON \/ p = SEASON_TOTALS_TXT
                \/ p = PLAYERS_FILE \/ p = TEAMS_FILE.
Proof.
  rewrite traced_main.
  destruct (main root st) as [[st1 printed1]|e] eqn:M; [|discriminate].
  destruct (merge_all root) as [[weekly season]|e] eqn:H; [|discriminate].
  intros [= <- <- <-]. split; [reflexivity|].
  pose proof (@weekly_keys_nodup _ _ _ H) as N.
  assert (W : forall p,
             In p (flat_map
                     (fun item : string * Totals.t =>
                        [week_json_path (fst item); week_txt_path (fst item)])
                     weekly)
             <-> exists wk, In wk (keys weekly)
                            /\ (p = week_json_path wk \/ p = week_txt_path wk)).
  { intros p. rewrite in_flat_map. split.
    - intros ([wk e] & I & [<-|[<-|[]]]); exists wk;
        (split; [apply in_map_iff; now exists (wk, e) | cbn [fst]; tauto]).
    - intros (wk & I & Hp). apply in_map_iff in I.
      destruct I as ([wk' e] & <- & I). exists (wk', e).
      split; [exact I|]. cbn [fst] in *. simpl. destruct Hp as [->| ->]; tauto. }
  split.
  - apply NoDup_app.
    + now apply week_paths_nodup.
    + unfold SEASON_TOTALS_JSON, SEASON_TOTALS_TXT, PLAYERS_FILE, TEAMS_FILE.
      repeat (constructor; [simpl; intuition discriminate|]). constructor.
    + intros p I J. apply W in I. destruct I as (wk & _ & I).
      unfold week_json_path, week_txt_path, WEEKLY_ROOT, SEASON_TOTALS_JSON,
        SEASON_TOTALS_TXT, PLAYERS_FILE, TEAMS_FILE in *.
      simpl in I, J.
      destruct I as [->| ->]; destruct J as [J|[J|[J|[J|[]]]]]; discriminate.
  - exists weekly, season. split; [reflexivity|].
    intros p. rewrite in_app_iff, W. simpl. intuition.
Qed.

(** ** The course of a series *)

Lemma play_game_step s w :
  let s1 := play_game s w in
  let t1 := Series.team1_wins s
            + (if String.eqb w (Team.name (Series.team1 s)) then 1 else 0) in
  let t2 := Series.team2_wins s
            + (if negb (String.eqb w (Team.name (Series.team1 s)))
                  && String.eqb w (Team.name (Series.team2 s)) then 1 else 0) in
  Series.team1 s1 = Series.team1 s
  /\ Series.team2 s1 = Series.team2 s
  /\ Series.best_of s1 = Series.best_of s
  /\ Series.current_game s1 = Series.current_game s + 1
  /\ List.length (Series.games s1) = S (List.length (Series.games s))
  /\ Series.team1_wins s1 = t1
  /\ Series.team2_wins s1 = t2
  /\ Series.winner s1
     = if Series.current_game s + 1 >=? Series.best_of s
       then Some (if t1 >? t2 then Team.name (Series.team1 s)
                  else Team.name (Series.team2 s))
       else Series.winner s.
Proof.
  unfold play_game, Series.start_new_game, Series.record_game,
    Series.finish_series, Series.winner_is, Game.end_game.
  cbn [Series.series_id Series.date Series.team1 Series.team2 Series.games
       Series.best_of Series.current_game Series.team1_wins Series.team2_wins
       Series.winner Game.winner].
  destruct (String.eqb w (Team.name (Series.team1 s))) eqn:E1;
    destruct (String.eqb w (Team.name (Series.team2 s))) eqn:E2;
    destruct (Series.current_game s + 1 >=? Series.best_of s) eqn:E3;
    cbn [negb andb fst Series.series_id Series.date Series.team1 Series.team2
         Series.games Series.best_of Series.current_game Series.team1_wins
         Series.team2_wins Series.winner];
    rewrite ?length_app, ?Z.add_0_r; cbn [List.length];
    repeat split; try reflexivity; lia.
Qed.

Lemma play_games_counts winners s :
  let s' := play_games winners s in
  Series.team1 s' = Series.team1 s
  /\ Series.team2 s' = Series.team2 s
  /\ Series.best_of s' = Series.best_of s
  /\ Series.current_game s'
     = Series.current_game s + Z.of_nat (List.length winners)
  /\ List.length (Series.games s')
     = (List.length (Series.games s) + List.length winners)%nat
  /\ Series.team1_wins s' = Series.team1_wins s + wins_of_team1 s winners
  /\ Series.team2_wins s' = Series.team2_wins s + wins_of_team2 s winners.
Proof.
  revert s. induction winners as [|w winners IH]; intros s.
  - unfold wins_of_team1, wins_of_team2. simpl.
    repeat split; try reflexivity; lia.
  - cbv zeta. unfold play_games. cbn [fold_left].
    destruct (play_game_step s w) as (A1 & A2 & A3 & A4 & A5 & A6 & A7 & _).
    destruct (IH (play_game s w)) as (B1 & B2 & B3 & B4 & B5 & B6 & B7).
    unfold play_games in *.
    rewrite B1, B2, B3, B4, B5, B6, B7, A1, A2, A3, A4, A5, A6, A7.
    unfold wins_of_team1, wins_of_team2. rewrite A1, A2.
    cbn [filter List.length].
    destruct (String.eqb w (Team.name (Series.team1 s)));
      destruct (String.eqb w (Team.name (Series.team2 s)));
      cbn [negb andb List.length];
      repeat split; try reflexivity; lia.
Qed.

Lemma play_games_undecided winners s :
  Series.current_game s + Z.of_nat (List.length winners) < Series.best_of s ->
  Series.winner (play_games winners s) = Series.winner s.
Proof.
  revert s. induction winners as [|w winners IH]; intros s H; [reflexivity|].
  unfold play_games. cbn [fold_left].
  destruct (play_game_step s w) as (_ & _ & A3 & A4 & _ & _ & _ & A8).
  cbn [List.length] in H.
  fold (play_games winners (play_game s w)).
  rewrite IH by (rewrite A3, A4; lia).
  rewrite A8.
  destruct (Series.current_game s + 1 >=? Series.best_of s) eqn:E;
    [|reflexivity].
  apply Z.geb_le in E. lia.
Qed.

Lemma play_games_snoc winners w s :
  play_games (winners ++ [w]) s = play_game (play_games winners s) w.
Proof. unfold play_games. now rewrite fold_left_app. Qed.

Lemma wins_snoc s winners w :
  wins_of_team1 s (winners ++ [w])
  = wins_of_team1 s winners
    + (if String.eqb w (Team.name (Series.team1 s)) then 1 else 0)
  /\ wins_of_team2 s (winners ++ [w])
     = wins_of_team2 s winners
       + (if negb (String.eqb w (Team.name (Series.team1 s)))
             && String.eqb w (Team.name (Series.team2 s)) then 1 else 0).
Proof.
  unfold wins_of_team1, wins_of_team2.
  rewrite !filter_app, !length_app. cbn [filter].
  destruct (String.eqb w (Team.name (Series.team1 s)));
    destruct (String.eqb w (Team.name (Series.team2 s)));
    cbn [negb andb List.length]; split; lia.
Qed.

(** X28.  A series that starts with no game played and no win counted has no
    winner while fewer than best_of games are recorded. The best_of-th
    recorded game decides it: each team has the games recorded under its
    name, a winner name that is neither team's counts for nobody, and the
    winner is team1 when it has more wins than team2 and team2 otherwise, a
    tie included. *)
Theorem series_decided_by_best_of s winners :
  Series.current_game s = 0 ->
  Series.team1_wins s = 0 ->
  Series.team2_wins s = 0 ->
  Series.winner s = None ->
  1 <= Series.best_of s ->
  let s' := play_games winners s in
  (Z.of_nat (List.length winners) < Series.best_of s ->
   Series.winner s' = None)
  /\ (Z.of_nat (List.length winners) = Series.best_of s ->
      Series.team1_wins s' = wins_of_team1 s winners
      /\ Series.team2_wins s' = wins_of_team2 s winners
      /\ List.length (Series.games s')
         = (List.length (Series.games s) + List.length winners)%nat
      /\ Series.winner s'
         = Some (if wins_of_team1 s winners >? wins_of_team2 s winners
                 then Team.name (Series.team1 s)
                 else Team.name (Series.team2 s))).
Proof.
  intros C W1 W2 Wn B. cbv zeta. split.
  - intros L. rewrite play_games_undecided by lia. exact Wn.
  - intros L.
    destruct (play_games_counts winners s) as (_ & _ & _ & _ & A5 & A6 & A7).
    rewrite A6, A7, W1, W2. repeat split; try exact A5.
    destruct winners as [|w0 winners0] using rev_ind; [simpl in L; lia|].
    clear IHwinners0.
    rewrite play_games_snoc.
    destruct (play_games_counts winners0 s) as (B1 & B2 & B3 & B4 & _ & B6 & B7).
    destruct (play_game_step (play_games winners0 s) w0)
      as (_ & _ & _ & _ & _ & _ & _ & A8).
    rewrite A8, B1, B2, B3, B4, B6, B7, W1, W2, C.
    rewrite length_app in L. cbn [List.length] in L.
    destruct (wins_snoc s winners0 w0) as [-> ->].
    destruct (0 + Z.of_nat (List.length winners0) + 1 >=? Series.best_of s)
      eqn:E; [reflexivity|].
    rewrite Z.geb_leb in E. apply Z.leb_gt in E. lia.
Qed.

(** ** Dates the application stamps *)

Lemma digit_of_digit_char k : 0 <= k <= 9 -> digit_of (digit_char k) = Some k.
Proof.
  intros H.
  assert (C : k = 0 \/ k = 1 \/ k = 2 \/ k = 3 \/ k = 4 \/ k = 5 \/ k = 6
              \/ k = 7 \/ k = 8 \/ k = 9) by lia.
  destruct C as [->|[->|[->|[->|[->|[->|[->|[->|[->| ->]]]]]]]]];
    reflexivity.
Qed.

Lemma in_digits k : 0 <= k <= 9 -> In k digits.
Proof. intros H. unfold digits. simpl. lia. Qed.

Lemma str_of_digits :
  forallb (fun a => forallb (fun b => forallb (fun c => forallb (fun d =>
     String.eqb (str (1000 * a + 100 * b + 10 * c + d))
                (decimal_text (1000 * a + 100 * b + 10 * c + d)))
    digits) digits) digits) digits = true.
Proof. vm_compute; reflexivity. Qed.

Lemma four_digit_parts n :
  0 <= n <= 9999 ->
  0 <= n / 1000 <= 9 /\ 0 <= n / 100 mod 10 <= 9
  /\ 0 <= n / 10 mod 10 <= 9 /\ 0 <= n mod 10 <= 9
  /\ 1000 * (n / 1000) + 100 * (n / 100 mod 10) + 10 * (n / 10 mod 10)
     + n mod 10 = n.
Proof. intros H. repeat split; Z.div_mod_to_equations; lia. Qed.

Lemma two_digit_parts n :
  0 <= n <= 99 ->
  0 <= n / 10 <= 9 /\ 0 <= n mod 10 <= 9 /\ 10 * (n / 10) + n mod 10 = n.
Proof. intros H. repeat split; Z.div_mod_to_equations; lia. Qed.

Lemma str_decimal_text n : 0 <= n <= 9999 -> str n = decimal_text n.
Proof.
  intros H. destruct (four_digit_parts H) as (Ra & Rb & Rc & Rd & E).
  pose proof str_of_digits as A.
  rewrite forallb_forall in A. specialize (A _ (in_digits Ra)).
  rewrite forallb_forall in A. specialize (A _ (in_digits Rb)).
  rewrite forallb_forall in A. specialize (A _ (in_digits Rc)).
  rewrite forallb_forall in A. specialize (A _ (in_digits Rd)).
  cbv beta in A. rewrite E in A. now apply String.eqb_eq.
Qed.

Lemma format_02d_text n : 0 <= n <= 99 -> format_02d n = two_digits n.
Proof.
  intros Hn.
  assert (A : forallb
                (fun k => String.eqb (format_02d (Z.of_nat k))
                                     (two_digits (Z.of_nat k)))
                (seq 0 100) = true) by (vm_compute; reflexivity).
  rewrite forallb_forall in A.
  specialize (A (Z.to_nat n)). rewrite Z2Nat.id in A by lia.
  apply String.eqb_eq, A, in_seq. lia.
Qed.

Lemma decimal_text_four_digits n :
  1000 <= n -> decimal_text n = four_digits n.
Proof.
  intros H. unfold decimal_text.
  destruct (Z.ltb_spec n 10); [lia|].
  destruct (Z.ltb_spec n 100); [lia|].
  destruct (Z.ltb_spec n 1000); [lia | reflexivity].
Qed.

Lemma str_four_digits y :
  1000 <= y <= 9999 ->
  exists a b c d a' b' c' d',
    str y = String a (String b (String c (String d "")))
    /\ digit_of a = Some a' /\ digit_of b = Some b'
    /\ digit_of c = Some c' /\ digit_of d = Some d'
    /\ 1000 * a' + 100 * b' + 10 * c' + d' = y.
Proof.
  intros Hy.
  assert (H : 0 <= y <= 9999) by lia.
  destruct (four_digit_parts H) as (Ra & Rb & Rc & Rd & E).
  exists (digit_char (y / 1000)), (digit_char (y / 100 mod 10)),
    (digit_char (y / 10 mod 10)), (digit_char (y mod 10)),
    (y / 1000), (y / 100 mod 10), (y / 10 mod 10), (y mod 10).
  rewrite (str_decimal_text H), decimal_text_four_digits by lia.
  repeat split; try (now apply digit_of_digit_char). exact E.
Qed.

Lemma days_in_month_le y m : 1 <= m <= 12 -> _days_in_month y m <= 31.
Proof.
  intros Hm. unfold _days_in_month.
  assert (m = 1 \/ m = 2 \/ m = 3 \/ m = 4 \/ m = 5 \/ m = 6 \/ m = 7 \/ m = 8
          \/ m = 9 \/ m = 10 \/ m = 11 \/ m = 12) as C by lia.
  repeat destruct C as [->|C]; try subst m;
    destruct (_is_leap y); vm_compute; discriminate.
Qed.

Lemma fromisoformat_strftime y m d :
  1000 <= y <= 9999 -> 1 <= m <= 12 -> 1 <= d <= _days_in_month y m ->
  fromisoformat (strftime_Ymd y m d) = Ok (y, m, d).
Proof.
  intros Hy Hm Hd.
  { pose proof (days_in_month_le y Hm) as Hd31.
    destruct (str_four_digits Hy)
      as (a & b & c & e & a' & b' & c' & e' & Sy & Da & Db & Dc & De & Ey).
    destruct (format_02d_two_digits (n := m))
      as (f & g & f' & g' & Sm & Df & Dg & Em); [lia|].
    destruct (format_02d_two_digits (n := d))
      as (h & i & h' & i' & Sd & Dh & Di & Ed); [lia|].
    unfold strftime_Ymd, fromisoformat. rewrite Sy, Sm, Sd.
    cbn [String.append list_ascii_of_string].
    rewrite Da, Db, Dc, De, Df, Dg, Dh, Di.
    cbv beta iota zeta.
    rewrite Ey, Em, Ed.
    change (Ascii.eqb "-" "-") with true. cbn [andb negb].
    assert (C1 : (MINYEAR <=? y) && (y <=? MAXYEAR) = true).
    { unfold MINYEAR, MAXYEAR. apply andb_true_intro. split; apply Z.leb_le; lia. }
    assert (C2 : (1 <=? m) && (m <=? 12) = true).
    { apply andb_true_intro. split; apply Z.leb_le; lia. }
    assert (C3 : (1 <=? d) && (d <=? _days_in_month y m) = true).
    { apply andb_true_intro. split; apply Z.leb_le; lia. }
    rewrite C1, C2, C3. reflexivity. }
Qed.

(** X29.  A date stamped as strftime('%Y-%m-%d'), as ui.py stamps a series,
    reads back as the same calendar date: for every date of the years 1000
    to 9999 fromisoformat returns the year, month and day that were
    formatted, and _iso_week_key returns a key for it. *)
Theorem fromisoformat_reads_stamped_date y m d :
  1000 <= y <= 9999 -> 1 <= m <= 12 -> 1 <= d <= _days_in_month y m ->
  fromisoformat (strftime_Ymd y m d) = Ok (y, m, d)
  /\ exists wk, _iso_week_key (strftime_Ymd y m d) = Ok wk.
Proof.
  intros Hy Hm Hd.
  pose proof (fromisoformat_strftime Hy Hm Hd) as R.
  split; [exact R|].
  unfold _iso_week_key. rewrite R.
  destruct (isocalendar y m d) as [[year week] wd]. eauto.
Qed.

(** X30.  A batch run over summaries the application wrote does not abort:
    when every summary file of the series root was written by
    Series.save_summary for a series stamped with a calendar date of the
    years 1000 to 9999, merge_all returns its two outputs. *)
Theorem merge_all_accepts_application_summaries listing :
  Forall stamped_by_application listing ->
  exists weekly season, merge_all (Some listing) = Ok (weekly, season).
Proof.
  intros Hall.
  destruct (merge_all_accepts (Some listing)) as [_ Hok].
  destruct Hok as [[weekly season] H]; [|now exists weekly, season].
  apply forallb_forall. intros s I.
  apply scan_from_listing in I.
  destruct I as (nm & I & _).
  rewrite Forall_forall in Hall.
  destruct (Hall _ I (Json s) eq_refl)
    as (ser & y & m & d & [= ->] & Ed & Hy & Hm & Hd).
  unfold date_accepted, Series.save_summary. cbn [Summary.date].
  destruct (String.eqb (Series.date ser) ""); [reflexivity|].
  rewrite Ed.
  unfold _iso_week_key. rewrite (fromisoformat_strftime Hy Hm Hd).
  now destruct (isocalendar y m d) as [[year week] wd].
Qed.

(** ** The week label of a calendar date *)

Lemma is_leap_spec y : _is_leap y = leap_year y.
Proof.
  unfold _is_leap, leap_year.
  destruct (Z.eqb_spec (y mod 4) 0), (Z.eqb_spec (y mod 100) 0),
    (Z.eqb_spec (y mod 400) 0); cbn [andb orb negb]; try reflexivity;
    exfalso; Z.div_mod_to_equations; lia.
Qed.

Lemma days_in_month_spec y m :
  1 <= m <= 12 -> _days_in_month y m = month_length y m.
Proof.
  intros H. unfold _days_in_month, month_length. rewrite is_leap_spec.
  assert (C : m = 1 \/ m = 2 \/ m = 3 \/ m = 4 \/ m = 5 \/ m = 6 \/ m = 7
              \/ m = 8 \/ m = 9 \/ m = 10 \/ m = 11 \/ m = 12) by lia.
  destruct C as [->|[->|[->|[->|[->|[->|[->|[->|[->|[->|[->| ->]]]]]]]]]]];
    destruct (leap_year y); reflexivity.
Qed.

Lemma month_length_le y m : 1 <= m <= 12 -> month_length y m <= 31.
Proof.
  intros H. unfold month_length.
  assert (C : m = 1 \/ m = 2 \/ m = 3 \/ m = 4 \/ m = 5 \/ m = 6 \/ m = 7
              \/ m = 8 \/ m = 9 \/ m = 10 \/ m = 11 \/ m = 12) by lia.
  destruct C as [->|[->|[->|[->|[->|[->|[->|[->|[->|[->|[->| ->]]]]]]]]]]];
    try destruct (leap_year y); lia.
Qed.

Lemma fromisoformat_date_text y m d :
  0 <= y <= 9999 -> 0 <= m <= 99 -> 0 <= d <= 99 ->
  fromisoformat (date_text y m d)
  = if negb ((MINYEAR <=? y) && (y <=? MAXYEAR))
    then Raise (ValueError "year is out of range")
    else if negb ((1 <=? m) && (m <=? 12))
    then Raise (ValueError "month must be in 1..12")
    else if negb ((1 <=? d) && (d <=? _days_in_month y m))
    then Raise (ValueError "day is out of range for month")
    else Ok (y, m, d).
Proof.
  intros Hy Hm Hd.
  destruct (four_digit_parts Hy) as (Y1 & Y2 & Y3 & Y4 & Ey).
  destruct (two_digit_parts Hm) as (M1 & M2 & Em).
  destruct (two_digit_parts Hd) as (D1 & D2 & Ed).
  unfold date_text, four_digits, two_digits, fromisoformat.
  cbn [String.append list_ascii_of_string].
  rewrite !digit_of_digit_char by assumption.
  cbv beta iota zeta. rewrite Ey, Em, Ed.
  change (Ascii.eqb "-" "-") with true. cbn [andb negb].
  reflexivity.
Qed.

Lemma fromisoformat_calendar_date y m d :
  calendar_date y m d -> fromisoformat (date_text y m d) = Ok (y, m, d).
Proof.
  intros (Hy & Hm & Hd). pose proof (@month_length_le y m Hm) as L.
  rewrite fromisoformat_date_text by lia.
  rewrite days_in_month_spec by assumption.
  assert (C1 : (MINYEAR <=? y) && (y <=? MAXYEAR) = true).
  { unfold MINYEAR, MAXYEAR. apply andb_true_intro.
    split; apply Z.leb_le; lia. }
  assert (C2 : (1 <=? m) && (m <=? 12) = true).
  { apply andb_true_intro. split; apply Z.leb_le; lia. }
  assert (C3 : (1 <=? d) && (d <=? month_length y m) = true).
  { apply andb_true_intro. split; apply Z.leb_le; lia. }
  rewrite C1, C2, C3. reflexivity.
Qed.

Lemma ymd2ord_next_day y m d :
  calendar_date y m d ->
  let '(y', m', d') := next_day y m d in
  _ymd2ord y' m' d' = _ymd2ord y m d + 1.
Proof.
  intros (Hy & Hm & Hd). unfold next_day.
  destruct (Z.ltb_spec d (month_length y m)) as [Hlt|Hge].
  - unfold _ymd2ord. lia.
  - assert (E : d = month_length y m) by lia. clear Hge Hd.
    destruct (Z.ltb_spec m 12) as [Hm12|Hm12].
    + unfold _ymd2ord, _days_before_month. rewrite is_leap_spec. subst d.
      assert (C : m = 1 \/ m = 2 \/ m = 3 \/ m = 4 \/ m = 5 \/ m = 6
                  \/ m = 7 \/ m = 8 \/ m = 9 \/ m = 10 \/ m = 11) by lia.
      destruct C as [->|[->|[->|[->|[->|[->|[->|[->|[->|[->| ->]]]]]]]]]];
        unfold month_length; destruct (leap_year y); simpl; lia.
    + assert (m = 12) by lia. subst m d.
      pose proof (year_length_leap y) as L.
      unfold _ymd2ord, _days_before_month. rewrite !is_leap_spec in *.
      unfold month_length. destruct (leap_year y); simpl; lia.
Qed.

Lemma iso_year_range y m d iso_year iso_week :
  calendar_date y m d ->
  iso8601_week (_ymd2ord y m d) iso_year iso_week ->
  1 <= iso_year <= 9999.
Proof.
  intros (Hy & Hm & Hd) [[L U] _].
  rewrite <- days_in_month_spec in Hd by assumption.
  pose proof (@ymd2ord_within_year y m d Hm Hd) as [Lo Hi].
  rewrite !jan1_ord in *.
  unfold thursday_of_week, weekday in *.
  pose proof (@days_before_year_mono 1 y) as M1.
  pose proof (@days_before_year_mono (y + 1) 10000) as M2.
  assert (D1 : _days_before_year 1 = 0) by reflexivity.
  assert (D2 : _days_before_year 10000 = 3652059) by reflexivity.
  split.
  - destruct (Z.le_gt_cases 1 iso_year) as [H|H]; [exact H | exfalso].
    pose proof (@days_before_year_mono (iso_year + 1) 1) as M3.
    generalize dependent (_days_before_year (iso_year + 1)).
    generalize dependent (_days_before_year iso_year).
    generalize dependent (_days_before_year y).
    generalize dependent (_days_before_year (y + 1)).
    generalize dependent (_ymd2ord y m d).
    intros. Z.div_mod_to_equations. lia.
  - destruct (Z.le_gt_cases iso_year 9999) as [H|H]; [exact H | exfalso].
    pose proof (@days_before_year_mono 10000 iso_year) as M3.
    generalize dependent (_days_before_year (iso_year + 1)).
    generalize dependent (_days_before_year iso_year).
    generalize dependent (_days_before_year y).
    generalize dependent (_days_before_year (y + 1)).
    generalize dependent (_ymd2ord y m d).
    intros. Z.div_mod_to_equations. lia.
Qed.

Lemma decimal_text_padded n (rest : string) :
  1 <= n <= 9999 ->
  ((decimal_text n ++ rest)%string = (four_digits n ++ rest)%string
   <-> 1000 <= n).
Proof.
  intros H. split.
  - intros E. apply (f_equal String.length) in E.
    rewrite !string_length_append in E.
    unfold decimal_text in E.
    destruct (Z.ltb_spec n 10); [cbn [String.length four_digits] in E; lia|].
    destruct (Z.ltb_spec n 100);
      [cbn [String.length four_digits two_digits] in E; lia|].
    destruct (Z.ltb_spec n 1000);
      [cbn [String.length four_digits two_digits] in E; lia | assumption].
  - intros Hn. now rewrite decimal_text_four_digits.
Qed.

(** C4.  Week bucketing follows the ISO week-year rules, but the year of
    the key is not padded.  Ordinals count days (0001-01-01, a Monday, is
    day 1 and each next calendar day is one more).  For every date of the
    years 1 to 9999, written 'YYYY-MM-DD', [_iso_week_key] returns the ISO
    year in decimal, "-W" and the ISO week number on two digits, where the
    pair is the one ISO 8601 assigns to the date (the year of the Thursday
    of its week and the rank of that Thursday in that year).  This is the
    label 'YYYY-Www' exactly when the ISO year has four digits: 2024-12-30
    is bucketed under 2025-W01, and 0999-06-02 under 999-W22, where the
    label is 0999-W22. *)
Theorem iso_week_key_year_not_padded :
  _ymd2ord 1 1 1 = 1
  /\ (forall y m d,
        calendar_date y m d ->
        let '(y', m', d') := next_day y m d in
        _ymd2ord y' m' d' = _ymd2ord y m d + 1)
  /\ (forall y m d,
        calendar_date y m d ->
        exists iso_year iso_week,
          _iso_week_key (date_text y m d)
          = Ok (decimal_text iso_year ++ "-W" ++ two_digits iso_week)%string
          /\ iso8601_week (_ymd2ord y m d) iso_year iso_week
          /\ 1 <= iso_year <= 9999
          /\ 1 <= iso_week <= 53
          /\ ((decimal_text iso_year ++ "-W" ++ two_digits iso_week)%string
              = week_label iso_year iso_week
              <-> 1000 <= iso_year))
  /\ date_text 2024 12 30 = "2024-12-30"
  /\ _iso_week_key "2024-12-30" = Ok "2025-W01"
  /\ week_label 2025 1 = "2025-W01"
  /\ date_text 999 6 2 = "0999-06-02"
  /\ _iso_week_key "0999-06-02" = Ok "999-W22"
  /\ week_label 999 22 = "0999-W22".
Proof.
  split; [reflexivity|].
  split; [exact ymd2ord_next_day|].
  split; [|repeat split; vm_compute; reflexivity].
  intros y m d Hdate.
  destruct (iso_week_key_of_date _ (fromisoformat_calendar_date Hdate))
    as (iso_year & iso_week & K & I & R).
  pose proof (iso_year_range Hdate I) as Ry.
  exists iso_year, iso_week.
  rewrite K, str_decimal_text, format_02d_text by lia.
  split; [reflexivity|]. split; [exact I|]. split; [exact Ry|].
  split; [exact R|].
  unfold week_label. now apply decimal_text_padded.
Qed.

(** ** A date that is not a calendar date *)

Lemma fromisoformat_raises s e :
  fromisoformat s = Raise e -> exists msg, e = ValueError msg.
Proof.
  unfold fromisoformat.
  destruct (list_ascii_of_string s)
    as [|y1 [|y2 [|y3 [|y4 [|s1 [|m1 [|m2 [|s2 [|d1 [|d2 [|x l]]]]]]]]]]];
    try (intros [= <-]; eauto; fail).
  destruct (digit_of y1), (digit_of y2), (digit_of y3), (digit_of y4),
    (digit_of m1), (digit_of m2), (digit_of d1), (digit_of d2);
    try (intros [= <-]; eauto; fail).
  repeat match goal with
         | |- context [if negb ?c then _ else _] => destruct c; cbn [negb]
         end;
    try discriminate; intros [= <-]; eauto.
Qed.

Lemma iso_week_key_raises s e :
  _iso_week_key s = Raise e -> exists msg, e = ValueError msg.
Proof.
  unfold _iso_week_key.
  destruct (fromisoformat s) as [[[y m] d]|e0] eqn:F.
  - destruct (isocalendar y m d) as [[year week] wd]. discriminate.
  - intros [= <-]. exact (fromisoformat_raises _ F).
Qed.

(** X2.  A date that is written 'YYYY-MM-DD' in digits and is not a date of
    the calendar (year 0000, a month outside 01 to 12, a day the month does
    not have) aborts the whole batch: when a scanned summary carries it,
    merge_all raises ValueError and returns nothing, whatever other
    summaries, unparsable files and other entries the series root holds. *)
Theorem invalid_calendar_date_aborts root s y m d :
  In s (_scan_series_summaries root) ->
  Summary.date s = Some (date_text y m d) ->
  0 <= y <= 9999 -> 0 <= m <= 99 -> 0 <= d <= 99 ->
  ~ calendar_date y m d ->
  exists msg, merge_all root = Raise (ValueError msg).
Proof.
  intros I Hs Hy Hm Hd Hinv.
  assert (R : exists e, fromisoformat (date_text y m d) = Raise e).
  { rewrite fromisoformat_date_text by assumption.
    destruct ((MINYEAR <=? y) && (y <=? MAXYEAR)) eqn:C1; cbn [negb];
      [|eauto].
    destruct ((1 <=? m) && (m <=? 12)) eqn:C2; cbn [negb]; [|eauto].
    destruct ((1 <=? d) && (d <=? _days_in_month y m)) eqn:C3; cbn [negb];
      [|eauto].
    exfalso. apply Hinv.
    apply andb_true_iff in C1, C2, C3.
    unfold MINYEAR, MAXYEAR in C1.
    rewrite !Z.leb_le in C1, C2, C3.
    unfold calendar_date. rewrite <- days_in_month_spec by lia. lia. }
  destruct R as [e0 R].
  assert (A : date_accepted s = false).
  { unfold date_accepted. rewrite Hs.
    destruct (String.eqb_spec (date_text y m d) "") as [E|_];
      [unfold date_text, four_digits in E; discriminate|].
    unfold _iso_week_key. now rewrite R. }
  unfold merge_all.
  destruct (merge_loop empty_buckets (_scan_series_summaries root))
    as [b|e] eqn:L.
  - exfalso.
    assert (F : forallb date_accepted (_scan_series_summaries root) = true)
      by (apply merge_loop_accepts with (b := empty_buckets); eauto).
    rewrite forallb_forall in F. rewrite (F _ I) in A. discriminate.
  - destruct (merge_loop_raises _ _ L) as (s' & date & _ & _ & _ & K).
    destruct (iso_week_key_raises _ K) as [msg ->]. now exists msg.
Qed.

(* ================================================================== *)
(** * The properties on sample inputs *)

Lemma weekly_keys_ascending_witness :
  exists weekly season,
    merge_all (Some sample_listing) = Ok (weekly, season)
    /\ LocallySorted leb_true (keys weekly) /\ NoDup (keys weekly).
Proof.
  destruct (merge_all (Some sample_listing)) as [[weekly season]|e] eqn:E;
    [|vm_compute in E; discriminate].
  exists weekly, season. split; [reflexivity|].
  exact (@weekly_keys_ascending _ _ _ E).
Defined.

Lemma season_totals_sum_records_witness :
  exists weekly season,
    merge_all (Some sample_listing) = Ok (weekly, season)
    /\ stat (Totals.players season) "Ana" "points"
       = records_total is_dated PLAYER_STAT_KEYS players_block
           (_scan_series_summaries (Some sample_listing)) "Ana" "points"
    /\ stat (Totals.teams season) "Ana" "points"
       = records_total is_dated TEAM_STAT_KEYS teams_block
           (_scan_series_summaries (Some sample_listing)) "Ana" "points".
Proof.
  destruct (merge_all (Some sample_listing)) as [[weekly season]|e] eqn:E;
    [|vm_compute in E; discriminate].
  exists weekly, season. split; [reflexivity|].
  exact (@season_totals_sum_records _ _ _ "Ana" "points" E).
Defined.

Lemma week_totals_sum_records_witness :
  exists weekly season entry,
    merge_all (Some sample_listing) = Ok (weekly, season)
    /\ get weekly "2025-W23" = Some entry
    /\ stat (Totals.players entry) "Ana" "points"
       = records_total (in_week "2025-W23") PLAYER_STAT_KEYS players_block
           (_scan_series_summaries (Some sample_listing)) "Ana" "points"
    /\ stat (Totals.teams entry) "Aces" "total_points"
       = records_total (in_week "2025-W23") TEAM_STAT_KEYS teams_block
           (_scan_series_summaries (Some sample_listing)) "Aces" "total_points".
Proof.
  destruct (merge_all (Some sample_listing)) as [[weekly season]|e] eqn:E;
    [|vm_compute in E; discriminate].
  destruct (get weekly "2025-W23") as [entry|] eqn:G;
    [|vm_compute in E; injection E as <- _; vm_compute in G; discriminate].
  exists weekly, season, entry.
  split; [reflexivity|]. split; [exact G|]. split.
  - exact (proj1 (@week_totals_sum_records _ _ _ _ _ "Ana" "points" E G)).
  - exact (proj2 (@week_totals_sum_records _ _ _ _ _ "Aces" "total_points" E G)).
Defined.

Lemma reported_weeks_witness :
  exists weekly season,
    merge_all (Some sample_listing) = Ok (weekly, season)
    /\ ((exists entry, get weekly "2025-W24" = Some entry)
        <-> exists s, In s (_scan_series_summaries (Some sample_listing))
                      /\ in_week "2025-W24" s = true
                      /\ lists_players s = true).
Proof.
  destruct (merge_all (Some sample_listing)) as [[weekly season]|e] eqn:E;
    [|vm_compute in E; discriminate].
  exists weekly, season. split; [reflexivity|].
  exact (@reported_weeks _ _ _ "2025-W24" E).
Defined.

Lemma totals_independent_of_listing_order_witness :
  exists weekly season weekly' season',
    merge_all (Some sample_listing) = Ok (weekly, season)
    /\ merge_all (Some (rev sample_listing)) = Ok (weekly', season')
    /\ stat (Totals.players season') "Ana" "points"
       = stat (Totals.players season) "Ana" "points".
Proof.
  destruct (merge_all (Some sample_listing)) as [[weekly season]|e] eqn:E;
    [|vm_compute in E; discriminate].
  destruct (@totals_independent_of_listing_order sample_listing
              (rev sample_listing) weekly season
              (Permutation_rev sample_listing) E)
    as (weekly' & season' & E' & S & _).
  exists weekly, season, weekly', season'.
  split; [reflexivity|]. split; [exact E'|].
  exact (proj1 (S "Ana" "points")).
Defined.

Lemma same_week_same_key_witness :
  fromisoformat "2024-12-30" = Ok (2024, 12, 30)
  /\ fromisoformat "2025-01-05" = Ok (2025, 1, 5)
  /\ (_iso_week_key "2024-12-30" = _iso_week_key "2025-01-05"
      <-> monday_of_week (_ymd2ord 2024 12 30)
          = monday_of_week (_ymd2ord 2025 1 5)).
Proof.
  split; [reflexivity|]. split; [reflexivity|].
  exact (@same_week_same_key "2024-12-30" 2024 12 30 "2025-01-05" 2025 1 5
           eq_refl eq_refl).
Defined.

Lemma main_syncs_registry_witness :
  exists st' printed weekly season,
    main (Some sample_listing) sample_store = Ok (st', printed)
    /\ merge_all (Some sample_listing) = Ok (weekly, season)
    /\ (forall name m,
          get (Totals.players season) name = Some m ->
          get (fst (load_registry st')) name = Some m).
Proof.
  destruct (main (Some sample_listing) sample_store)
    as [[st' printed]|e] eqn:E; [|vm_compute in E; discriminate].
  destruct (@main_syncs_registry _ _ _ _ E) as (weekly & season & M & P & _).
  exists st', printed, weekly, season.
  split; [reflexivity|]. split; [exact M | exact P].
Defined.

Lemma main_rerun_is_noop_witness :
  exists st' printed,
    main (Some sample_listing) sample_store = Ok (st', printed)
    /\ main (Some sample_listing) st' = Ok (st', printed).
Proof.
  destruct (main (Some sample_listing) sample_store)
    as [[st' printed]|e] eqn:E; [|vm_compute in E; discriminate].
  exists st', printed. split; [reflexivity|].
  exact (@main_rerun_is_noop _ _ _ _ E).
Defined.

Lemma series_summaries_balance_teams_witness :
  Forall written_by_series sample_series_listing
  /\ exists weekly season,
       merge_all (Some sample_series_listing) = Ok (weekly, season)
       /\ stat (Totals.teams season) "Bulls" "total_points"
          = weeks_sum Totals.teams weekly "Bulls" "total_points".
Proof.
  assert (F : Forall written_by_series sample_series_listing).
  { constructor; [|constructor].
    exists sample_series. split; [reflexivity | discriminate]. }
  split; [exact F|].
  destruct (merge_all (Some sample_series_listing))
    as [[weekly season]|e] eqn:E; [|vm_compute in E; discriminate].
  exists weekly, season. split; [reflexivity|].
  exact (@series_summaries_balance_teams _ _ _ "Bulls" "total_points" F E).
Defined.

Lemma upsert_team_twice_witness :
  List.length ["Ana"; "Eve"] = 2%nat
  /\ upsert_team "Aces" ["Ana"; "Eve"]
       (fst (upsert_team "Aces" ["Ana"; "Eve"] sample_store))
     = (fst (upsert_team "Aces" ["Ana"; "Eve"] sample_store), Ok tt).
Proof.
  split; [reflexivity|].
  exact (@upsert_team_twice "Aces" ["Ana"; "Eve"] sample_store eq_refl).
Defined.

Lemma get_team_after_upsert_witness :
  List.length ["Ana"; "Eve"] = 2%nat
  /\ exists team,
       get_team_by_name "Aces"
         (fst (upsert_team "Aces" ["Ana"; "Eve"] sample_store)) = Some team
       /\ Team.name team = "Aces"
       /\ map Player.name (Team.players team) = ["Ana"; "Eve"].
Proof.
  split; [reflexivity|].
  exact (@get_team_after_upsert "Aces" ["Ana"; "Eve"] sample_store eq_refl).
Defined.

Lemma delete_after_upsert_witness :
  List.length ["Ana"; "Eve"] = 2%nat
  /\ get_team_by_name "Crows"
       (fst (delete_team "Crows"
               (fst (upsert_team "Crows" ["Ana"; "Eve"] sample_store))))
     = None
  /\ contains "Eve"
       (fst (load_registry
               (fst (delete_team "Crows"
                       (fst (upsert_team "Crows" ["Ana"; "Eve"] sample_store))))))
     = true.
Proof.
  split; [reflexivity|].
  destruct (@delete_after_upsert "Crows" ["Ana"; "Eve"] sample_store eq_refl)
    as (_ & G & _ & P).
  split; [exact G|]. apply P. right. now left.
Defined.

Lemma reconcile_overwrite_is_exact_witness :
  let after :=
    load_registry
      (fst (update_registry_from_totals
              [("Ana", [("points", 14); ("sinks", 3)])]
              [("Aces", [("total_points", 14)])] true sample_store)) in
  stat (fst after) "Ana" "points" = 14
  /\ stat (fst after) "Ana" "catches" = 0
  /\ team_stat (snd after) "Aces" "total_points" = 14.
Proof.
  assert (N1 : NoDup (keys [("points", 14); ("sinks", 3)])).
  { constructor; [intros [E|[]]; discriminate|].
    constructor; [intros []|constructor]. }
  assert (N2 : NoDup (keys [("total_points", 14)])).
  { constructor; [intros []|constructor]. }
  assert (Np : NoDup (keys [("Ana", [("points", 14); ("sinks", 3)])])).
  { constructor; [intros []|constructor]. }
  assert (Nt : NoDup (keys [("Aces", [("total_points", 14)])])).
  { constructor; [intros []|constructor]. }
  cbv zeta. split; [|split].
  - exact (proj1 (@reconcile_overwrite_is_exact
                    [("Ana", [("points", 14); ("sinks", 3)])]
                    [("Aces", [("total_points", 14)])] sample_store
                    "Ana" [("points", 14); ("sinks", 3)] "points" N1)
             Np eq_refl).
  - exact (proj1 (@reconcile_overwrite_is_exact
                    [("Ana", [("points", 14); ("sinks", 3)])]
                    [("Aces", [("total_points", 14)])] sample_store
                    "Ana" [("points", 14); ("sinks", 3)] "catches" N1)
             Np eq_refl).
  - exact (proj2 (@reconcile_overwrite_is_exact
                    [("Ana", [("points", 14); ("sinks", 3)])]
                    [("Aces", [("total_points", 14)])] sample_store
                    "Aces" [("total_points", 14)] "total_points" N2)
             Nt eq_refl).
Defined.

Lemma reloaded_teams_count_twice_witness :
  exists team1 team2,
    get_team_by_name "Aces" sample_store = Some team1
    /\ get_team_by_name "Bulls" sample_store = Some team2
    /\ team_stat
         (snd (load_registry
                 (update_registry_with_series team1 team2 sample_store)))
         "Aces" "total_points"
       = 2 * team_stat (snd (load_registry sample_store)) "Aces" "total_points"
    /\ team_stat (snd (load_registry sample_store)) "Aces" "total_points" = 5.
Proof.
  destruct (get_team_by_name "Aces" sample_store) as [team1|] eqn:E1;
    [|vm_compute in E1; discriminate].
  destruct (get_team_by_name "Bulls" sample_store) as [team2|] eqn:E2;
    [|vm_compute in E2; discriminate].
  exists team1, team2. split; [reflexivity|]. split; [reflexivity|].
  split; [|reflexivity].
  assert (Ne : "Aces" <> "Bulls") by discriminate.
  assert (N1 : NoDup (keys (setitem "total_points" 5 _default_team_stats))).
  { vm_compute. repeat (constructor; [simpl; intuition discriminate|]).
    constructor. }
  assert (N2 : NoDup (keys (setitem "total_points" 7 _default_team_stats))).
  { vm_compute. repeat (constructor; [simpl; intuition discriminate|]).
    constructor. }
  exact (proj1 (@reloaded_teams_count_twice "Aces" "Bulls" sample_store
                  team1 team2
                  (TeamEntry.mk (setitem "total_points" 5 _default_team_stats)
                     ["Ana"; "Ben"])
                  (TeamEntry.mk (setitem "total_points" 7 _default_team_stats)
                     ["Cy"; "Dee"])
                  "total_points" Ne E1 E2 eq_refl eq_refl N1 N2)).
Defined.

Lemma outputs_written_once_witness :
  exists st' printed log,
    Traced.main (Some sample_listing) sample_store = Ok (st', printed, log)
    /\ main (Some sample_listing) sample_store = Ok (st', printed)
    /\ NoDup log
    /\ log = [ "data/weekly_reports/week_2025-W23_report.json";
               "data/weekly_reports/week_2025-W23_report.txt";
               "data/weekly_reports/week_2025-W24_report.json";
               "data/weekly_reports/week_2025-W24_report.txt";
               "data/season_totals.json"; "data/season_totals.txt";
               "data/registry/players.json"; "data/registry/teams.json" ].
Proof.
  destruct (Traced.main (Some sample_listing) sample_store)
    as [[[st' printed] log]|e] eqn:E; [|vm_compute in E; discriminate].
  destruct (@outputs_written_once _ _ _ _ _ E) as (M & N & _).
  exists st', printed, log.
  split; [reflexivity|]. split; [exact M|]. split; [exact N|].
  vm_compute in E. injection E as _ _ <-. reflexivity.
Defined.

Lemma series_decided_by_best_of_witness :
  Series.winner (play_games ["Aces"; "Bulls"] sample_series) = None
  /\ Series.winner (play_games ["Aces"; "nobody"; "Bulls"] sample_series)
     = Some "Bulls"
  /\ Series.team1_wins (play_games ["Aces"; "nobody"; "Bulls"] sample_series)
     = 1.
Proof.
  pose proof (@series_decided_by_best_of sample_series ["Aces"; "Bulls"]
                eq_refl eq_refl eq_refl eq_refl) as H2.
  pose proof (@series_decided_by_best_of sample_series
                ["Aces"; "nobody"; "Bulls"]
                eq_refl eq_refl eq_refl eq_refl) as H3.
  cbv zeta in H2, H3.
  assert (B : 1 <= Series.best_of sample_series) by (vm_compute; discriminate).
  destruct (H2 B) as [U _]. destruct (H3 B) as [_ D].
  split; [apply U; vm_compute; reflexivity|].
  destruct (D eq_refl) as (W1 & _ & _ & W).
  split; [exact W | exact W1].
Defined.

Lemma fromisoformat_reads_stamped_date_witness :
  strftime_Ymd 2025 6 2 = "2025-06-02"
  /\ fromisoformat (strftime_Ymd 2025 6 2) = Ok (2025, 6, 2)
  /\ exists wk, _iso_week_key (strftime_Ymd 2025 6 2) = Ok wk.
Proof.
  split; [reflexivity|].
  apply fromisoformat_reads_stamped_date.
  - lia.
  - lia.
  - split; [lia | vm_compute; discriminate].
Defined.

Lemma merge_all_accepts_application_summaries_witness :
  Forall stamped_by_application sample_series_listing
  /\ exists weekly season,
       merge_all (Some sample_series_listing) = Ok (weekly, season).
Proof.
  assert (F : Forall stamped_by_application sample_series_listing).
  { constructor; [|constructor].
    intros content [= <-]. exists sample_series, 2025, 6, 2.
    split; [reflexivity|]. split; [reflexivity|].
    split; [lia|]. split; [lia|]. split; [lia | vm_compute; discriminate]. }
  split; [exact F|].
  exact (merge_all_accepts_application_summaries F).
Defined.

Lemma invalid_calendar_date_aborts_witness :
  date_text 2025 2 30 = "2025-02-30"
  /\ exists msg,
       merge_all
         (Some [ ("A", Directory (Some (Json
                    (Summary.mk (Some "2025-06-02")
                       (Some [("Ana", [("points", 10)])]) None []))));
                 ("B", Directory (Some (Json
                    (Summary.mk (Some "2025-02-30")
                       (Some [("Ana", [("points", 4)])]) None [])))) ])
       = Raise (ValueError msg).
Proof.
  split; [reflexivity|].
  apply (@invalid_calendar_date_aborts _
           (Summary.mk (Some "2025-02-30")
              (Some [("Ana", [("points", 4)])]) None [])
           2025 2 30).
  - vm_compute. right. left. reflexivity.
  - reflexivity.
  - lia.
  - lia.
  - lia.
  - intros (_ & _ & H). vm_compute in H. destruct H as [_ H]. now apply H.
Defined.
